(** * ZaroHR-Insights: the temporal reconstruction and attrition engine

    A shallow embedding of the analytics core of [backend/app/main.py]:
    the period helpers, the snapshot CTE (identity resolver), the manpower,
    hires, demographics, location, attrition, age and gender, and tenure
    queries, and the Python post-processing of their rows; with them the
    password hashes of [backend/app/auth.py] and the login and reset
    endpoints that use them.

    Conventions of the embedding.
    - A calendar date is a record of its year, month and day, as Python's
      [datetime.date] and PostgreSQL's [date] expose it; dates are compared
      lexicographically.  The columns "DOJ" and "Final LWD" are dates, and a
      timestamp obtained from a date is the same date at midnight, so one
      type serves both.
    - A SQL query is the list function it denotes: [FROM]/[JOIN] is a
      comprehension, [WHERE] a [filter], [COUNT( * )] a [length], a window
      function a sort of each partition.  A nullable column is an [option].
    - Python and PostgreSQL floats are modelled by exact rationals ([Q]);
      rounding, infinities and NaN are outside the model.
    - A function that can raise returns a [result].
    - A library function the code calls without defining it (the key
      derivation, the base64 codec, the database's [LOWER]) is a variable of
      a section, and so is a column that a single endpoint reads.
    - Where a query orders its rows by a text column, the rows are listed
      by first appearance and the statements hold for every order. *)

From Stdlib Require Import ZArith QArith Qminmax Bool List Lia.
From Stdlib Require Import Ascii String DecimalString.
From Stdlib Require Import Sorting.Mergesort Sorting.Sorted Sorting.Permutation.
From Stdlib Require Import Orders FinFun.
Import ListNotations.

Local Open Scope string_scope.
Local Open Scope list_scope.
Local Open Scope Z_scope.

(** ** Results of fallible Python code *)

Module Py.

Inductive exception : Type :=
| HTTPException (status_code : Z) (detail : string)
| ValueError
| TypeError
| ZeroDivisionError
| DatabaseError.

Inductive result (A : Type) : Type :=
| Ok (a : A)
| Raise (e : exception).

Arguments Ok {A} a.
Arguments Raise {A} e.

Definition bind {A B} (r : result A) (k : A -> result B) : result B :=
  match r with
  | Ok a => k a
  | Raise e => Raise e
  end.

(** The error taxonomy of the specification, by HTTP status. *)
Definition InvalidArgument : Z := 400.
Definition InvalidRange : Z := 400.

(** [x or default] on an optional value whose inhabitants are all truthy. *)
Definition or_else {A} (x : option A) (default : A) : A :=
  match x with Some a => a | None => default end.

(** The values a row of a query result holds: [None], an [int], a [float]
    (or [Decimal]) and a [str]. *)
Inductive pyval : Type :=
| PyNone
| PyInt (z : Z)
| PyFloat (q : Q)
| PyStr (s : string).

(** Truth value of a row value, as [or] and [if] test it. *)
Definition truthy (v : pyval) : bool :=
  match v with
  | PyNone => false
  | PyInt z => negb (z =? 0)
  | PyFloat q => negb (Qeq_bool q 0%Q)
  | PyStr s => negb (String.eqb s "")
  end.

(** [v or 0]. *)
Definition or_zero (v : pyval) : pyval := if truthy v then v else PyInt 0.

(** A row is a [dict]; [row.get(key)] is [None] for an absent key. *)
Definition row : Type := list (string * pyval).

Definition get (r : row) (key : string) : pyval :=
  match find (fun kv => String.eqb (fst kv) key) r with
  | Some kv => snd kv
  | None => PyNone
  end.

End Py.
Import Py.

Notation "x <- r ;; k" := (Py.bind r (fun x => k))
  (at level 61, r at next level, right associativity).

(** ** Calendar dates *)

Module Dates.

Record date : Type := mkDate { year : Z; month : Z; day : Z }.

Definition date_ltb (a b : date) : bool :=
  (year a <? year b)
  || ((year a =? year b)
      && ((month a <? month b)
          || ((month a =? month b) && (day a <? day b)))).

Definition date_leb (a b : date) : bool := negb (date_ltb b a).

Definition date_lt (a b : date) : Prop :=
  year a < year b
  \/ (year a = year b
      /\ (month a < month b \/ (month a = month b /\ day a < day b))).

Definition date_le (a b : date) : Prop := ~ date_lt b a.

(** [_days_in_month] of main.py. *)
Definition _days_in_month (y m : Z) : Z :=
  if existsb (Z.eqb m) [1; 3; 5; 7; 8; 10; 12] then 31
  else if existsb (Z.eqb m) [4; 6; 9; 11] then 30
  else if ((y mod 4 =? 0) && negb (y mod 100 =? 0)) || (y mod 400 =? 0)
       then 29
       else 28.

Definition MINYEAR : Z := 1.
Definition MAXYEAR : Z := 9999.

(** The dates Python's [date] constructor and PostgreSQL's [make_date]
    accept. *)
Definition valid_dateb (d : date) : bool :=
  (MINYEAR <=? year d) && (year d <=? MAXYEAR)
  && (1 <=? month d) && (month d <=? 12)
  && (1 <=? day d) && (day d <=? _days_in_month (year d) (month d)).

Definition valid_date (d : date) : Prop := valid_dateb d = true.

(** [date(year, month, day)]: raises [ValueError] outside the calendar. *)
Definition py_date (y m d : Z) : result date :=
  if valid_dateb (mkDate y m d) then Ok (mkDate y m d) else Raise ValueError.

(** [value.replace(year=..., month=..., day=...)]. *)
Definition replace (value : date) (y m d : option Z) : result date :=
  py_date (or_else y (year value)) (or_else m (month value))
          (or_else d (day value)).

(** [calendar.monthrange(year, month)[1]]: the month is known to be in
    1..12 where main.py calls it. *)
Definition monthrange_days (y m : Z) : Z :=
  let mdays := nth (Z.to_nat m) [0; 31; 28; 31; 30; 31; 30; 31; 31; 30; 31; 30; 31] 0 in
  mdays + (if (m =? 2)
              && (((y mod 4 =? 0) && negb (y mod 100 =? 0)) || (y mod 400 =? 0))
           then 1 else 0).

(** *** PostgreSQL date arithmetic *)

(** [d + INTERVAL '1 day']. *)
Definition pg_next_day (d : date) : date :=
  if day d <? _days_in_month (year d) (month d)
  then mkDate (year d) (month d) (day d + 1)
  else if month d <? 12 then mkDate (year d) (month d + 1) 1
       else mkDate (year d + 1) 1 1.

(** [d - INTERVAL '1 day']. *)
Definition pg_prev_day (d : date) : date :=
  if 1 <? day d then mkDate (year d) (month d) (day d - 1)
  else if 1 <? month d
       then mkDate (year d) (month d - 1) (_days_in_month (year d) (month d - 1))
       else mkDate (year d - 1) 12 31.

(** [d + make_interval(months => n)]: the month is moved and the day is
    clamped to the length of the month reached. *)
Definition pg_add_months (d : date) (n : Z) : date :=
  let total := year d * 12 + (month d - 1) + n in
  let y := total / 12 in
  let m := total mod 12 + 1 in
  mkDate y m (Z.min (day d) (_days_in_month y m)).

(** [d + make_interval(years => n)]. *)
Definition pg_add_years (d : date) (n : Z) : date := pg_add_months d (12 * n).

Inductive grain : Type := GMonth | GQuarter | GYear.

(** [date_trunc(grain, d)]. *)
Definition date_trunc (g : grain) (d : date) : date :=
  match g with
  | GMonth => mkDate (year d) (month d) 1
  | GQuarter => mkDate (year d) (((month d - 1) / 3) * 3 + 1) 1
  | GYear => mkDate (year d) 1 1
  end.

(** [date_trunc('day', d)] of a date. *)
Definition date_trunc_day (d : date) : date := d.

(** The interval [age(d1, d2)] as (years, months, days), after PostgreSQL's
    [timestamp_age]: field-wise difference, sign flipped when [d1 < d2],
    negative days borrowed from the month of the earlier date, negative
    months borrowed from the year, sign restored. *)
Record interval : Type := mkInterval { iv_years : Z; iv_months : Z; iv_days : Z }.

Definition pg_age (d1 d2 : date) : interval :=
  let neg := date_ltb d1 d2 in
  let sgn (z : Z) := if neg then - z else z in
  let dy := sgn (year d1 - year d2) in
  let dm := sgn (month d1 - month d2) in
  let dd := sgn (day d1 - day d2) in
  let borrow := if neg then _days_in_month (year d1) (month d1)
                else _days_in_month (year d2) (month d2) in
  let '(dm, dd) := if dd <? 0 then (dm - 1, dd + borrow) else (dm, dd) in
  let '(dy, dm) := if dm <? 0 then (dy - 1, dm + 12) else (dy, dm) in
  mkInterval (sgn dy) (sgn dm) (sgn dd).

(** [TO_CHAR(d, 'YY')]: the last two digits of the year. *)
Definition digit (z : Z) : string :=
  String (ascii_of_nat (48 + Z.to_nat z)) EmptyString.

Definition to_char_YY (d : date) : string :=
  let yy := year d mod 100 in
  (digit (yy / 10) ++ digit (yy mod 10))%string.

End Dates.
Import Dates.

(** ** The tables the engine reads *)

Module Schema.

(** One ingestion event ("Upload"). *)
Record Upload : Type := mkUpload {
  upload_id : string;
  organizationId : string;
  dashboardMonthId : option string;
  uploadedAt : Z
}.

(** A named reporting period ("DashboardMonth"). *)
Record DashboardMonth : Type := mkDashboardMonth {
  dm_id : string;
  monthKey : string
}.

(** One row of [employee_dashboard_master], with the columns the analytics
    queries read. *)
Record Employee : Type := mkEmployee {
  id : Z;
  uploadId : string;
  new_emp_id : option string;      (* "New Emp ID" *)
  emp_id : option string;          (* "Emp ID" *)
  employee_name : option string;   (* "Employee Name" *)
  DOJ : option date;               (* "DOJ" *)
  final_lwd : option date;         (* "Final LWD" *)
  entity : option string;          (* "Entity" *)
  worklevel : option string;       (* "Worklevel" *)
  gender : option string;          (* "Gender" *)
  age : option Q;                  (* "Age" *)
  tenure : option Q;               (* "Tenure" *)
  ctc : option Q                   (* "CTC" *)
}.

Record Database : Type := mkDatabase {
  uploads : list Upload;
  dashboard_months : list DashboardMonth;
  employees : list Employee
}.

End Schema.
Import Schema.

(** ** Period engine: rolling windows, month keys and the request scope *)

Module Period.

Inductive granularity : Type := monthly | quarterly | yearly.

Definition _month_floor (value : date) : result date :=
  replace value None None (Some 1).

Definition _quarter_floor (value : date) : result date :=
  let month := ((month value - 1) / 3) * 3 + 1 in
  replace value None (Some month) (Some 1).

Definition _year_floor (value : date) : result date :=
  replace value None (Some 1) (Some 1).

Definition _shift_months (value : date) (months : Z) : result date :=
  let year := year value + (Dates.month value - 1 + months) / 12 in
  let month := (Dates.month value - 1 + months) mod 12 + 1 in
  let day := Z.min (day value) (_days_in_month year month) in
  replace value (Some year) (Some month) (Some day).

Definition floor_funcs (g : granularity) : date -> result date :=
  match g with
  | monthly => _month_floor
  | quarterly => _quarter_floor
  | yearly => _year_floor
  end.

Definition step_lookup (g : granularity) : Z :=
  match g with monthly => -11 | quarterly => -15 | yearly => -9 end.

Record period : Type := mkPeriod { p_start : date; p_end : date }.

(** [_resolve_period]; [today] stands for [date.today()].  The defaults
    are computed before the request's own bounds are looked at, as in the
    source. *)
Definition _resolve_period (today : date) (g : granularity)
    (start end_ : option date) : result period :=
  start_default <- floor_funcs g today ;;
  start_default <-
    match g with
    | monthly => _shift_months start_default (step_lookup g)
    | quarterly => _shift_months start_default (step_lookup g * 3)
    | yearly =>
        replace start_default (Some (year start_default + step_lookup g))
                None None
    end ;;
  end_default <- floor_funcs g today ;;
  let resolved_start := or_else start start_default in
  let resolved_end := or_else end_ end_default in
  if date_ltb resolved_end resolved_start
  then Raise (HTTPException 400 "End date must be after start date.")
  else Ok (mkPeriod resolved_start resolved_end).

(** *** Month keys *)

(** [s.split(sep, 1)] for a one-character separator: the text before the
    first separator and the text after it, or [None] when the separator does
    not occur (the list then has one element). *)
Fixpoint split_once (sep : ascii) (s : string) : option (string * string) :=
  match s with
  | EmptyString => None
  | String c rest =>
      if Ascii.eqb c sep then Some (EmptyString, rest)
      else match split_once sep rest with
           | Some (a, b) => Some (String c a, b)
           | None => None
           end
  end.

Definition is_space (c : ascii) : bool :=
  existsb (Ascii.eqb c)
          [" "; "009"; "010"; "011"; "012"; "013"; "028"; "029"; "030"; "031"]%char.

Fixpoint lstrip (l : list ascii) : list ascii :=
  match l with
  | c :: rest => if is_space c then lstrip rest else l
  | [] => []
  end.

Definition strip (l : list ascii) : list ascii :=
  rev (lstrip (rev (lstrip l))).

Definition digit_val (c : ascii) : option Z :=
  let n := Z.of_nat (nat_of_ascii c) in
  if (48 <=? n) && (n <=? 57) then Some (n - 48) else None.

(** Decimal digits with single underscores between them. *)
Fixpoint digits (l : list ascii) (acc : Z) (after_digit : bool) : option Z :=
  match l with
  | [] => if after_digit then Some acc else None
  | c :: rest =>
      match digit_val c with
      | Some v => digits rest (acc * 10 + v) true
      | None =>
          if Ascii.eqb c "_"%char && after_digit then digits rest acc false
          else None
      end
  end.

(** [int(s)] on ASCII text: surrounding whitespace, an optional sign,
    decimal digits.  [None] is [ValueError]. *)
Definition py_int (s : string) : option Z :=
  match strip (list_ascii_of_string s) with
  | c :: rest =>
      if Ascii.eqb c "-"%char then option_map Z.opp (digits rest 0 false)
      else if Ascii.eqb c "+"%char then digits rest 0 false
      else digits (c :: rest) 0 false
  | [] => None
  end.

(** [_month_range_from_key]. *)
Definition _month_range_from_key (month_key : string) : result (date * date) :=
  match
    match split_once "-"%char month_key with
    | Some (year_str, month_str) =>
        match py_int year_str, py_int month_str with
        | Some year, Some month => Some (year, month)
        | _, _ => None
        end
    | None => None
    end
  with
  | None => Raise (HTTPException 400 "Invalid month key format.")
  | Some (year, month) =>
      if (month <? 1) || (12 <? month)
      then Raise (HTTPException 400 "Invalid month key value.")
      else
        let last_day := monthrange_days year month in
        first <- py_date year month 1 ;;
        last <- py_date year month last_day ;;
        Ok (first, last)
  end.

(** *** The organization and month scope of a request *)

(** [value or None] on an optional string: the empty string is falsy. *)
Definition str_or_none (s : option string) : option string :=
  match s with
  | Some EmptyString => None
  | other => other
  end.

(** [ORDER BY u."uploadedAt" DESC LIMIT 1]. *)
Definition most_recent_upload (l : list Upload) : option Upload :=
  fold_left
    (fun best u =>
       match best with
       | None => Some u
       | Some b => if uploadedAt b <? uploadedAt u then Some u else Some b
       end)
    l None.

Record scope : Type := mkScope {
  org_id : option string;
  dashboard_month_id : option string;
  resolved_month_key : option string
}.

(** [_resolve_org_month_scope]. *)
Definition _resolve_org_month_scope (db : Database)
    (organization_id month_key : option string) : result scope :=
  let org_id := str_or_none organization_id in
  let resolved_month_key := str_or_none month_key in
  match resolved_month_key with
  | Some key =>
      match find (fun dm => String.eqb (monthKey dm) key) (dashboard_months db) with
      | None => Raise (HTTPException 404 "Dashboard month not found.")
      | Some row => Ok (mkScope org_id (Some (dm_id row)) resolved_month_key)
      end
  | None =>
      match org_id with
      | Some o =>
          match
            most_recent_upload
              (filter (fun u => String.eqb (organizationId u) o
                                && match dashboardMonthId u with
                                   | Some _ => true
                                   | None => false
                                   end)
                      (uploads db))
          with
          | Some u =>
              Ok (mkScope org_id (dashboardMonthId u)
                    (match dashboardMonthId u with
                     | Some mid =>
                         option_map monthKey
                           (find (fun dm => String.eqb (dm_id dm) mid)
                                 (dashboard_months db))
                     | None => None
                     end))
          | None => Ok (mkScope org_id None None)
          end
      | None => Ok (mkScope None None None)
      end
  end.

(** [_resolve_analytics_scope]: the scope first, the period second. *)
Definition _resolve_analytics_scope (db : Database) (today : date)
    (g : granularity) (start end_ : option date)
    (organization_id month_key : option string) : result (period * scope) :=
  sc <- _resolve_org_month_scope db organization_id month_key ;;
  p <- _resolve_period today g start end_ ;;
  Ok (p, sc).

End Period.
Import Period.

(** ** Identity resolver: [_build_snapshot_cte] *)

Module Snapshot.

(** [ed.id::text]. *)
Definition id_text (z : Z) : string := NilZero.string_of_int (Z.to_int z).

(** [COALESCE(ed."New Emp ID", ed."Emp ID", ed.id::text)]. *)
Definition identity_key (ed : Employee) : string :=
  match new_emp_id ed with
  | Some k => k
  | None =>
      match emp_id ed with
      | Some k => k
      | None => id_text (id ed)
      end
  end.

(** [org_clause]: present only when the request is scoped to an
    organization. *)
Definition org_clause (filter_org : option string) (u : Upload) : bool :=
  match filter_org with
  | Some o => String.eqb (organizationId u) o
  | None => true
  end.

(** [month_clause]: a NULL "dashboardMonthId" never equals the parameter. *)
Definition month_clause (filter_month : option string) (u : Upload) : bool :=
  match filter_month with
  | Some m =>
      match dashboardMonthId u with
      | Some m' => String.eqb m' m
      | None => false
      end
  | None => true
  end.

(** [FROM employee_dashboard_master ed JOIN "Upload" u ON u.id = ed."uploadId"
    WHERE 1 = 1 {org_clause} {month_clause}]. *)
Definition joined (db : Database) (filter_org filter_month : option string)
  : list (Employee * Upload) :=
  flat_map
    (fun ed =>
       map (pair ed)
           (filter (fun u => String.eqb (upload_id u) (uploadId ed)
                             && org_clause filter_org u
                             && month_clause filter_month u)
                   (uploads db)))
    (employees db).

Definition has_key (k : string) (p : Employee * Upload) : bool :=
  String.eqb (identity_key (fst p)) k.

(** [ORDER BY u."uploadedAt" DESC, ed.id DESC]. *)
Definition latest_leb (x y : Employee * Upload) : bool :=
  (uploadedAt (snd y) <? uploadedAt (snd x))
  || ((uploadedAt (snd x) =? uploadedAt (snd y)) && (id (fst y) <=? id (fst x))).

(** [ORDER BY ed."DOJ" ASC NULLS LAST, ed.id ASC]. *)
Definition doj_ltb (a b : option date) : bool :=
  match a, b with
  | Some x, Some y => date_ltb x y
  | Some _, None => true
  | None, _ => false
  end.

Definition joined_first_leb (x y : Employee * Upload) : bool :=
  doj_ltb (DOJ (fst x)) (DOJ (fst y))
  || (negb (doj_ltb (DOJ (fst y)) (DOJ (fst x))) && (id (fst x) <=? id (fst y))).

Lemma date_ltb_total (a b : date) :
  date_ltb a b = false -> date_ltb b a = false ->
  year a = year b /\ month a = month b /\ day a = day b.
Proof.
  unfold date_ltb; intros H1 H2.
  destruct (Z.ltb_spec (year a) (year b)), (Z.ltb_spec (year b) (year a)),
    (Z.eqb_spec (year a) (year b)), (Z.eqb_spec (year b) (year a)),
    (Z.ltb_spec (month a) (month b)), (Z.ltb_spec (month b) (month a)),
    (Z.eqb_spec (month a) (month b)), (Z.eqb_spec (month b) (month a)),
    (Z.ltb_spec (day a) (day b)), (Z.ltb_spec (day b) (day a));
    simpl in *; try discriminate; lia.
Qed.

Lemma latest_leb_total (x y : Employee * Upload) :
  latest_leb x y = true \/ latest_leb y x = true.
Proof.
  unfold latest_leb.
  destruct (Z.ltb_spec (uploadedAt (snd y)) (uploadedAt (snd x))),
    (Z.ltb_spec (uploadedAt (snd x)) (uploadedAt (snd y))),
    (Z.eqb_spec (uploadedAt (snd x)) (uploadedAt (snd y))),
    (Z.eqb_spec (uploadedAt (snd y)) (uploadedAt (snd x))),
    (Z.leb_spec (id (fst y)) (id (fst x))),
    (Z.leb_spec (id (fst x)) (id (fst y))); simpl; auto; lia.
Qed.

Lemma joined_first_leb_total (x y : Employee * Upload) :
  joined_first_leb x y = true \/ joined_first_leb y x = true.
Proof.
  unfold joined_first_leb.
  destruct (doj_ltb (DOJ (fst x)) (DOJ (fst y))); [now left|].
  destruct (doj_ltb (DOJ (fst y)) (DOJ (fst x))); [now right|].
  simpl.
  destruct (Z.leb_spec (id (fst x)) (id (fst y))),
    (Z.leb_spec (id (fst y)) (id (fst x))); auto; lia.
Qed.

Module LatestOrder <: TotalLeBool.
Definition t : Type := (Employee * Upload)%type.
Definition leb : t -> t -> bool := latest_leb.
Definition leb_total : forall x y, leb x y = true \/ leb y x = true :=
    latest_leb_total.
End LatestOrder.

Module JoinedFirstOrder <: TotalLeBool.
Definition t : Type := (Employee * Upload)%type.
Definition leb : t -> t -> bool := joined_first_leb.
Definition leb_total : forall x y, leb x y = true \/ leb y x = true :=
    joined_first_leb_total.
End JoinedFirstOrder.

Module LatestSort := Sort LatestOrder.
Module JoinedFirstSort := Sort JoinedFirstOrder.

(** [ROW_NUMBER()] within one sorted partition: 1, 2, 3, ... *)
Definition number_rows {A} (l : list A) : list (A * Z) :=
  combine l (map Z.of_nat (seq 1 (List.length l))).

(** The partitions of [PARTITION BY COALESCE(...)]. *)
Definition partition_keys (rows : list (Employee * Upload)) : list string :=
  nodup string_dec (map (fun p => identity_key (fst p)) rows).

(** A window [ROW_NUMBER() OVER (PARTITION BY key ORDER BY ...)]: every
    partition is sorted and its rows are numbered from 1. *)
Definition row_number_over (sort : list (Employee * Upload) -> list (Employee * Upload))
    (rows : list (Employee * Upload)) : list ((Employee * Upload) * Z) :=
  flat_map (fun k => number_rows (sort (filter (has_key k) rows)))
           (partition_keys rows).

(** CTE [ranked]. *)
Definition ranked (db : Database) (filter_org filter_month : option string)
  : list ((Employee * Upload) * Z) :=
  row_number_over LatestSort.sort (joined db filter_org filter_month).

Definition doj_not_null (ed : Employee) : bool :=
  match DOJ ed with Some _ => true | None => false end.

(** CTE [joined_first], before its column list is projected. *)
Definition joined_first (db : Database) (filter_org filter_month : option string)
  : list ((Employee * Upload) * Z) :=
  row_number_over JoinedFirstSort.sort
    (filter (fun p => doj_not_null (fst p)) (joined db filter_org filter_month)).

(** CTE [latest]: [SELECT * FROM ranked WHERE rn = 1]. *)
Definition latest_rows (db : Database) (filter_org filter_month : option string)
  : list (Employee * Upload) :=
  map fst (filter (fun r => snd r =? 1) (ranked db filter_org filter_month)).

Definition latest (db : Database) (filter_org filter_month : option string)
  : list Employee :=
  map fst (latest_rows db filter_org filter_month).

(** The columns [joined_first] selects. *)
Record JoinedFirstRow : Type := mkJoinedFirstRow {
  jf_new_emp_id : option string;
  jf_emp_id : option string;
  jf_employee_name : option string;
  jf_DOJ : option date;
  jf_entity : option string
}.

Definition project (ed : Employee) : JoinedFirstRow :=
  mkJoinedFirstRow (new_emp_id ed) (emp_id ed) (employee_name ed) (DOJ ed)
                   (entity ed).

(** CTE [earliest_join]: [WHERE rn = 1 AND "DOJ" IS NOT NULL]; the records
    behind its rows, and the rows. *)
Definition earliest_join_records (db : Database)
    (filter_org filter_month : option string) : list Employee :=
  map (fun r => fst (fst r))
      (filter (fun r => (snd r =? 1) && doj_not_null (fst (fst r)))
              (joined_first db filter_org filter_month)).

Definition earliest_join (db : Database) (filter_org filter_month : option string)
  : list JoinedFirstRow :=
  map project (earliest_join_records db filter_org filter_month).

End Snapshot.
Import Snapshot.

(** ** Headcount reconstructor: [_build_manpower_sql] *)

Module Manpower.

(** [grain] and [step] of the query builders. *)
Definition grain_of (g : granularity) : grain :=
  match g with monthly => GMonth | quarterly => GQuarter | yearly => GYear end.

(** The step interval in months: '1 month', '3 months', '1 year'. *)
Definition step_months (g : granularity) : Z :=
  match g with monthly => 1 | quarterly => 3 | yearly => 12 end.

(** [entity_filter = [entity for entity in (entities or []) if entity]]. *)
Definition entity_filter (entities : list string) : list string :=
  filter (fun e => negb (String.eqb e "")) entities.

(** [entity_clause]: [AND ed."Entity" = ANY(%(entities)s)] when the filter
    is not empty, nothing otherwise. *)
Definition entity_clause (entities : list string) (ed : Employee) : bool :=
  match entity_filter entities with
  | [] => true
  | wanted =>
      match entity ed with
      | Some e => existsb (String.eqb e) wanted
      | None => false
      end
  end.

Definition month_index (d : date) : Z := year d * 12 + (month d - 1).

(** [generate_series(start, stop, step)] over timestamps: the current value
    is emitted while it does not exceed [stop], and the step is added to
    it.  A step of at least one month passes [stop] within
    [month_index stop - month_index start + 1] additions. *)
Fixpoint generate_series_from (fuel : nat) (cur stop : date) (step : Z)
  : list date :=
  match fuel with
  | O => []
  | S fuel' =>
      if date_leb cur stop
      then cur :: generate_series_from fuel' (pg_add_months cur step) stop step
      else []
  end.

Definition generate_series (start stop : date) (step : Z) : list date :=
  generate_series_from (Z.to_nat (month_index stop - month_index start + 1))
                       start stop step.

(** The [WHERE] of [actuals]: joined on or before the bucket start and not
    left before the next bucket starts. *)
Definition manpower_active (entities : list string) (period_start : date)
    (step : Z) (ed : Employee) : bool :=
  match DOJ ed with
  | Some doj => date_leb doj period_start
  | None => false
  end
  && match final_lwd ed with
     | None => true
     | Some lwd => date_leb (pg_add_months period_start step) lwd
     end
  && entity_clause entities ed.

(** The scalar subquery [SELECT COUNT( * ) FROM latest ed WHERE ...]. *)
Definition headcount_at (latest : list Employee) (entities : list string)
    (step : Z) (period_start : date) : Z :=
  Z.of_nat (List.length (filter (manpower_active entities period_start step) latest)).

(** [LAG(headcount) OVER (ORDER BY period_start)]; the series is generated
    in ascending order, so the previous row of the list is the previous
    bucket. *)
Fixpoint lag (prev : option Z) (rows : list (date * Z))
  : list (date * Z * option Z) :=
  match rows with
  | [] => []
  | (p, h) :: rest => (p, h, prev) :: lag (Some h) rest
  end.

Record ManpowerRow : Type := mkManpowerRow {
  period_start : date;
  headcount : Z;
  opening_headcount : Z;
  ramp_change : Z;
  ramp_pct : option Q
}.

(** [NULLIF(a, b)]. *)
Definition nullif (a b : Z) : option Z := if a =? b then None else Some a.

(** The final [SELECT] for one row of [enriched]; arithmetic on NULL is
    NULL. *)
Definition output_row (e : date * Z * option Z) : ManpowerRow :=
  let '(p, h, opening) := e in
  let o := or_else opening 0 in
  mkManpowerRow p h o (h - o)
    (if o =? 0 then Some 0%Q
     else match opening with
          | Some ov =>
              match nullif ov 0 with
              | Some d => Some (inject_Z (h - ov) / inject_Z d)%Q
              | None => None
              end
          | None => None
          end).

(** The whole query on the [latest] view. *)
Definition manpower_sql (g : granularity) (latest : list Employee)
    (entities : list string) (start end_ : date) : list ManpowerRow :=
  let step := step_months g in
  let start_period := date_trunc (grain_of g) start in
  let end_period := date_trunc (grain_of g) end_ in
  let series := generate_series (pg_add_months start_period (- step)) end_period step in
  let actuals := map (fun s => (s, headcount_at latest entities step s)) series in
  let enriched := lag None actuals in
  map output_row
      (filter (fun e => date_leb start_period (fst (fst e))) enriched).

(** The endpoint [manpower_rampup]: its points are the rows as returned. *)
Definition manpower_rampup (db : Database) (today : date) (g : granularity)
    (start end_ : option date) (entities : list string)
    (organization_id month_key : option string) : result (list ManpowerRow) :=
  ps <- _resolve_analytics_scope db today g start end_ organization_id month_key ;;
  let '(p, sc) := ps in
  Ok (manpower_sql g (latest db (org_id sc) (dashboard_month_id sc))
                   entities (p_start p) (p_end p)).

End Manpower.
Import Manpower.

(** ** Aggregator: [_build_demographics_sql] and [demographics_overview] *)

Module Demographics.

(** [range_clause] after [ed."DOJ" IS NOT NULL]: the range rule when a
    bound was requested, the cutoff rule otherwise. *)
Definition range_clause (apply_range : bool) (start end_ cutoff : date)
    (ed : Employee) : bool :=
  if apply_range
  then match DOJ ed with
       | Some doj => date_leb (date_trunc_day doj) end_
       | None => false
       end
       && match final_lwd ed with
          | None => true
          | Some lwd => date_leb start (date_trunc_day lwd)
          end
  else match DOJ ed with
       | Some doj => date_leb (date_trunc_day doj) cutoff
       | None => false
       end
       && match final_lwd ed with
          | None => true
          | Some lwd => date_ltb cutoff (date_trunc_day lwd)
          end.

(** The [WHERE] of CTE [active]. *)
Definition demographics_active (apply_range : bool) (start end_ cutoff : date)
    (entities : list string) (ed : Employee) : bool :=
  doj_not_null ed
  && range_clause apply_range start end_ cutoff ed
  && entity_clause entities ed.

(** [gender ILIKE 'F%'] and [gender ILIKE 'M%']: a case-insensitive test
    of the first character; NULL matches nothing. *)
Definition ilike_prefix (upper lower : ascii) (g : option string) : bool :=
  match g with
  | Some (String c _) => Ascii.eqb c upper || Ascii.eqb c lower
  | _ => false
  end.

Definition is_female : option string -> bool := ilike_prefix "F"%char "f"%char.
Definition is_male : option string -> bool := ilike_prefix "M"%char "m"%char.

Definition non_null {A} (l : list (option A)) : list A :=
  flat_map (fun x => match x with Some a => [a] | None => [] end) l.

Definition Qsum (l : list Q) : Q := fold_right Qplus 0%Q l.

(** [SUM(x)]: NULL when no value is non-null. *)
Definition sql_sum (l : list (option Q)) : option Q :=
  match non_null l with [] => None | vs => Some (Qsum vs) end.

(** [AVG(x)]. *)
Definition sql_avg (l : list (option Q)) : option Q :=
  match non_null l with
  | [] => None
  | vs => Some (Qsum vs / inject_Z (Z.of_nat (List.length vs)))%Q
  end.

(** [SUM(CASE WHEN c THEN 1 ELSE 0 END)::int]: NULL over no rows. *)
Definition sql_sum_case {A} (c : A -> bool) (l : list A) : option Z :=
  match l with
  | [] => None
  | _ => Some (Z.of_nat (List.length (filter c l)))
  end.

Record DemoRow : Type := mkDemoRow {
  d_worklevel : option string;
  d_headcount : Z;
  avg_ctc : option Q;
  avg_age : option Q;
  avg_tenure : option Q;
  total_ctc : option Q;
  female_count : option Z;
  male_count : option Z
}.

(** The select list over one group of [active]. *)
Definition aggregate (label : option string) (grp : list Employee) : DemoRow :=
  mkDemoRow label
    (Z.of_nat (List.length grp))
    (sql_avg (map ctc grp))
    (sql_avg (map age grp))
    (sql_avg (map tenure grp))
    (sql_sum (map ctc grp))
    (sql_sum_case (fun ed => is_female (gender ed)) grp)
    (sql_sum_case (fun ed => is_male (gender ed)) grp).

Definition opt_string_eqb (a b : option string) : bool :=
  match a, b with
  | Some x, Some y => String.eqb x y
  | None, None => true
  | _, _ => false
  end.

Definition opt_string_dec (a b : option string) : {a = b} + {a <> b}.
Proof. decide equality; apply string_dec. Defined.

(** [GROUP BY ROLLUP(worklevel)]: one row per work level (NULL is a level of
    its own) and the grand total, whose work level reads NULL.  The
    [ORDER BY] leaves the order of the NULL rows open; the rows are listed
    here groups first. *)
Definition demographics_sql (latest : list Employee) (apply_range : bool)
    (start end_ cutoff : date) (entities : list string) : list DemoRow :=
  let active :=
    filter (demographics_active apply_range start end_ cutoff entities) latest in
  map (fun w => aggregate w (filter (fun ed => opt_string_eqb (worklevel ed) w) active))
      (nodup opt_string_dec (map worklevel active))
  ++ [aggregate None active].

Record GenderRatio : Type := mkGenderRatio { male : Q; female : Q; other : Q }.

(** The fallback [totals] of [demographics_overview]. *)
Definition default_totals : DemoRow :=
  mkDemoRow None 0 None None None (Some 0%Q) (Some 0) (Some 0).

(** [next((row for row in rows if row["worklevel"] is None), None) or {...}]. *)
Definition totals_of (rows : list DemoRow) : DemoRow :=
  or_else
    (find (fun row => match d_worklevel row with None => true | Some _ => false end)
          rows)
    default_totals.

(** [_pct]: [float(value) / denom if denom else 0.0]. *)
Definition _pct (value denom : Z) : Q :=
  if denom =? 0 then 0%Q else (inject_Z value / inject_Z denom)%Q.

Definition total_headcount (totals : DemoRow) : Z := d_headcount totals.
Definition female_count_of (totals : DemoRow) : Z := or_else (female_count totals) 0.
Definition male_count_of (totals : DemoRow) : Z := or_else (male_count totals) 0.

Definition other_count (totals : DemoRow) : Z :=
  Z.max (total_headcount totals - female_count_of totals - male_count_of totals) 0.

(** The ["genderRatio"] of [demographics_overview]. *)
Definition gender_ratio (rows : list DemoRow) : GenderRatio :=
  match rows with
  | [] => mkGenderRatio 0%Q 0%Q 0%Q
  | _ =>
      let totals := totals_of rows in
      mkGenderRatio
        (_pct (male_count_of totals) (total_headcount totals))
        (_pct (female_count_of totals) (total_headcount totals))
        (_pct (other_count totals) (total_headcount totals))
  end.

(** The endpoint [demographics_overview], as far as its gender ratio: the
    range rule applies when the request names a start or an end, and the
    cutoff is the end of the resolved period. *)
Definition demographics_overview (db : Database) (today : date)
    (g : granularity) (start end_ : option date) (entities : list string)
    (organization_id month_key : option string) : result GenderRatio :=
  ps <- _resolve_analytics_scope db today g start end_ organization_id month_key ;;
  let '(p, sc) := ps in
  let apply_range :=
    match start, end_ with
    | None, None => false
    | _, _ => true
    end in
  Ok (gender_ratio
        (demographics_sql (latest db (org_id sc) (dashboard_month_id sc))
                          apply_range (p_start p) (p_end p) (p_end p) entities)).

End Demographics.
Import Demographics.

(** ** Attrition calculator: fiscal windows, [_build_attrition_sql] and the
    post-processing of [attrition_overview] *)

Module Attrition.

(** [make_date(year, month, day)] for the first of April: there is no
    year 0. *)
Definition make_date (y m d : Z) : result date :=
  if y =? 0 then Raise DatabaseError else Ok (mkDate y m d).

(** CTE [params]: the April 1 on or before the cutoff. *)
Definition current_fy_start (cutoff : date) : result date :=
  if 4 <=? month cutoff
  then make_date (year cutoff) 4 1
  else make_date (year cutoff - 1) 4 1.

Record YearBound : Type := mkYearBound {
  year_start : date;
  year_end : date;
  fy_year_end : date;
  months_covered : Z
}.

(** [LEAST(a, b)] on dates. *)
Definition least (a b : date) : date := if date_ltb b a then b else a.

(** [generate_series(lo, hi)] on integers. *)
Definition int_series (lo hi : Z) : list Z :=
  map (fun i => lo + Z.of_nat i) (seq 0 (Z.to_nat (hi - lo + 1))).

(** The months of [age(year_end, year_start)], a started month counting
    whole. *)
Definition months_spanned (ye ys : date) : Z :=
  let a := pg_age ye ys in
  iv_years a * 12 + iv_months a + (if 0 <? iv_days a then 1 else 0).

(** One row of the subquery [bounds] with its [months_covered]. *)
Definition bounds_row (fy cutoff : date) (offset : Z) : YearBound :=
  let ys := pg_add_years fy offset in
  let ye := least (pg_add_years fy (offset + 1)) (pg_next_day cutoff) in
  let fye := pg_add_years fy (offset + 1) in
  mkYearBound ys ye fye (Z.max 1 (Z.min 12 (months_spanned ye ys))).

(** CTE [year_bounds]. *)
Definition year_bounds (cutoff : date) : result (list YearBound) :=
  fy <- current_fy_start cutoff ;;
  Ok (map (bounds_row fy cutoff) (int_series (-3) 0)).

(** The [label] column. *)
Definition label (y : YearBound) : string :=
  if date_ltb (year_end y) (fy_year_end y)
  then ("YTD FY" ++ to_char_YY (fy_year_end y))%string
  else ("FY" ++ to_char_YY (fy_year_end y))%string.

(** [start_condition], [end_condition] and [exit_condition]. *)
Definition start_condition (y : YearBound) (ed : Employee) : bool :=
  match DOJ ed with
  | Some doj => date_ltb doj (year_start y)
  | None => false
  end
  && match final_lwd ed with
     | None => true
     | Some lwd => date_leb (year_start y) lwd
     end.

Definition end_condition (y : YearBound) (ed : Employee) : bool :=
  match DOJ ed with
  | Some doj => date_ltb doj (year_end y)
  | None => false
  end
  && match final_lwd ed with
     | None => true
     | Some lwd => date_leb (year_end y) lwd
     end.

Definition exit_condition (y : YearBound) (ed : Employee) : bool :=
  match final_lwd ed with
  | Some lwd => date_leb (year_start y) lwd && date_ltb lwd (year_end y)
  | None => false
  end.

(** The join condition of [monthly_counts]: active through the whole
    month. *)
Definition month_condition (month_start : date) (ed : Employee) : bool :=
  match DOJ ed with
  | Some doj => date_leb doj month_start
  | None => false
  end
  && match final_lwd ed with
     | None => true
     | Some lwd => date_leb (pg_add_months month_start 1) lwd
     end.

Definition count {A} (c : A -> bool) (l : list A) : Z :=
  Z.of_nat (List.length (filter c l)).

Definition Zsum (l : list Z) : Z := fold_right Z.add 0 l.

(** CTE [month_series]: the month starts of a window. *)
Definition month_series (y : YearBound) : list date :=
  map (pg_add_months (year_start y))
      (int_series 0 (Z.max (months_covered y) 0 - 1)).

(** CTE [monthly_counts] for one window and one group: a month without an
    active record joins nothing and has no row. *)
Definition monthly_counts (y : YearBound) (grp : list Employee) : list (date * Z) :=
  filter (fun r => 0 <? snd r)
         (map (fun ms => (ms, count (month_condition ms) grp)) (month_series y)).

(** CTE [monthly_summary]: absent when the window has no monthly row. *)
Definition monthly_summary (y : YearBound) (grp : list Employee) : option Q :=
  match monthly_counts y grp with
  | [] => None
  | rows => Some (inject_Z (Zsum (map snd rows)))
  end.

(** [COALESCE(ed."Entity", 'Unspecified')]. *)
Definition entity_expr (ed : Employee) : string := or_else (entity ed) "Unspecified".

(** The groups of one window: one per entity when [by_entity], else the
    whole population; an empty population has no group. *)
Definition groups (by_entity : bool) (l : list Employee)
  : list (option string * list Employee) :=
  if by_entity
  then map (fun e => (Some e, filter (fun ed => String.eqb (entity_expr ed) e) l))
           (nodup string_dec (map entity_expr l))
  else match l with
       | [] => []
       | _ => [(None, l)]
       end.

Record AttritionRow : Type := mkAttritionRow {
  r_label : string;
  r_entity : option string;
  r_headcount_start : Z;
  r_headcount_end : Z;
  r_exits : Z;
  r_months_covered : Z;
  r_monthly_headcount_sum : Q
}.

Definition attrition_row (y : YearBound) (g : option string * list Employee)
  : AttritionRow :=
  mkAttritionRow (label y) (fst g)
    (count (start_condition y) (snd g))
    (count (end_condition y) (snd g))
    (count (exit_condition y) (snd g))
    (months_covered y)
    (or_else (monthly_summary y (snd g)) 0%Q).

(** The whole query on the [latest] view, windows in ascending order. *)
Definition attrition_sql (by_entity : bool) (latest : list Employee)
    (entities : list string) (cutoff : date) : result (list AttritionRow) :=
  ybs <- year_bounds cutoff ;;
  let population := filter (entity_clause entities) latest in
  Ok (flat_map (fun y => map (attrition_row y) (groups by_entity population)) ybs).

(** The row as the database driver hands it to Python. *)
Definition to_row (a : AttritionRow) : row :=
  [ ("label", PyStr (r_label a));
    ("entity", match r_entity a with Some e => PyStr e | None => PyNone end);
    ("headcount_start", PyInt (r_headcount_start a));
    ("headcount_end", PyInt (r_headcount_end a));
    ("exits", PyInt (r_exits a));
    ("months_covered", PyInt (r_months_covered a));
    ("monthly_headcount_sum", PyFloat (r_monthly_headcount_sum a)) ].

(** *** Post-processing in [attrition_overview] *)

Section PostProcessing.

(** Python's [float] on text: the number read, or [None] for [ValueError]. *)
Variable float_of_str : string -> option Q.

(** [float(v)]. *)
Definition py_float (v : pyval) : result Q :=
  match v with
  | PyNone => Raise TypeError
  | PyInt z => Ok (inject_Z z)
  | PyFloat q => Ok q
  | PyStr s =>
      match float_of_str s with
      | Some q => Ok q
      | None => Raise ValueError
      end
  end.

(** A value as an operand of [+] and [/] with numbers. *)
Definition py_num (v : pyval) : result Q :=
  match v with
  | PyInt z => Ok (inject_Z z)
  | PyFloat q => Ok q
  | PyNone | PyStr _ => Raise TypeError
  end.

(** [a / b] on floats: division by zero raises. *)
Definition py_div (a b : Q) : result Q :=
  if Qeq_bool b 0%Q then Raise ZeroDivisionError else Ok (a / b)%Q.

(** [min(a, b)]: the first argument unless the second is smaller. *)
Definition py_min (a b : Q) : Q := if Qle_bool a b then a else b.

Definition Qlt_bool (a b : Q) : bool := negb (Qle_bool b a).

(** [_months_covered]: [except (TypeError, ValueError)] catches whatever
    [float] raises. *)
Definition _months_covered (r : row) : Q :=
  let raw_months := get r "months_covered" in
  match py_float raw_months with
  | Raise _ => 12%Q
  | Ok months_value =>
      if Qle_bool months_value 0%Q then 12%Q else py_min months_value 12%Q
  end.

(** [if monthly_sum_key:] on an optional key. *)
Definition key_given (k : option string) : option string :=
  match k with
  | Some EmptyString => None
  | other => other
  end.

(** [_average_headcount]: the plain average is computed first, the
    monthly average replaces it when the monthly sum is positive. *)
Definition _average_headcount (r : row) (start_key end_key : string)
    (monthly_sum_key : option string) : result Q :=
  start <- py_num (or_zero (get r start_key)) ;;
  end_ <- py_num (or_zero (get r end_key)) ;;
  base_avg <- py_div (start + end_)%Q 2%Q ;;
  match key_given monthly_sum_key with
  | Some k =>
      let months := _months_covered r in
      let monthly_sum := get r k in
      let monthly_value :=
        match py_float monthly_sum with Ok v => v | Raise _ => 0%Q end in
      if Qlt_bool 0%Q monthly_value && Qlt_bool 0%Q months
      then py_div monthly_value months
      else Ok base_avg
  | None => Ok base_avg
  end.

(** [_attrition]: [float(exits) / denom if denom else 0.0]. *)
Definition _attrition (r : row) (start_key end_key exit_key : string)
    (monthly_sum_key : option string) : result Q :=
  let exits := or_zero (get r exit_key) in
  denom <- _average_headcount r start_key end_key monthly_sum_key ;;
  if Qeq_bool denom 0%Q then Ok 0%Q
  else e <- py_float exits ;; py_div e denom.

(** [_annualized_attrition]. *)
Definition _annualized_attrition (r : row) (start_key end_key exit_key : string)
    (monthly_sum_key : option string) : result Q :=
  rate <- _attrition r start_key end_key exit_key monthly_sum_key ;;
  let months := _months_covered r in
  if Qle_bool 12%Q months then Ok rate
  else factor <- py_div 12%Q months ;; Ok (rate * factor)%Q.

(** ["attritionPct"] of one row of the overall and per-entity lists. *)
Definition attritionPct (r : row) : result Q :=
  _annualized_attrition r "headcount_start" "headcount_end" "exits"
                        (Some "monthly_headcount_sum").

(** A list comprehension whose element expression can raise. *)
Fixpoint for_each {A B} (f : A -> result B) (l : list A) : result (list B) :=
  match l with
  | [] => Ok []
  | x :: rest =>
      y <- f x ;;
      ys <- for_each f rest ;;
      Ok (y :: ys)
  end.

(** The endpoint [attrition_overview], as far as its ["overall"] list: the
    cutoff is the end of the resolved period. *)
Definition attrition_overview (db : Database) (today : date)
    (entities : list string) (organization_id month_key : option string)
    (g : granularity) (start end_ : option date)
  : result (list (string * Q)) :=
  ps <- _resolve_analytics_scope db today g start end_ organization_id month_key ;;
  let '(p, sc) := ps in
  let cutoff := p_end p in
  overall_rows <-
    attrition_sql false (latest db (org_id sc) (dashboard_month_id sc))
                  entities cutoff ;;
  for_each (fun a => pct <- attritionPct (to_row a) ;; Ok (r_label a, pct))
           overall_rows.

End PostProcessing.

End Attrition.
Import Attrition.

(** ** Tenure-bucket attrition: [_build_tenure_sql] *)

Module Tenure.

(** [monthly_condition]: active at the end of the month. *)
Definition monthly_condition (month_end : date) (ed : Employee) : bool :=
  match DOJ ed with
  | Some doj => date_leb doj month_end
  | None => false
  end
  && match final_lwd ed with
     | None => true
     | Some lwd => date_ltb month_end lwd
     end.

(** [tenure_months_expr(ref)]: whole months from "DOJ" to the reference
    date.  [EXTRACT] of NULL is NULL, and [GREATEST] skips a NULL
    argument. *)
Definition tenure_months_expr (ref : option date) (doj : option date) : Z :=
  let months :=
    match ref, doj with
    | Some r, Some d =>
        Some ((year r - year d) * 12
              + (month r - month d)
              + (if day d <=? day r then 0 else -1))
    | _, _ => None
    end in
  match months with
  | Some m => Z.max m 0
  | None => 0
  end.

(** [buckets]: key, lower bound, upper bound ([None] is open). *)
Definition buckets : list (string * Z * option Z) :=
  [ ("zero_six", 0, Some 6);
    ("six_twelve", 6, Some 12);
    ("one_two", 12, Some 24);
    ("two_four", 24, Some 48);
    ("four_ten", 48, Some 120);
    ("ten_plus", 120, None) ].

(** [bucket_clause(base_condition, ref, lower, upper)]. *)
Definition bucket_clause (base_condition : Employee -> bool)
    (ref : Employee -> option date) (lower : Z) (upper : option Z)
    (ed : Employee) : bool :=
  let expr := tenure_months_expr (ref ed) (DOJ ed) in
  base_condition ed
  && (lower <=? expr)
  && match upper with
     | Some u => expr <? u
     | None => true
     end.

(** The four filters of one bucket: at the window start, at the window end,
    at the exit, and at a month end. *)
Definition start_clause (y : YearBound) (lower : Z) (upper : option Z)
  : Employee -> bool :=
  bucket_clause (start_condition y) (fun _ => Some (year_start y)) lower upper.

Definition end_clause (y : YearBound) (lower : Z) (upper : option Z)
  : Employee -> bool :=
  bucket_clause (end_condition y) (fun _ => Some (year_end y)) lower upper.

Definition exit_clause (y : YearBound) (lower : Z) (upper : option Z)
  : Employee -> bool :=
  bucket_clause (exit_condition y) final_lwd lower upper.

Definition monthly_clause (month_end : date) (lower : Z) (upper : option Z)
  : Employee -> bool :=
  bucket_clause (monthly_condition month_end) (fun _ => Some month_end) lower upper.

(** CTE [month_series] of the tenure query: the month ends of a window. *)
Definition month_ends (y : YearBound) : list date :=
  map (fun offset => pg_prev_day (pg_add_months (year_start y) (offset + 1)))
      (int_series 0 (Z.max (months_covered y) 0 - 1)).

(** The columns of one bucket in the row of window [y]. *)
Definition bucket_columns (y : YearBound) (population : list Employee)
    (b : string * Z * option Z) : row :=
  let '(key, lower, upper) := b in
  [ (("start_" ++ key)%string, PyInt (count (start_clause y lower upper) population));
    (("end_" ++ key)%string, PyInt (count (end_clause y lower upper) population));
    (("exits_" ++ key)%string, PyInt (count (exit_clause y lower upper) population));
    (("monthly_" ++ key ++ "_sum")%string,
     PyFloat (inject_Z (Zsum (map (fun me => count (monthly_clause me lower upper) population)
                                  (month_ends y))))) ].

(** The whole query on the [latest] view: one row per window when the
    population is not empty. *)
Definition tenure_sql (latest : list Employee) (entities : list string)
    (cutoff : date) : result (list row) :=
  ybs <- year_bounds cutoff ;;
  let population := filter (entity_clause entities) latest in
  Ok (match population with
      | [] => []
      | _ =>
          map (fun y =>
                 ("label", PyStr (label y))
                 :: ("months_covered", PyInt (months_covered y))
                 :: flat_map (bucket_columns y population) buckets)
              ybs
      end).

End Tenure.
Import Tenure.

(** ** Month labels and temporary passwords *)

Module Labels.

(** [str(n)] of an integer, as an f-string prints it. *)
Definition py_str_int (n : Z) : string := NilZero.string_of_int (Z.to_int n).

Definition month_names : list string :=
  [ "January"; "February"; "March"; "April"; "May"; "June"; "July";
    "August"; "September"; "October"; "November"; "December" ].

(** [_format_month_label]: the key itself when it does not parse. *)
Definition _format_month_label (month_key : string) : string :=
  match
    match split_once "-"%char month_key with
    | Some (year_str, month_str) =>
        match py_int year_str, py_int month_str with
        | Some year, Some month => Some (year, month)
        | _, _ => None
        end
    | None => None
    end
  with
  | None => month_key
  | Some (year, month) =>
      if (month <? 1) || (12 <? month) then month_key
      else (nth (Z.to_nat (month - 1)) month_names "" ++ " " ++ py_str_int year)%string
  end.

(** [string.ascii_letters + string.digits]. *)
Definition alphabet : list ascii :=
  list_ascii_of_string
    "abcdefghijklmnopqrstuvwxyzABCDEFGHIJKLMNOPQRSTUVWXYZ0123456789".

(** [secrets.choice(seq)]: the element at an index below [len(seq)] drawn
    from the system's random source; [draw] is the number drawn, reduced to
    the range. *)
Definition choice (seq : list ascii) (draw : nat) : ascii :=
  nth (draw mod List.length seq) seq "000"%char.

(** [_generate_temp_password]: [length] draws, none for a length that is
    not positive; [draws] is the sequence of numbers the random source
    yields. *)
Definition _generate_temp_password (draws : nat -> nat) (length : Z) : string :=
  string_of_list_ascii
    (map (fun i => choice alphabet (draws i)) (seq 0 (Z.to_nat length))).

End Labels.
Import Labels.

(** ** Hires and exits per bucket: [_build_hires_sql] *)

Module Hires.

Definition date_eqb (a b : date) : bool :=
  (year a =? year b) && (month a =? month b) && (day a =? day b).

(** [date_trunc(grain, x) = period_start] on a nullable date. *)
Definition falls_in (g : granularity) (period_start : date) (x : option date)
  : bool :=
  match x with
  | Some d => date_eqb (date_trunc (grain_of g) d) period_start
  | None => false
  end.

(** [entity_clause_join]: the entity filter on a row of [earliest_join]. *)
Definition entity_clause_join (entities : list string) (ej : JoinedFirstRow)
  : bool :=
  match entity_filter entities with
  | [] => true
  | wanted =>
      match jf_entity ej with
      | Some e => existsb (String.eqb e) wanted
      | None => false
      end
  end.

Definition is_hire (g : granularity) (entities : list string)
    (period_start : date) (ej : JoinedFirstRow) : bool :=
  falls_in g period_start (jf_DOJ ej) && entity_clause_join entities ej.

Definition is_exit (g : granularity) (entities : list string)
    (period_start : date) (ed : Employee) : bool :=
  match final_lwd ed with Some _ => true | None => false end
  && falls_in g period_start (final_lwd ed)
  && entity_clause entities ed.

Record HiresRow : Type := mkHiresRow {
  h_period_start : date;
  hires : Z;
  exits : Z
}.

(** The whole query on the two views. *)
Definition hires_sql (g : granularity) (earliest_join : list JoinedFirstRow)
    (latest : list Employee) (entities : list string) (start end_ : date)
  : list HiresRow :=
  map (fun p =>
         mkHiresRow p
           (count (is_hire g entities p) earliest_join)
           (count (is_exit g entities p) latest))
      (generate_series (date_trunc (grain_of g) start)
                       (date_trunc (grain_of g) end_)
                       (step_months g)).

(** The endpoint [hires_exits]: its points are the rows as returned. *)
Definition hires_exits (db : Database) (today : date) (g : granularity)
    (start end_ : option date) (entities : list string)
    (organization_id month_key : option string) : result (list HiresRow) :=
  ps <- _resolve_analytics_scope db today g start end_ organization_id month_key ;;
  let '(p, sc) := ps in
  Ok (hires_sql g (earliest_join db (org_id sc) (dashboard_month_id sc))
                (latest db (org_id sc) (dashboard_month_id sc))
                entities (p_start p) (p_end p)).

End Hires.
Import Hires.

(** ** Attrition by age band and gender: [_build_age_gender_sql] *)

Module AgeGender.

(** [COALESCE(ed."Age", 0)]. *)
Definition age_or_zero (ed : Employee) : Q := or_else (age ed) 0%Q.

(** The filters of the counted groups, by the key of their columns: the
    four age bands, then the two genders. *)
Definition filters : list (string * (Employee -> bool)) :=
  [ ("twenty", fun ed => Qle_bool 20 (age_or_zero ed) && Qlt_bool (age_or_zero ed) 30);
    ("thirty", fun ed => Qle_bool 30 (age_or_zero ed) && Qlt_bool (age_or_zero ed) 40);
    ("forty", fun ed => Qle_bool 40 (age_or_zero ed) && Qlt_bool (age_or_zero ed) 50);
    ("fifty", fun ed => Qle_bool 50 (age_or_zero ed));
    ("male", fun ed => is_male (gender ed));
    ("female", fun ed => is_female (gender ed)) ].

(** The three counts of one group in the row of window [y]. *)
Definition count_columns (y : YearBound) (population : list Employee)
    (f : string * (Employee -> bool)) : row :=
  let '(key, c) := f in
  [ (("start_" ++ key)%string,
     PyInt (count (fun ed => start_condition y ed && c ed) population));
    (("end_" ++ key)%string,
     PyInt (count (fun ed => end_condition y ed && c ed) population));
    (("exits_" ++ key)%string,
     PyInt (count (fun ed => exit_condition y ed && c ed) population)) ].

(** CTEs [monthly_counts] and [monthly_summary], with the [COALESCE] of the
    select list: the records active through each month of the window,
    counted per group and added up; a month that joins no record adds
    nothing. *)
Definition monthly_column (y : YearBound) (population : list Employee)
    (f : string * (Employee -> bool)) : string * pyval :=
  let '(key, c) := f in
  (("monthly_" ++ key ++ "_sum")%string,
   PyFloat (inject_Z (Zsum (map (fun ms =>
                                   count (fun ed => month_condition ms ed && c ed)
                                         population)
                                (month_series y))))).

(** The whole query on the [latest] view: one row per window when the
    population is not empty. *)
Definition age_gender_sql (latest : list Employee) (entities : list string)
    (cutoff : date) : result (list row) :=
  ybs <- year_bounds cutoff ;;
  let population := filter (entity_clause entities) latest in
  Ok (match population with
      | [] => []
      | _ =>
          map (fun y =>
                 ("label", PyStr (label y))
                 :: ("months_covered", PyInt (months_covered y))
                 :: flat_map (count_columns y population) filters
                 ++ map (monthly_column y population) filters)
              ybs
      end).

End AgeGender.
Import AgeGender.

(** ** The work-level listing of [demographics_overview] *)

Module Worklevels.







End Worklevels.
Import Worklevels.

(** ** Headcount by location: [_build_location_headcount_sql] and
    [location_headcount] *)

Module Location.


Section Columns.

(** "Employee Physical Location" and "Entity Location as per Payroll", the
    two columns of a record that only this endpoint reads. *)
Variable physical_location payroll_location : Employee -> option string.









End Columns.




End Location.
Import Location.

(** ** Password hashes: [hash_password] and [verify_password] *)

Module Auth.

Definition PBKDF2_ITERATIONS : Z := 260000.

(** [s.split(sep, maxsplit)] for a one-character separator. *)
Fixpoint split_max (sep : ascii) (maxsplit : nat) (s : string) : list string :=
  match maxsplit with
  | O => [s]
  | S n =>
      match split_once sep s with
      | Some (a, rest) => a :: split_max sep n rest
      | None => [s]
      end
  end.

Section Library.

(** [hashlib.pbkdf2_hmac("sha256", password, salt, iterations)], which
    raises for an iteration count it refuses, [base64.b64encode] and
    [base64.b64decode], whose errors are [ValueError]s.  A byte string is a
    string, and so is the UTF-8 encoding of a password. *)
Variable pbkdf2_hmac : string -> string -> Z -> result string.
Variable b64encode : string -> string.
Variable b64decode : string -> result string.

(** [hash_password]; [salt] is what [secrets.token_bytes(16)] draws. *)
Definition hash_password (salt : string) (password : string) : result string :=
  if String.eqb password "" then Raise ValueError
  else
    derived <- pbkdf2_hmac password salt PBKDF2_ITERATIONS ;;
    Ok ("pbkdf2_sha256$" ++ py_str_int PBKDF2_ITERATIONS ++ "$"
        ++ b64encode salt ++ "$" ++ b64encode derived)%string.

(** The [try] block of [verify_password]: [Ok None] is its
    [return False]; unpacking anything but four fields is a
    [ValueError]. *)
Definition parse_stored_hash (stored_hash : string)
  : result (option (Z * string * string)) :=
  match split_max "$"%char 3 stored_hash with
  | [scheme; iter_str; salt_b64; hash_b64] =>
      if negb (String.eqb scheme "pbkdf2_sha256") then Ok None
      else
        match py_int iter_str with
        | None => Raise ValueError
        | Some iterations =>
            salt <- b64decode salt_b64 ;;
            expected <- b64decode hash_b64 ;;
            Ok (Some (iterations, salt, expected))
        end
  | _ => Raise ValueError
  end.

(** [verify_password]: [except (ValueError, TypeError)] covers the [try]
    block only; [hmac.compare_digest] is equality. *)
Definition verify_password (password stored_hash : string) : result bool :=
  match parse_stored_hash stored_hash with
  | Raise ValueError => Ok false
  | Raise TypeError => Ok false
  | Raise e => Raise e
  | Ok None => Ok false
  | Ok (Some (iterations, salt, expected)) =>
      derived <- pbkdf2_hmac password salt iterations ;;
      Ok (String.eqb derived expected)
  end.

End Library.

End Auth.
Import Auth.

(** ** Accounts: [login] and [reset_password] *)

Module Accounts.

(** A row of "User" and a row of "PasswordReset"; instants are numbers. *)
Record User : Type := mkUser {
  u_id : string;
  u_name : option string;
  u_email : string;
  passwordHash : string;
  u_role : string;
  u_organizationId : option string;
  passwordChangedAt : option Z
}.

Record PasswordReset : Type := mkPasswordReset {
  pr_id : string;
  pr_token : string;
  userId : string;
  expiresAt : Z;
  usedAt : option Z
}.

Record Tables : Type := mkTables {
  user_table : list User;
  password_reset_table : list PasswordReset
}.

Record LoginResponse : Type := mkLoginResponse {
  lr_id : string;
  lr_name : option string;
  lr_email : string;
  lr_role : string;
  lr_organizationId : option string
}.

Section Endpoints.

Variable pbkdf2_hmac : string -> string -> Z -> result string.
Variable b64encode : string -> string.
Variable b64decode : string -> result string.

(** [LOWER] of the database. *)
Variable lower : string -> string.

(** [str.strip()]. *)
Definition py_strip (s : string) : string :=
  string_of_list_ascii (strip (list_ascii_of_string s)).

(** [login]: the first user whose address matches, whatever the case. *)
Definition login (email password : string) (db : Tables) : result LoginResponse :=
  match find (fun u => String.eqb (lower (u_email u)) (lower (py_strip email)))
             (user_table db) with
  | None => Raise (HTTPException 401 "Invalid credentials.")
  | Some row =>
      verified <- verify_password pbkdf2_hmac b64decode password (passwordHash row) ;;
      if verified
      then Ok (mkLoginResponse (u_id row) (u_name row) (u_email row) (u_role row)
                               (u_organizationId row))
      else Raise (HTTPException 401 "Invalid credentials.")
  end.

(** The [WHERE] of the first [UPDATE] of [reset_password]. *)
Definition redeemable (now : Z) (token : string) (r : PasswordReset) : bool :=
  String.eqb (pr_token r) token
  && match usedAt r with None => true | Some _ => false end
  && (now <=? expiresAt r).

Definition mark_used (now : Z) (r : PasswordReset) : PasswordReset :=
  mkPasswordReset (pr_id r) (pr_token r) (userId r) (expiresAt r) (Some now).

Definition set_password (changed : Z) (password_hash : string) (u : User) : User :=
  mkUser (u_id u) (u_name u) (u_email u) password_hash (u_role u)
         (u_organizationId u) (Some changed).

(** [reset_password]: the result and the tables it leaves.  Each statement
    commits on its own, so the reset rows stay marked when
    [hash_password] raises; [salt] is what the hash draws, [now] and
    [changed] are the [NOW()] of the first and of the second [UPDATE]. *)
Definition reset_password (now changed : Z) (salt token password : string)
    (db : Tables) : result string * Tables :=
  match filter (redeemable now token) (password_reset_table db) with
  | [] =>
      (Raise (HTTPException 400 "Reset link is invalid or expired."), db)
  | reset_row :: _ =>
      let marked :=
        map (fun r => if redeemable now token r then mark_used now r else r)
            (password_reset_table db) in
      match hash_password pbkdf2_hmac b64encode salt password with
      | Raise e => (Raise e, mkTables (user_table db) marked)
      | Ok password_hash =>
          (Ok "Password updated.",
           mkTables
             (map (fun u => if String.eqb (u_id u) (userId reset_row)
                            then set_password changed password_hash u else u)
                  (user_table db))
             marked)
      end
  end.

End Endpoints.

End Accounts.
Import Accounts.

(** ** The entity list: [list_entities] *)

Module Entities.

(** [SELECT DISTINCT COALESCE(latest."Entity", '') FROM latest WHERE
    latest."Entity" IS NOT NULL].  The [ORDER BY] sorts the names; they
    are listed here by first appearance. *)
Definition list_entities_sql (latest : list Employee) : list string :=
  nodup string_dec
    (flat_map (fun ed => match entity ed with
                         | Some e => [or_else (Some e) ""]
                         | None => []
                         end)
              latest).

End Entities.
Import Entities.

(** ** Demographics per entity: [_build_entity_demographics_sql] and
    [entity_demographics] *)

Module EntityDemographics.





End EntityDemographics.
Import EntityDemographics.

(** ** Vocabulary of the statements *)

Module Vocabulary.

(** The fiscal year a cutoff falls in starts on the April 1 on or before
    it. *)
Definition fiscal_year_of (cutoff : date) : Z :=
  if 4 <=? month cutoff then year cutoff else year cutoff - 1.


(** Membership of a number of months in the range of a bucket. *)
Definition in_bucket (b : string * Z * option Z) (months : Z) : bool :=
  (snd (fst b) <=? months)
  && match snd b with Some u => months <? u | None => true end.

(** The first day of the month with a given index (12 * year + month - 1). *)
Definition first_of (i : Z) : date := mkDate (i / 12) (i mod 12 + 1) 1.


(** The first row of a sorted partition. *)
Definition first_row {A} (l : list A) : list A :=
  match l with [] => [] | x :: _ => [x] end.

(** The row a window keeps for an identity: the first of its sorted
    partition. *)
Definition winner (sort : list (Employee * Upload) -> list (Employee * Upload))
    (rows : list (Employee * Upload)) (k : string) : list (Employee * Upload) :=
  first_row (sort (filter (has_key k) rows)).

(** *** A small organization

    Two uploads of the same month; the first employee appears in both. *)

Definition sample_record (i : Z) (upload : string) (new_id old_id : option string)
    (doj lwd : option date) (lvl g : option string) : Employee :=
  mkEmployee i upload new_id old_id None doj lwd (Some "Acme India") lvl g
             None None None.

Definition sample_db : Database :=
  mkDatabase
    [ mkUpload "u1" "acme" (Some "m1") 100;
      mkUpload "u2" "acme" (Some "m1") 200 ]
    [ mkDashboardMonth "m1" "2024-02" ]
    [ sample_record 1 "u1" (Some "E1") None (Some (mkDate 2020 1 1)) None
                    (Some "L1") (Some "Female");
      sample_record 2 "u2" (Some "E1") None (Some (mkDate 2020 1 1)) None
                    (Some "L1") (Some "Female");
      sample_record 3 "u2" None (Some "OLD7") (Some (mkDate 2023 6 15))
                    (Some (mkDate 2024 2 10)) (Some "L1") (Some "male");
      sample_record 4 "u2" None None None None (Some "L2") None;
      sample_record 5 "u1" (Some "E5") None (Some (mkDate 2024 1 20)) None
                    (Some "L2") (Some "X") ].

End Vocabulary.
Import Vocabulary.

(** ** Reading the rows of a query *)

Module Reading.

(** The integer a column of a row holds. *)
Definition int_column (r : row) (key : string) : option Z :=
  match get r key with
  | PyInt z => Some z
  | _ => None
  end.

(** The sum of the integer columns named by a prefix and a list of keys;
    [None] when one of them is absent or holds no integer. *)
Fixpoint columns_sum (r : row) (prefix : string) (keys : list string) : option Z :=
  match keys with
  | [] => Some 0
  | k :: rest =>
      match int_column r (prefix ++ k), columns_sum r prefix rest with
      | Some z, Some total => Some (z + total)
      | _, _ => None
      end
  end.

(** The keys of the tenure buckets, of the age bands and of the genders. *)
Definition bucket_keys : list string := map (fun b => fst (fst b)) buckets.
Definition age_keys : list string := ["twenty"; "thirty"; "forty"; "fifty"].
Definition gender_keys : list string := ["male"; "female"].

(** A part of a total: a count between 0 and the total. *)
Definition within (total : Z) (part : option Z) : Prop :=
  match part with
  | Some z => 0 <= z <= total
  | None => False
  end.

(** The records the age bands cover, and those the gender columns cover. *)
Definition of_age (ed : Employee) : bool := Qle_bool 20 (age_or_zero ed).
Definition of_gender (ed : Employee) : bool :=
  is_male (gender ed) || is_female (gender ed).

(** The number of occurrences of a character in a text. *)
Definition occurrences (c : ascii) (s : string) : nat :=
  List.length (filter (Ascii.eqb c) (list_ascii_of_string s)).

(** The months a default window reaches back from its last bucket. *)
Definition default_lookback (g : granularity) : Z :=
  match g with
  | monthly => 11
  | quarterly => 45
  | yearly => 108
  end.

End Reading.
Import Reading.

(** * Properties *)

(** ** Calendar facts *)

Lemma date_ltb_lt (a b : date) : date_ltb a b = true <-> date_lt a b.
Proof.
  unfold date_ltb, date_lt.
  rewrite !orb_true_iff, !andb_true_iff, !orb_true_iff, !andb_true_iff,
    !Z.ltb_lt, !Z.eqb_eq.
  tauto.
Qed.

Lemma date_leb_le (a b : date) : date_leb a b = true <-> date_le a b.
Proof.
  unfold date_leb, date_le.
  rewrite negb_true_iff, <- date_ltb_lt.
  destruct (date_ltb b a); split; intros; try congruence; tauto.
Qed.

Lemma date_ltb_irrefl (a : date) : date_ltb a a = false.
Proof.
  unfold date_ltb. rewrite !Z.ltb_irrefl, !Z.eqb_refl. reflexivity.
Qed.

Lemma date_eq_fields (a b : date) :
  year a = year b -> month a = month b -> day a = day b -> a = b.
Proof. destruct a, b; simpl; congruence. Qed.

Lemma days_in_month_bounds (y m : Z) : 28 <= _days_in_month y m <= 31.
Proof.
  unfold _days_in_month.
  repeat match goal with |- context [if ?c then _ else _] => destruct c end; lia.
Qed.

Lemma valid_date_fields (d : date) :
  valid_date d <->
  1 <= year d <= 9999 /\ 1 <= month d <= 12
  /\ 1 <= day d <= _days_in_month (year d) (month d).
Proof.
  unfold valid_date, valid_dateb, MINYEAR, MAXYEAR.
  rewrite !andb_true_iff, !Z.leb_le. tauto.
Qed.

Lemma py_date_ok (y m d : Z) :
  1 <= y <= 9999 -> 1 <= m <= 12 -> 1 <= d <= _days_in_month y m ->
  py_date y m d = Ok (mkDate y m d).
Proof.
  intros Hy Hm Hd. unfold py_date.
  assert (H : valid_date (mkDate y m d)) by (apply valid_date_fields; simpl; auto).
  unfold valid_date in H. now rewrite H.
Qed.

(** ** Period engine *)

Lemma floor_ok (g : granularity) (today : date) :
  valid_date today ->
  exists f, floor_funcs g today = Ok f
            /\ year f = year today /\ 1 <= month f <= 12 /\ day f = 1.
Proof.
  intros Hv. apply valid_date_fields in Hv. destruct Hv as (Hy & Hm & Hd).
  pose proof (days_in_month_bounds (year today)) as Hb.
  destruct g; simpl;
    unfold _month_floor, _quarter_floor, _year_floor, replace; simpl.
  - rewrite py_date_ok by (auto; specialize (Hb (month today)); lia).
    eexists; split; [reflexivity|simpl; lia].
  - assert (1 <= (month today - 1) / 3 * 3 + 1 <= 12).
    { pose proof (Z.div_lt_upper_bound (month today - 1) 3 4).
      pose proof (Z.div_pos (month today - 1) 3). lia. }
    rewrite py_date_ok by (auto; specialize (Hb ((month today - 1) / 3 * 3 + 1)); lia).
    eexists; split; [reflexivity|simpl; lia].
  - rewrite py_date_ok by (auto; try specialize (Hb 1); lia).
    eexists; split; [reflexivity|simpl; lia].
Qed.

Lemma shift_months_ok (f : date) (n : Z) :
  1 <= month f <= 12 -> day f = 1 -> -48 <= n <= 0 -> 5 <= year f <= 9999 ->
  exists s, _shift_months f n = Ok s.
Proof.
  intros Hm Hd Hn Hy. unfold _shift_months, replace. simpl.
  set (t := month f - 1 + n).
  assert (Hq : -4 <= t / 12 <= 0).
  { split.
    - apply Z.div_le_lower_bound; lia.
    - assert (t / 12 < 1) by (apply Z.div_lt_upper_bound; lia). lia. }
  pose proof (Z.mod_pos_bound t 12 ltac:(lia)) as Hr.
  pose proof (days_in_month_bounds (year f + t / 12) (t mod 12 + 1)) as Hb.
  rewrite py_date_ok by lia.
  eexists; reflexivity.
Qed.

Lemma resolve_period_defaults_ok (today : date) (g : granularity) :
  valid_date today -> 10 <= year today ->
  exists sd ed,
    forall start end_,
      _resolve_period today g start end_ =
      if date_ltb (or_else end_ ed) (or_else start sd)
      then Raise (HTTPException 400 "End date must be after start date.")
      else Ok (mkPeriod (or_else start sd) (or_else end_ ed)).
Proof.
  intros Hv Hy.
  destruct (floor_ok g today Hv) as (f & Hf & Hfy & Hfm & Hfd).
  pose proof (proj1 (valid_date_fields today) Hv) as (Hy' & _ & _).
  assert (Hs : exists sd,
     match g with
     | monthly => _shift_months f (step_lookup g)
     | quarterly => _shift_months f (step_lookup g * 3)
     | yearly => replace f (Some (year f + step_lookup g)) None None
     end = Ok sd).
  { destruct g.
    - apply shift_months_ok; simpl; lia.
    - apply shift_months_ok; simpl; lia.
    - unfold replace; simpl.
      pose proof (days_in_month_bounds (year f + -9) (month f)).
      rewrite py_date_ok by lia. eexists; reflexivity. }
  destruct Hs as (sd & Hsd).
  exists sd, f. intros start end_.
  unfold _resolve_period. rewrite Hf. simpl. rewrite Hsd. simpl. reflexivity.
Qed.

(** C8: explicit start and end dates with end < start fail with
    InvalidRange (status 400); with end >= start, the equal case included,
    the period is exactly the two dates given. *)
Theorem resolve_period_explicit_range (today : date) (g : granularity) (s e : date) :
  valid_date today -> 10 <= year today ->
  (date_lt e s ->
   _resolve_period today g (Some s) (Some e)
   = Raise (HTTPException InvalidRange "End date must be after start date."))
  /\ (date_le s e ->
      _resolve_period today g (Some s) (Some e) = Ok (mkPeriod s e))
  /\ _resolve_period today g (Some s) (Some s) = Ok (mkPeriod s s).
Proof.
  intros Hv Hy.
  destruct (resolve_period_defaults_ok today g Hv Hy) as (sd & ed & H).
  rewrite !H. simpl. repeat split.
  - intros Hlt. apply date_ltb_lt in Hlt. now rewrite Hlt.
  - intros Hle. apply date_leb_le in Hle. unfold date_leb in Hle.
    apply negb_true_iff in Hle. now rewrite Hle.
  - now rewrite date_ltb_irrefl.
Qed.

Lemma resolve_period_explicit_range_witness :
  _resolve_period (mkDate 2026 11 4) monthly
                  (Some (mkDate 2024 3 1)) (Some (mkDate 2024 1 1))
  = Raise (HTTPException InvalidRange "End date must be after start date.")
  /\ _resolve_period (mkDate 2026 11 4) quarterly
                     (Some (mkDate 2024 1 1)) (Some (mkDate 2024 3 1))
     = Ok (mkPeriod (mkDate 2024 1 1) (mkDate 2024 3 1)).
Proof.
  split.
  - apply (resolve_period_explicit_range (mkDate 2026 11 4) monthly
             (mkDate 2024 3 1) (mkDate 2024 1 1));
      [reflexivity | simpl; lia | unfold date_lt; simpl; lia].
  - apply (resolve_period_explicit_range (mkDate 2026 11 4) quarterly
             (mkDate 2024 1 1) (mkDate 2024 3 1));
      [reflexivity | simpl; lia | unfold date_le, date_lt; simpl; lia].
Defined.

(** A key without a dash, or whose parts are not integers, is a format
    error. *)
Lemma month_key_format_rejected (key : string) :
  split_once "-"%char key = None ->
  _month_range_from_key key
  = Raise (HTTPException InvalidArgument "Invalid month key format.").
Proof. intros H. unfold _month_range_from_key. now rewrite H. Qed.






(** ** Rows of the attrition query *)

Lemma year_bounds_months_range (cutoff : date) (ybs : list YearBound) :
  year_bounds cutoff = Ok ybs ->
  forall y, In y ybs -> 1 <= months_covered y <= 12.
Proof.
  unfold year_bounds. destruct (current_fy_start cutoff) as [fy|e];
    [|discriminate].
  cbn [bind]. intros H y Hin. injection H as <-.
  repeat (destruct Hin as [<- | Hin];
          [unfold bounds_row; cbn [months_covered]; lia|]).
  destruct Hin.
Qed.

(** Every row the attrition query returns is the row of a window of 1 to
    12 months. *)
Lemma attrition_sql_months_range (by_entity : bool) (latest : list Employee)
    (entities : list string) (cutoff : date) (rows : list AttritionRow) :
  attrition_sql by_entity latest entities cutoff = Ok rows ->
  forall a, In a rows -> 1 <= r_months_covered a <= 12.
Proof.
  unfold attrition_sql.
  destruct (year_bounds cutoff) as [ybs|e] eqn:E; [|discriminate].
  cbn [bind]. intros H a Hin. injection H as <-.
  apply in_flat_map in Hin. destruct Hin as (y & Hy & Hin).
  apply in_map_iff in Hin. destruct Hin as (g & <- & _).
  simpl. eapply year_bounds_months_range; eassumption.
Qed.

(** ** Attrition post-processing *)

Section PostProcessingProperties.

Variable float_of_str : string -> option Q.

Lemma Qlt_bool_iff (a b : Q) : Qlt_bool a b = true <-> (a < b)%Q.
Proof.
  unfold Qlt_bool. rewrite negb_true_iff.
  destruct (Qle_bool b a) eqn:E.
  - apply Qle_bool_iff in E. split; [discriminate|].
    intros H. exfalso. now apply (Qle_not_lt _ _ E).
  - split; [|reflexivity]. intros _.
    apply Qnot_le_lt. intros H. apply Qle_bool_iff in H. congruence.
Qed.

Lemma py_div_ok (a b : Q) : ~ (b == 0)%Q -> py_div a b = Ok (a / b)%Q.
Proof.
  intros Hb. unfold py_div. destruct (Qeq_bool b 0) eqn:E; [|reflexivity].
  apply Qeq_bool_iff in E. contradiction.
Qed.

Lemma py_div_raises (a b : Q) (e : exception) :
  py_div a b = Raise e -> (b == 0)%Q.
Proof.
  unfold py_div. destruct (Qeq_bool b 0) eqn:E; [|discriminate].
  intros _. now apply Qeq_bool_iff.
Qed.

(** How [_months_covered] coerces: by cases on what [float] makes of the
    raw value. *)
Lemma months_covered_cases (r : row) :
  match py_float float_of_str (get r "months_covered") with
  | Raise _ => _months_covered float_of_str r = 12%Q
  | Ok v =>
      ((v <= 0)%Q -> _months_covered float_of_str r = 12%Q)
      /\ ((12 < v)%Q -> _months_covered float_of_str r = 12%Q)
      /\ ((0 < v)%Q -> (v <= 12)%Q -> _months_covered float_of_str r = v)
  end.
Proof.
  unfold _months_covered.
  destruct (py_float float_of_str (get r "months_covered")) as [v|e];
    [|reflexivity].
  destruct (Qle_bool v 0) eqn:E0.
  - apply Qle_bool_iff in E0. repeat split; auto.
    intros H. exfalso. now apply (Qle_not_lt _ _ E0).
  - assert (Hpos : (0 < v)%Q).
    { apply Qnot_le_lt. intros H. apply Qle_bool_iff in H. congruence. }
    repeat split.
    + intros H. exfalso. now apply (Qle_not_lt _ _ H).
    + intros H. unfold py_min. destruct (Qle_bool v 12) eqn:E; [|reflexivity].
      apply Qle_bool_iff in E. exfalso. now apply (Qle_not_lt _ _ E).
    + intros _ H. unfold py_min. apply Qle_bool_iff in H. now rewrite H.
Qed.

Lemma months_covered_range (r : row) :
  (0 < _months_covered float_of_str r /\ _months_covered float_of_str r <= 12)%Q.
Proof.
  unfold _months_covered.
  destruct (py_float float_of_str (get r "months_covered")) as [v|e];
    [|split; [reflexivity|discriminate]].
  destruct (Qle_bool v 0) eqn:E0; [split; [reflexivity|discriminate]|].
  assert (Hpos : (0 < v)%Q).
  { apply Qnot_le_lt. intros H. apply Qle_bool_iff in H. congruence. }
  unfold py_min. destruct (Qle_bool v 12) eqn:E.
  - split; [exact Hpos|now apply Qle_bool_iff].
  - split; [reflexivity|discriminate].
Qed.

Lemma months_covered_nonzero (r : row) :
  ~ (_months_covered float_of_str r == 0)%Q.
Proof.
  destruct (months_covered_range r) as [Hpos _].
  intros H. rewrite H in Hpos. discriminate Hpos.
Qed.






Lemma or_zero_int (z : Z) :
  py_num (or_zero (PyInt z)) = Ok (inject_Z z)
  /\ py_float float_of_str (or_zero (PyInt z)) = Ok (inject_Z z).
Proof.
  unfold or_zero, truthy. destruct (Z.eqb_spec z 0) as [-> | _]; simpl; auto.
Qed.

Lemma months_covered_of_window (a : AttritionRow) :
  1 <= r_months_covered a <= 12 ->
  _months_covered float_of_str (to_row a) = inject_Z (r_months_covered a).
Proof.
  intros [Hlo Hhi].
  pose proof (months_covered_cases (to_row a)) as Hc.
  change (get (to_row a) "months_covered") with (PyInt (r_months_covered a)) in Hc.
  simpl in Hc. destruct Hc as (_ & _ & Hc). apply Hc.
  - unfold Qlt; simpl; lia.
  - unfold Qle; simpl; lia.
Qed.

(** The pipeline on the row of a window of 1 to 12 months. *)
Lemma attrition_pipeline_row (a : AttritionRow) :
  1 <= r_months_covered a <= 12 ->
  let r := to_row a in
  let months := inject_Z (r_months_covered a) in
  let denominator :=
    if Qlt_bool 0 (r_monthly_headcount_sum a) && Qlt_bool 0 months
    then (r_monthly_headcount_sum a / months)%Q
    else ((inject_Z (r_headcount_start a) + inject_Z (r_headcount_end a)) / 2)%Q in
  let raw :=
    if Qeq_bool denominator 0 then 0%Q
    else (inject_Z (r_exits a) / denominator)%Q in
  Qlt_bool 0 months = true
  /\ _average_headcount float_of_str r "headcount_start" "headcount_end"
                        (Some "monthly_headcount_sum") = Ok denominator
  /\ _attrition float_of_str r "headcount_start" "headcount_end" "exits"
                (Some "monthly_headcount_sum") = Ok raw
  /\ attritionPct float_of_str r
     = Ok (if 12 <=? r_months_covered a then raw
           else (raw * (12 / months))%Q)
  /\ (r_months_covered a = 12 -> attritionPct float_of_str r = Ok raw).
Proof.
  intros Hm r months denominator raw.
  assert (Hmonths : _months_covered float_of_str r = months)
    by (apply months_covered_of_window; exact Hm).
  assert (Hpos : Qlt_bool 0 months = true).
  { apply Qlt_bool_iff. unfold months, Qlt; simpl; lia. }
  assert (Havg : _average_headcount float_of_str r "headcount_start"
                   "headcount_end" (Some "monthly_headcount_sum")
                 = Ok denominator).
  { unfold _average_headcount.
    change (get r "headcount_start") with (PyInt (r_headcount_start a)).
    change (get r "headcount_end") with (PyInt (r_headcount_end a)).
    change (get r "monthly_headcount_sum")
      with (PyFloat (r_monthly_headcount_sum a)).
    destruct (or_zero_int (r_headcount_start a)) as [-> _].
    destruct (or_zero_int (r_headcount_end a)) as [-> _].
    cbn [bind]. rewrite py_div_ok by discriminate. cbn [bind key_given].
    change (get r "monthly_headcount_sum")
      with (PyFloat (r_monthly_headcount_sum a)).
    cbn [py_float]. rewrite Hmonths. unfold denominator.
    destruct (Qlt_bool 0 (r_monthly_headcount_sum a) && Qlt_bool 0 months);
      [|reflexivity].
    apply py_div_ok. rewrite <- Hmonths. apply months_covered_nonzero. }
  assert (Hraw : _attrition float_of_str r "headcount_start" "headcount_end"
                   "exits" (Some "monthly_headcount_sum") = Ok raw).
  { unfold _attrition. rewrite Havg. simpl.
    change (get r "exits") with (PyInt (r_exits a)).
    unfold raw. destruct (Qeq_bool denominator 0) eqn:E; [reflexivity|].
    destruct (or_zero_int (r_exits a)) as [_ ->]. cbn [bind].
    unfold py_div. now rewrite E. }
  assert (Hann : attritionPct float_of_str r
                 = Ok (if 12 <=? r_months_covered a then raw
                       else (raw * (12 / months))%Q)).
  { unfold attritionPct, _annualized_attrition. rewrite Hraw. simpl.
    rewrite Hmonths. unfold months.
    replace (Qle_bool 12 (inject_Z (r_months_covered a)))
      with (12 <=? r_months_covered a).
    - destruct (12 <=? r_months_covered a); [reflexivity|].
      rewrite py_div_ok; [reflexivity|].
      fold months. rewrite <- Hmonths. apply months_covered_nonzero.
    - unfold Qle_bool. simpl. now rewrite Z.mul_1_r. }
  repeat split; auto.
  intros H12. rewrite Hann, H12. reflexivity.
Qed.

(** C3: for every row the attrition query returns (one per fiscal window,
    and per entity when split): the denominator is monthly_headcount_sum /
    months_covered when the monthly sum is positive and months_covered > 0,
    and (headcount_start + headcount_end) / 2 otherwise; the raw rate is
    exits / denominator, and 0 when the denominator is 0; the annualized
    rate is the raw rate when months_covered >= 12 and the raw rate times
    12 / months_covered otherwise; at months_covered = 12 it is the raw
    rate itself. *)
Theorem attrition_pipeline (by_entity : bool) (latest : list Employee)
    (entities : list string) (cutoff : date) (rows : list AttritionRow)
    (a : AttritionRow) :
  attrition_sql by_entity latest entities cutoff = Ok rows ->
  In a rows ->
  let r := to_row a in
  let months := inject_Z (r_months_covered a) in
  let denominator :=
    if Qlt_bool 0 (r_monthly_headcount_sum a) && Qlt_bool 0 months
    then (r_monthly_headcount_sum a / months)%Q
    else ((inject_Z (r_headcount_start a) + inject_Z (r_headcount_end a)) / 2)%Q in
  let raw :=
    if Qeq_bool denominator 0 then 0%Q
    else (inject_Z (r_exits a) / denominator)%Q in
  _months_covered float_of_str r = months
  /\ _average_headcount float_of_str r "headcount_start" "headcount_end"
                        (Some "monthly_headcount_sum") = Ok denominator
  /\ _attrition float_of_str r "headcount_start" "headcount_end" "exits"
                (Some "monthly_headcount_sum") = Ok raw
  /\ attritionPct float_of_str r
     = Ok (if 12 <=? r_months_covered a then raw
           else (raw * (12 / months))%Q)
  /\ (r_months_covered a = 12 -> attritionPct float_of_str r = Ok raw).
Proof.
  intros Hrows Hin r months denominator raw.
  pose proof (attrition_sql_months_range _ _ _ _ _ Hrows a Hin) as Hm.
  split; [now apply months_covered_of_window|].
  now apply attrition_pipeline_row.
Qed.

End PostProcessingProperties.

(** The scaling example of the specification: 6 months, 3 exits and an
    average headcount of 10 give a raw rate of 3/10 and an annualized rate
    of 6/10. *)
Example annualization_scaling :
  let a := mkAttritionRow "YTD FY25" None 9 11 3 6 60 in
  (exists q, attritionPct (fun _ => None) (to_row a) = Ok q /\ (q == 6 # 10)%Q)
  /\ (exists q, _attrition (fun _ => None) (to_row a) "headcount_start"
                  "headcount_end" "exits" (Some "monthly_headcount_sum") = Ok q
                /\ (q == 3 # 10)%Q).
Proof.
  intros a.
  destruct (attrition_pipeline_row (fun _ => None) a ltac:(simpl; lia))
    as (_ & _ & Hraw & Hann & _).
  split.
  - eexists; split; [exact Hann|reflexivity].
  - eexists; split; [exact Hraw|reflexivity].
Qed.

(** ** Fiscal windows *)

Lemma add_years_april (fy offset : Z) :
  pg_add_years (mkDate fy 4 1) offset = mkDate (fy + offset) 4 1.
Proof.
  unfold pg_add_years, pg_add_months. cbn [year month day].
  replace (fy * 12 + (4 - 1) + 12 * offset) with (3 + (fy + offset) * 12) by lia.
  rewrite Z.div_add, Z.mod_add by lia.
  change (3 / 12) with 0. change (3 mod 12) with 3.
  reflexivity.
Qed.

Lemma next_day_fields (d : date) :
  valid_date d ->
  date_lt d (pg_next_day d)
  /\ 1 <= month (pg_next_day d) <= 12 /\ 1 <= day (pg_next_day d).
Proof.
  intros Hv. apply valid_date_fields in Hv. destruct Hv as (Hy & Hm & Hd).
  unfold pg_next_day, date_lt.
  destruct (Z.ltb_spec (day d) (_days_in_month (year d) (month d)));
    [simpl; lia|].
  destruct (Z.ltb_spec (month d) 12); simpl; lia.
Qed.

Lemma months_spanned_from_april (ye : date) (fy : Z) :
  date_le (mkDate fy 4 1) ye -> 1 <= day ye ->
  months_spanned ye (mkDate fy 4 1)
  = (year ye - fy) * 12 + (month ye - 4) + (if 1 <? day ye then 1 else 0).
Proof.
  intros Hle Hd. unfold months_spanned, pg_age.
  assert (Hneg : date_ltb ye (mkDate fy 4 1) = false).
  { apply date_leb_le in Hle. unfold date_leb in Hle.
    now apply negb_true_iff in Hle. }
  rewrite Hneg. simpl.
  assert (Hdd : (day ye - 1 <? 0) = false) by (apply Z.ltb_ge; lia).
  rewrite Hdd.
  destruct (Z.ltb_spec (month ye - 4) 0); simpl;
    destruct (Z.ltb_spec 0 (day ye - 1)), (Z.ltb_spec 1 (day ye)); lia.
Qed.

Lemma least_spec (a b : date) :
  least a b = (if date_ltb b a then b else a).
Proof. reflexivity. Qed.

Lemma fiscal_year_start_le (cutoff : date) :
  1 <= day cutoff ->
  date_le (mkDate (fiscal_year_of cutoff) 4 1) cutoff.
Proof.
  intros Hd. unfold date_le, date_lt, fiscal_year_of. simpl.
  destruct (Z.leb_spec 4 (month cutoff)); lia.
Qed.

Lemma date_le_lt_trans (a b c : date) :
  date_le a b -> date_lt b c -> date_lt a c.
Proof. unfold date_le, date_lt. lia. Qed.

Lemma date_lt_le (a b : date) : date_lt a b -> date_le a b.
Proof. unfold date_le, date_lt. lia. Qed.

(** A window that closed with its fiscal year is whole: twelve months. *)
Lemma full_window (fy cutoff : date) (y offset : Z) :
  fy = mkDate y 4 1 ->
  date_le (mkDate (y + offset + 1) 4 1) (pg_next_day cutoff) ->
  bounds_row fy cutoff offset
  = mkYearBound (mkDate (y + offset) 4 1) (mkDate (y + offset + 1) 4 1)
                (mkDate (y + offset + 1) 4 1) 12.
Proof.
  intros -> Hle. unfold bounds_row.
  rewrite !add_years_april, least_spec.
  replace (y + (offset + 1)) with (y + offset + 1) by lia.
  assert (Hlt : date_ltb (pg_next_day cutoff) (mkDate (y + offset + 1) 4 1) = false).
  { destruct (date_ltb _ _) eqn:E; [|reflexivity].
    apply date_ltb_lt in E. contradiction. }
  rewrite Hlt, months_spanned_from_april.
  - simpl. f_equal. lia.
  - unfold date_le, date_lt; simpl; lia.
  - simpl; lia.
Qed.

Lemma current_fy_start_ok (cutoff : date) :
  2 <= year cutoff ->
  current_fy_start cutoff = Ok (mkDate (fiscal_year_of cutoff) 4 1).
Proof.
  intros Hy. unfold current_fy_start, fiscal_year_of, make_date.
  destruct (4 <=? month cutoff).
  - destruct (Z.eqb_spec (year cutoff) 0); [lia|reflexivity].
  - destruct (Z.eqb_spec (year cutoff - 1) 0); [lia|reflexivity].
Qed.

Lemma label_full (s e : date) (m : Z) :
  label (mkYearBound s e e m) = ("FY" ++ to_char_YY e)%string.
Proof. unfold label. simpl. now rewrite date_ltb_irrefl. Qed.

(** C4: the fiscal windows of a cutoff are the four April-to-March years
    up to the one the cutoff falls in; the first three are whole (12
    months, label "FY" and the two digits of the ending year); the last
    ends at cutoff + 1 day when that comes before its fiscal year end, its
    months_covered is the number of months spanned from April 1, a started
    month counting whole, clamped to [1, 12], and its label is "YTD FY.."
    when it is partial and "FY.." when it is whole.  For the cutoff
    2024-07-10 the last window runs from 2024-04-01 to 2024-07-11, covers
    4 months and is labelled "YTD FY25". *)
Theorem fiscal_windows (cutoff : date) :
  valid_date cutoff -> 2 <= year cutoff ->
  let fy := fiscal_year_of cutoff in
  let next := pg_next_day cutoff in
  let fy_end := mkDate (fy + 1) 4 1 in
  let partial := date_ltb next fy_end in
  let last_end := if partial then next else fy_end in
  let spanned := (year last_end - fy) * 12 + (month last_end - 4)
                 + (if 1 <? day last_end then 1 else 0) in
  let last := mkYearBound (mkDate fy 4 1) last_end fy_end
                          (Z.max 1 (Z.min 12 spanned)) in
  year_bounds cutoff
  = Ok [ mkYearBound (mkDate (fy - 3) 4 1) (mkDate (fy - 2) 4 1) (mkDate (fy - 2) 4 1) 12;
         mkYearBound (mkDate (fy - 2) 4 1) (mkDate (fy - 1) 4 1) (mkDate (fy - 1) 4 1) 12;
         mkYearBound (mkDate (fy - 1) 4 1) (mkDate fy 4 1) (mkDate fy 4 1) 12;
         last ]
  /\ date_le (mkDate fy 4 1) cutoff /\ date_lt cutoff fy_end
  /\ 1 <= months_covered last <= 12
  /\ label (mkYearBound (mkDate (fy - 1) 4 1) (mkDate fy 4 1) (mkDate fy 4 1) 12)
     = ("FY" ++ to_char_YY (mkDate fy 4 1))%string
  /\ label last
     = (if partial then "YTD FY" ++ to_char_YY fy_end
        else "FY" ++ to_char_YY fy_end)%string
  /\ (cutoff = mkDate 2024 7 10 ->
      last = mkYearBound (mkDate 2024 4 1) (mkDate 2024 7 11) (mkDate 2025 4 1) 4
      /\ label last = "YTD FY25").
Proof.
  intros Hv Hy fy next fy_end partial last_end spanned last.
  pose proof (proj1 (valid_date_fields cutoff) Hv) as (_ & Hm & Hd).
  destruct (next_day_fields cutoff Hv) as (Hnext & Hnm & Hnd).
  assert (Hstart : date_le (mkDate fy 4 1) cutoff)
    by (apply fiscal_year_start_le; lia).
  assert (Hinside : date_lt cutoff fy_end).
  { unfold date_lt, fy_end, fy, fiscal_year_of. simpl.
    destruct (Z.leb_spec 4 (month cutoff)); lia. }
  assert (Hle : date_lt (mkDate fy 4 1) next)
    by (eapply date_le_lt_trans; eassumption).
  assert (Hfull : forall offset, offset < 0 ->
            bounds_row (mkDate fy 4 1) cutoff offset
            = mkYearBound (mkDate (fy + offset) 4 1) (mkDate (fy + offset + 1) 4 1)
                          (mkDate (fy + offset + 1) 4 1) 12).
  { intros offset Ho. apply full_window; [reflexivity|].
    fold next. revert Hle. unfold date_le, date_lt. simpl. lia. }
  assert (Hlast : bounds_row (mkDate fy 4 1) cutoff 0 = last).
  { unfold bounds_row. rewrite !add_years_april, least_spec.
    replace (fy + (0 + 1)) with (fy + 1) by lia.
    replace (fy + 0) with fy by lia.
    fold next fy_end partial last_end.
    rewrite months_spanned_from_april.
    - reflexivity.
    - unfold last_end. destruct partial; [now apply date_lt_le|].
      unfold date_le, date_lt, fy_end; simpl; lia.
    - unfold last_end. destruct partial; [exact Hnd|simpl; lia]. }
  split.
  { unfold year_bounds. rewrite current_fy_start_ok by exact Hy. fold fy.
    change (int_series (-3) 0) with [-3; -2; -1; 0].
    cbn [bind map].
    rewrite (Hfull (-3)), (Hfull (-2)), (Hfull (-1)), Hlast by lia.
    replace (fy + -3 + 1) with (fy - 2) by lia.
    replace (fy + -2 + 1) with (fy - 1) by lia.
    replace (fy + -1 + 1) with fy by lia.
    replace (fy + -3) with (fy - 3) by lia.
    replace (fy + -2) with (fy - 2) by lia.
    replace (fy + -1) with (fy - 1) by lia.
    reflexivity. }
  split; [exact Hstart|]. split; [exact Hinside|].
  split; [simpl; lia|].
  split; [apply label_full|].
  split.
  { unfold label, last. cbn [year_end fy_year_end]. unfold last_end.
    destruct partial eqn:E; [unfold partial in E; now rewrite E|].
    now rewrite date_ltb_irrefl. }
  intros ->. split; reflexivity.
Qed.

Lemma fiscal_windows_witness :
  year_bounds (mkDate 2024 7 10)
  = Ok [ mkYearBound (mkDate 2021 4 1) (mkDate 2022 4 1) (mkDate 2022 4 1) 12;
         mkYearBound (mkDate 2022 4 1) (mkDate 2023 4 1) (mkDate 2023 4 1) 12;
         mkYearBound (mkDate 2023 4 1) (mkDate 2024 4 1) (mkDate 2024 4 1) 12;
         mkYearBound (mkDate 2024 4 1) (mkDate 2024 7 11) (mkDate 2025 4 1) 4 ].
Proof.
  exact (proj1 (fiscal_windows (mkDate 2024 7 10) eq_refl ltac:(simpl; lia))).
Defined.

(** ** Activity rules *)



(** ** Tenure buckets *)

Lemma tenure_months_nonneg (ref doj : option date) :
  0 <= tenure_months_expr ref doj.
Proof.
  unfold tenure_months_expr. destruct ref, doj; lia.
Qed.

Lemma one_bucket_per_months (months : Z) :
  0 <= months ->
  map (fun b => in_bucket b months) buckets
  = [ months <? 6;
      (6 <=? months) && (months <? 12);
      (12 <=? months) && (months <? 24);
      (24 <=? months) && (months <? 48);
      (48 <=? months) && (months <? 120);
      120 <=? months ]
  /\ List.length (filter (fun b => in_bucket b months) buckets) = 1%nat.
Proof.
  intros H. unfold buckets, in_bucket. cbn [map filter fst snd].
  destruct (Z.leb_spec 0 months); [|lia].
  destruct (Z.leb_spec 6 months), (Z.ltb_spec months 6); try lia;
    destruct (Z.leb_spec 12 months), (Z.ltb_spec months 12); try lia;
    destruct (Z.leb_spec 24 months), (Z.ltb_spec months 24); try lia;
    destruct (Z.leb_spec 48 months), (Z.ltb_spec months 48); try lia;
    destruct (Z.leb_spec 120 months), (Z.ltb_spec months 120); try lia;
    split; reflexivity.
Qed.


(** ** Gender ratio *)










(** ** Headcount series *)

Lemma month_index_first_of (i : Z) : month_index (first_of i) = i.
Proof.
  unfold month_index, first_of. cbn [year month].
  pose proof (Z.div_mod i 12 ltac:(lia)). lia.
Qed.

Lemma first_of_month_index (d : date) :
  1 <= month d <= 12 -> day d = 1 -> first_of (month_index d) = d.
Proof.
  intros Hm Hd. unfold first_of, month_index.
  apply date_eq_fields; cbn [year month day]; [| |now rewrite Hd].
  - symmetry. apply Z.div_unique with (month d - 1); lia.
  - assert ((year d * 12 + (month d - 1)) mod 12 = month d - 1); [|lia].
    symmetry. apply Z.mod_unique with (year d); lia.
Qed.

Lemma add_months_first_of (i n : Z) :
  pg_add_months (first_of i) n = first_of (i + n).
Proof.
  unfold pg_add_months.
  change (year (first_of i) * 12 + (month (first_of i) - 1))
    with (month_index (first_of i)).
  rewrite month_index_first_of. unfold first_of. cbn [day].
  f_equal.
  pose proof (days_in_month_bounds ((i + n) / 12) ((i + n) mod 12 + 1)). lia.
Qed.

Lemma first_of_ltb (i j : Z) : date_ltb (first_of i) (first_of j) = (i <? j).
Proof.
  unfold date_ltb, first_of. cbn [year month day].
  pose proof (Z.div_mod i 12 ltac:(lia)).
  pose proof (Z.div_mod j 12 ltac:(lia)).
  pose proof (Z.mod_pos_bound i 12 ltac:(lia)).
  pose proof (Z.mod_pos_bound j 12 ltac:(lia)).
  rewrite Z.ltb_irrefl, andb_false_r, orb_false_r.
  destruct (Z.ltb_spec i j), (Z.ltb_spec (i / 12) (j / 12)),
    (Z.eqb_spec (i / 12) (j / 12)),
    (Z.ltb_spec (i mod 12 + 1) (j mod 12 + 1)); simpl; try reflexivity; lia.
Qed.

Lemma first_of_leb (i j : Z) : date_leb (first_of i) (first_of j) = (i <=? j).
Proof.
  unfold date_leb. rewrite first_of_ltb.
  destruct (Z.ltb_spec j i), (Z.leb_spec i j); simpl; try reflexivity; lia.
Qed.

(** Truncation to a grain is the first day of the month whose index is the
    month index rounded down to a multiple of the step. *)
Lemma date_trunc_first_of (g : granularity) (d : date) :
  1 <= month d <= 12 ->
  date_trunc (grain_of g) d
  = first_of (step_months g * (month_index d / step_months g)).
Proof.
  intros Hm.
  rewrite <- (first_of_month_index (date_trunc (grain_of g) d)).
  - f_equal. unfold month_index. destruct g; cbn [grain_of step_months date_trunc year month].
    + rewrite Z.div_1_r. lia.
    + replace (year d * 12 + (month d - 1)) with (month d - 1 + (year d * 4) * 3) by lia.
      rewrite Z.div_add by lia. lia.
    + replace (year d * 12 + (month d - 1)) with (month d - 1 + year d * 12) by lia.
      rewrite Z.div_add, (Z.div_small (month d - 1) 12) by lia. lia.
  - destruct g; cbn [grain_of date_trunc month]; try lia.
    pose proof (Z.div_pos (month d - 1) 3 ltac:(lia) ltac:(lia)).
    pose proof (Z.div_lt_upper_bound (month d - 1) 3 4 ltac:(lia) ltac:(lia)).
    lia.
  - destruct g; reflexivity.
Qed.

Lemma month_index_mono (a b : date) :
  1 <= month a <= 12 -> 1 <= month b <= 12 ->
  date_le a b -> month_index a <= month_index b.
Proof.
  unfold date_le, date_lt, month_index. intros Ha Hb H. lia.
Qed.

Lemma step_months_pos (g : granularity) : 1 <= step_months g <= 12.
Proof. destruct g; simpl; lia. Qed.

Section Series.

Variable step : Z.
Hypothesis step_pos : 0 < step.

(** The series from the month of index [a] to the month of index [b]: the
    [n] months [a], [a + step], ... that do not pass [b]. *)
Lemma generate_series_from_spec (b : Z) (n : nat) :
  forall (a : Z) (fuel : nat),
    b < a + Z.of_nat n * step ->
    (n = 0%nat \/ a + (Z.of_nat n - 1) * step <= b) ->
    (n <= fuel)%nat ->
    generate_series_from fuel (first_of a) (first_of b) step
    = map (fun k => first_of (a + Z.of_nat k * step)) (seq 0 n).
Proof.
  induction n as [|n IH]; intros a fuel Hhi Hlo Hfuel.
  - destruct fuel; [reflexivity|]. simpl.
    rewrite first_of_leb. destruct (Z.leb_spec a b); [lia|reflexivity].
  - destruct fuel as [|fuel]; [lia|].
    destruct Hlo as [Hlo | Hlo]; [discriminate|].
    cbn [generate_series_from].
    rewrite first_of_leb. destruct (Z.leb_spec a b) as [_ | Hlt]; [|nia].
    rewrite add_months_first_of, (IH (a + step) fuel) by lia.
    cbn [seq map]. f_equal; [f_equal; lia|].
    rewrite <- seq_shift, map_map. apply map_ext. intros k. f_equal. lia.
Qed.

Variable hc : date -> Z.

(** [LAG] over rows generated from an index: every row but the first one
    sees the headcount of the row before it. *)
Lemma lag_series (P : nat -> date) (m : nat) :
  forall (a : nat) (prev : option Z),
    lag prev (map (fun s => (s, hc s)) (map P (seq a m)))
    = map (fun k => (P k, hc (P k),
                     if (k =? a)%nat then prev else Some (hc (P (pred k)))))
          (seq a m).
Proof.
  induction m as [|m IH]; intros a prev; [reflexivity|].
  cbn [seq map lag]. rewrite Nat.eqb_refl. f_equal.
  rewrite IH. apply map_ext_in. intros k Hk. apply in_seq in Hk.
  destruct (Nat.eqb_spec k (S a)) as [-> | Hne].
  - destruct (Nat.eqb_spec (S a) a); [lia|reflexivity].
  - destruct (Nat.eqb_spec k a); [lia|reflexivity].
Qed.

End Series.

Lemma filter_all {A} (f : A -> bool) (l : list A) :
  (forall x, In x l -> f x = true) -> filter f l = l.
Proof.
  induction l as [|x l IH]; intros H; [reflexivity|].
  simpl. rewrite (H x (or_introl eq_refl)). f_equal.
  apply IH. intros y Hy. apply H. now right.
Qed.

Lemma filter_of_map {A B} (f : B -> bool) (g : A -> B) (l : list A) :
  filter f (map g l) = map g (filter (fun a => f (g a)) l).
Proof.
  induction l as [|x l IH]; [reflexivity|].
  simpl. destruct (f (g x)); simpl; now rewrite IH.
Qed.

(** C5: for a window start <= end, the series has one point for each
    bucket from the bucket of the start to the bucket of the end, both
    included; the opening headcount of a point is the headcount of the
    bucket just before it (for the first point, the bucket before the
    window, which is computed and not returned); ramp_change is headcount
    minus opening headcount, and ramp_pct is ramp_change / opening
    headcount, or 0 when the opening headcount is 0; it is never NULL. *)
Theorem headcount_series (g : granularity) (latest : list Employee)
    (entities : list string) (start end_ : date) :
  valid_date start -> valid_date end_ -> date_le start end_ ->
  let step := step_months g in
  let start_period := date_trunc (grain_of g) start in
  let end_period := date_trunc (grain_of g) end_ in
  let buckets := (month_index end_period - month_index start_period) / step in
  let hc := headcount_at latest entities step in
  0 <= buckets
  /\ pg_add_months start_period (buckets * step) = end_period
  /\ manpower_sql g latest entities start end_
     = map (fun k =>
              let p := pg_add_months start_period (Z.of_nat k * step) in
              let opening := hc (pg_add_months p (- step)) in
              mkManpowerRow p (hc p) opening (hc p - opening)
                (Some (if opening =? 0 then 0%Q
                       else (inject_Z (hc p - opening) / inject_Z opening)%Q)))
           (seq 0 (Z.to_nat buckets + 1)).
Proof.
  intros Hvs Hve Hle step start_period end_period buckets hc.
  pose proof (proj1 (valid_date_fields start) Hvs) as (_ & Hms & _).
  pose proof (proj1 (valid_date_fields end_) Hve) as (_ & Hme & _).
  pose proof (step_months_pos g) as Hstep. fold step in Hstep.
  set (a := month_index start / step).
  set (b := month_index end_ / step).
  assert (Hab : a <= b).
  { apply Z.div_le_mono; [lia|]. now apply month_index_mono. }
  assert (Hsp : start_period = first_of (step * a))
    by (apply date_trunc_first_of; exact Hms).
  assert (Hep : end_period = first_of (step * b))
    by (apply date_trunc_first_of; exact Hme).
  assert (Hb : buckets = b - a).
  { unfold buckets. rewrite Hsp, Hep, !month_index_first_of.
    replace (step * b - step * a) with ((b - a) * step) by lia.
    apply Z.div_mul. lia. }
  split; [lia|]. split.
  { rewrite Hsp, Hep, add_months_first_of, Hb. f_equal. lia. }
  unfold manpower_sql. fold step start_period end_period hc.
  rewrite Hsp, Hep, add_months_first_of. unfold generate_series.
  rewrite !month_index_first_of.
  set (n := Z.to_nat (b - a + 2)).
  rewrite (generate_series_from_spec step ltac:(lia) (step * b) n);
    [|unfold n; nia|right; unfold n; nia|unfold n; nia].
  rewrite lag_series, filter_of_map.
  replace n with (S (Z.to_nat buckets + 1)) by (unfold n; lia).
  cbn [seq filter fst].
  rewrite first_of_leb.
  destruct (Z.leb_spec (step * a) (step * a + - step + Z.of_nat 0 * step));
    [lia|].
  rewrite filter_all.
  - rewrite <- seq_shift, !map_map. apply map_ext. intros k.
    cbn [Nat.eqb pred output_row or_else].
    rewrite !add_months_first_of.
    replace (step * a + - step + Z.of_nat (S k) * step)
      with (step * a + Z.of_nat k * step) by lia.
    replace (step * a + Z.of_nat k * step + - step)
      with (step * a + - step + Z.of_nat k * step) by lia.
    unfold nullif.
    destruct (hc (first_of (step * a + - step + Z.of_nat k * step)) =? 0);
      reflexivity.
  - intros k Hk. apply in_seq in Hk. rewrite first_of_leb.
    apply Z.leb_le. nia.
Qed.

(** ** Identity resolver *)

Lemma date_ltb_spec (a b : date) : reflect (date_lt a b) (date_ltb a b).
Proof.
  destruct (date_ltb a b) eqn:E; constructor.
  - now apply date_ltb_lt.
  - intros H. apply date_ltb_lt in H. congruence.
Qed.

Lemma latest_leb_trans : Transitive (fun x y => is_true (latest_leb x y)).
Proof.
  intros x y z. unfold is_true, latest_leb.
  rewrite !orb_true_iff, !andb_true_iff, !Z.ltb_lt, !Z.eqb_eq, !Z.leb_le.
  lia.
Qed.

Lemma joined_first_leb_trans :
  Transitive (fun x y => is_true (joined_first_leb x y)).
Proof.
  intros x y z. unfold is_true, joined_first_leb, doj_ltb.
  destruct (DOJ (fst x)) as [dx|], (DOJ (fst y)) as [dy|],
    (DOJ (fst z)) as [dz|]; cbn [negb orb andb];
    rewrite ?orb_true_iff, ?andb_true_iff, ?negb_true_iff, ?Z.leb_le;
    try (intros; lia); try (intuition discriminate);
    try (intros; left; reflexivity).
  destruct (date_ltb_spec dx dy), (date_ltb_spec dy dx),
    (date_ltb_spec dy dz), (date_ltb_spec dz dy),
    (date_ltb_spec dx dz), (date_ltb_spec dz dx);
    unfold date_lt in *; intros H1 H2;
    try (left; reflexivity);
    try (right; split; [reflexivity|]); try lia;
    exfalso; intuition (try discriminate; try lia).
Qed.

Lemma NoDup_map_inj {A B} (f : A -> B) (l : list A) (x y : A) :
  NoDup (map f l) -> In x l -> In y l -> f x = f y -> x = y.
Proof.
  induction l as [|a l IH]; intros Hnd Hx Hy Hf; [destruct Hx|].
  simpl in Hnd. apply NoDup_cons_iff in Hnd. destruct Hnd as [Hna Hnd].
  destruct Hx as [<- | Hx], Hy as [<- | Hy]; auto.
  - exfalso. apply Hna. rewrite Hf. now apply in_map.
  - exfalso. apply Hna. rewrite <- Hf. now apply in_map.
Qed.

Lemma joined_In (db : Database) (fo fm : option string) (p : Employee * Upload) :
  In p (joined db fo fm) ->
  In (fst p) (employees db) /\ In (snd p) (uploads db)
  /\ upload_id (snd p) = uploadId (fst p).
Proof.
  unfold joined. intros H. apply in_flat_map in H. destruct H as (ed & Hed & H).
  apply in_map_iff in H. destruct H as (u & <- & Hu).
  apply filter_In in Hu. destruct Hu as [Hu Hc].
  rewrite !andb_true_iff in Hc. destruct Hc as [[Hc _] _].
  apply String.eqb_eq in Hc. auto.
Qed.

(** With unique record ids and unique upload ids, a joined row is
    determined by its record id. *)
Lemma joined_same_id (db : Database) (fo fm : option string)
    (p p' : Employee * Upload) :
  NoDup (map id (employees db)) -> NoDup (map upload_id (uploads db)) ->
  In p (joined db fo fm) -> In p' (joined db fo fm) ->
  id (fst p) = id (fst p') -> p = p'.
Proof.
  intros Hids Hups Hp Hp' Hid.
  apply joined_In in Hp. apply joined_In in Hp'.
  destruct Hp as (He & Hu & Hj), Hp' as (He' & Hu' & Hj').
  assert (Hfst : fst p = fst p') by (eapply NoDup_map_inj; eassumption).
  assert (Hsnd : snd p = snd p').
  { eapply NoDup_map_inj; try eassumption. congruence. }
  destruct p, p'; simpl in *; congruence.
Qed.

Lemma rank_above_one {A} (l : list A) (a : nat) :
  (2 <= a)%nat ->
  filter (fun r : A * Z => snd r =? 1)
         (combine l (map Z.of_nat (seq a (List.length l)))) = [].
Proof.
  revert a. induction l as [|x l IH]; intros a Ha; [reflexivity|].
  cbn [List.length seq map combine filter snd].
  destruct (Z.eqb_spec (Z.of_nat a) 1); [lia|].
  apply IH. lia.
Qed.

Lemma rank_one_numbered {A} (l : list A) :
  map fst (filter (fun r => snd r =? 1) (number_rows l)) = first_row l.
Proof.
  unfold number_rows. destruct l as [|x l]; [reflexivity|].
  cbn [List.length seq map combine filter snd first_row].
  change (Z.of_nat 1 =? 1) with true. cbn [map fst].
  now rewrite rank_above_one.
Qed.

Section Window.

Variable leb : Employee * Upload -> Employee * Upload -> bool.
Variable sort : list (Employee * Upload) -> list (Employee * Upload).
Hypothesis sort_perm : forall l, Permutation l (sort l).
Hypothesis sort_sorted :
  forall l, StronglySorted (fun x y => is_true (leb x y)) (sort l).

Lemma rank_one_over (rows : list (Employee * Upload)) :
  map fst (filter (fun r => snd r =? 1) (row_number_over sort rows))
  = flat_map (winner sort rows) (partition_keys rows).
Proof.
  unfold row_number_over.
  induction (partition_keys rows) as [|k ks IH]; [reflexivity|].
  cbn [flat_map]. rewrite filter_app, map_app, IH.
  f_equal. apply rank_one_numbered.
Qed.

Lemma winner_In (rows : list (Employee * Upload)) (k : string)
    (p : Employee * Upload) :
  In p (winner sort rows k) -> In p rows /\ has_key k p = true.
Proof.
  unfold winner. intros H.
  assert (Hs : In p (sort (filter (has_key k) rows))).
  { destruct (sort _); [destruct H|]. destruct H as [<- | []]. now left. }
  apply (Permutation_in _ (Permutation_sym (sort_perm _))) in Hs.
  now apply filter_In in Hs.
Qed.

Lemma winner_other_key (rows : list (Employee * Upload)) (k k' : string) :
  k <> k' -> filter (has_key k) (winner sort rows k') = [].
Proof.
  intros Hne.
  destruct (winner sort rows k') as [|p [|q l]] eqn:E; [reflexivity| |].
  - assert (Hp : In p (winner sort rows k')) by (rewrite E; now left).
    apply winner_In in Hp. destruct Hp as [_ Hp].
    simpl. destruct (has_key k p) eqn:Ek; [|reflexivity].
    unfold has_key in *. apply String.eqb_eq in Hp, Ek. congruence.
  - unfold winner, first_row in E. destruct (sort _); discriminate.
Qed.

Lemma winner_same_key (rows : list (Employee * Upload)) (k : string) :
  filter (has_key k) (winner sort rows k) = winner sort rows k.
Proof.
  apply filter_all. intros p Hp. now apply winner_In in Hp.
Qed.

Lemma winners_of_key (rows : list (Employee * Upload)) (k : string)
    (keys : list string) :
  NoDup keys ->
  filter (has_key k) (flat_map (winner sort rows) keys)
  = if in_dec string_dec k keys then winner sort rows k else [].
Proof.
  induction keys as [|k' ks IH]; intros Hnd; [reflexivity|].
  apply NoDup_cons_iff in Hnd. destruct Hnd as [Hnot Hnd].
  cbn [flat_map]. rewrite filter_app, (IH Hnd).
  destruct (string_dec k' k) as [-> | Hne].
  - rewrite winner_same_key.
    destruct (in_dec string_dec k ks); [contradiction|].
    destruct (in_dec string_dec k (k :: ks)) as [_ | Hn];
      [apply app_nil_r|exfalso; apply Hn; now left].
  - rewrite winner_other_key by congruence. cbn [app].
    destruct (in_dec string_dec k ks) as [Hin | Hnin],
      (in_dec string_dec k (k' :: ks)) as [Hin' | Hnin']; try reflexivity.
    + exfalso. apply Hnin'. now right.
    + destruct Hin' as [-> | Hin']; [congruence|contradiction].
Qed.

(** [WHERE rn = 1], read by identity: the first row of the identity's
    sorted partition, and nothing when the identity has no row. *)
Lemma first_rank_of_key (rows : list (Employee * Upload)) (k : string) :
  filter (has_key k)
         (map fst (filter (fun r => snd r =? 1) (row_number_over sort rows)))
  = winner sort rows k.
Proof.
  rewrite rank_one_over, winners_of_key
    by (unfold partition_keys; apply NoDup_nodup).
  destruct (in_dec string_dec k (partition_keys rows)) as [_ | Hn];
    [reflexivity|].
  unfold winner.
  assert (He : filter (has_key k) rows = []).
  { destruct (filter (has_key k) rows) as [|p l] eqn:E; [reflexivity|].
    exfalso. apply Hn. unfold partition_keys. apply nodup_In.
    assert (Hp : In p (filter (has_key k) rows)) by (rewrite E; now left).
    apply filter_In in Hp. destruct Hp as [Hp Hk].
    apply String.eqb_eq in Hk. rewrite <- Hk.
    now apply (in_map (fun p => identity_key (fst p))). }
  rewrite He.
  pose proof (sort_perm []) as Hp. apply Permutation_nil in Hp.
  now rewrite Hp.
Qed.

(** The first row of a partition that is not empty exists, belongs to the
    partition, and precedes every row of it. *)
Lemma winner_least (rows : list (Employee * Upload)) (k : string) :
  filter (has_key k) rows <> [] ->
  exists p, winner sort rows k = [p]
            /\ In p (filter (has_key k) rows)
            /\ forall p', In p' (filter (has_key k) rows) ->
                          p' = p \/ leb p p' = true.
Proof.
  intros Hne. unfold winner.
  pose proof (sort_perm (filter (has_key k) rows)) as Hp.
  pose proof (sort_sorted (filter (has_key k) rows)) as Hs.
  destruct (sort (filter (has_key k) rows)) as [|p l].
  - apply Permutation_sym, Permutation_nil in Hp. contradiction.
  - exists p. split; [reflexivity|]. split.
    + apply (Permutation_in _ (Permutation_sym Hp)). now left.
    + intros p' Hp'. apply (Permutation_in _ Hp) in Hp'.
      destruct Hp' as [<- | Hin]; [now left|right].
      apply StronglySorted_inv in Hs. destruct Hs as [_ Hall].
      rewrite Forall_forall in Hall. now apply Hall.
Qed.

End Window.

Lemma row_number_over_In
    (sort : list (Employee * Upload) -> list (Employee * Upload))
    (rows : list (Employee * Upload)) (r : (Employee * Upload) * Z) :
  (forall l, Permutation l (sort l)) ->
  In r (row_number_over sort rows) -> In (fst r) rows.
Proof.
  intros Hperm H. unfold row_number_over in H.
  apply in_flat_map in H. destruct H as (k & _ & H).
  unfold number_rows in H. destruct r as [p n].
  apply in_combine_l in H.
  apply (Permutation_in _ (Permutation_sym (Hperm _))) in H.
  now apply filter_In in H.
Qed.

Lemma filter_comm {A} (f g : A -> bool) (l : list A) :
  filter f (filter g l) = filter g (filter f l).
Proof.
  induction l as [|x l IH]; [reflexivity|].
  simpl. destruct (f x) eqn:Ef, (g x) eqn:Eg; simpl;
    rewrite ?Ef, ?Eg, IH; reflexivity.
Qed.

Lemma latest_of_key (db : Database) (fo fm : option string) (k : string) :
  filter (fun ed => String.eqb (identity_key ed) k) (latest db fo fm)
  = map fst (winner LatestSort.sort (joined db fo fm) k).
Proof.
  unfold latest, latest_rows, ranked.
  rewrite filter_of_map. f_equal.
  apply (first_rank_of_key LatestSort.sort LatestSort.Permuted_sort).
Qed.

Lemma earliest_of_key (db : Database) (fo fm : option string) (k : string) :
  filter (fun ed => String.eqb (identity_key ed) k)
         (earliest_join_records db fo fm)
  = map fst
        (winner JoinedFirstSort.sort
                (filter (fun p => doj_not_null (fst p)) (joined db fo fm)) k).
Proof.
  unfold earliest_join_records, joined_first.
  rewrite (filter_ext_in
             (fun r => (snd r =? 1) && doj_not_null (fst (fst r)))
             (fun r => snd r =? 1)).
  - rewrite <- (map_map fst fst), filter_of_map. f_equal.
    apply (first_rank_of_key JoinedFirstSort.sort JoinedFirstSort.Permuted_sort).
  - intros r Hr.
    apply (row_number_over_In _ _ _ JoinedFirstSort.Permuted_sort) in Hr.
    apply filter_In in Hr. destruct Hr as [_ ->]. apply andb_true_r.
Qed.

(** C1: with record ids and upload ids unique, for every scope and every
    identity key: when the scope holds records of the identity, [latest]
    holds exactly one of them, the one of the most recent upload, the
    greatest record id deciding between uploads of the same instant; when
    some of them have a DOJ, [earliest_join] holds exactly one of those,
    the one with the lowest DOJ, the lowest record id deciding between equal
    DOJs; and a view holds no record of an identity that has none to
    choose from. *)
Theorem identity_resolution (db : Database) (filter_org filter_month : option string)
    (k : string) :
  NoDup (map id (employees db)) -> NoDup (map upload_id (uploads db)) ->
  let of_identity ed := String.eqb (identity_key ed) k in
  let rows := filter (has_key k) (joined db filter_org filter_month) in
  let dated := filter (fun p => doj_not_null (fst p)) rows in
  (rows <> [] ->
   exists p,
     In p rows
     /\ filter of_identity (latest db filter_org filter_month) = [fst p]
     /\ forall p', In p' rows -> p' <> p ->
          uploadedAt (snd p') < uploadedAt (snd p)
          \/ (uploadedAt (snd p') = uploadedAt (snd p)
              /\ id (fst p') < id (fst p)))
  /\ (rows = [] -> filter of_identity (latest db filter_org filter_month) = [])
  /\ (dated <> [] ->
      exists p d,
        In p dated /\ DOJ (fst p) = Some d
        /\ filter of_identity (earliest_join_records db filter_org filter_month)
           = [fst p]
        /\ forall p' d', In p' dated -> p' <> p -> DOJ (fst p') = Some d' ->
             date_lt d d' \/ (d = d' /\ id (fst p) < id (fst p')))
  /\ (dated = [] ->
      filter of_identity (earliest_join_records db filter_org filter_month) = []).
Proof.
  intros Hids Hups of_identity rows dated.
  assert (Hdated : dated
                   = filter (has_key k)
                       (filter (fun p => doj_not_null (fst p))
                               (joined db filter_org filter_month)))
    by apply filter_comm.
  assert (Hperm_nil :
            forall sort : list (Employee * Upload) -> list (Employee * Upload),
              (forall l, Permutation l (sort l)) -> sort [] = []).
  { intros sort Hp. now apply Permutation_nil, Hp. }
  split; [|split; [|split]].
  - intros Hne.
    destruct (winner_least latest_leb LatestSort.sort LatestSort.Permuted_sort
                (fun l => LatestSort.StronglySorted_sort l latest_leb_trans)
                (joined db filter_org filter_month) k Hne)
      as (p & Hw & Hin & Hleast).
    exists p. split; [exact Hin|]. split.
    + unfold of_identity. now rewrite latest_of_key, Hw.
    + intros p' Hin' Hdiff.
      destruct (Hleast p' Hin') as [-> | Hleb]; [contradiction|].
      unfold latest_leb in Hleb.
      rewrite orb_true_iff, andb_true_iff, Z.ltb_lt, Z.eqb_eq, Z.leb_le in Hleb.
      destruct Hleb as [Hlt | [Heq Hle]]; [now left|right].
      split; [now symmetry|].
      destruct (Z.eq_dec (id (fst p')) (id (fst p))) as [Hid | Hid]; [|lia].
      exfalso. apply Hdiff.
      apply filter_In in Hin, Hin'. destruct Hin as [Hin _], Hin' as [Hin' _].
      eapply joined_same_id; eassumption.
  - intros He. unfold of_identity. rewrite latest_of_key. unfold winner.
    fold rows. rewrite He, (Hperm_nil _ LatestSort.Permuted_sort). reflexivity.
  - intros Hne. rewrite Hdated in Hne.
    destruct (winner_least joined_first_leb JoinedFirstSort.sort
                JoinedFirstSort.Permuted_sort
                (fun l => JoinedFirstSort.StronglySorted_sort l joined_first_leb_trans)
                _ k Hne)
      as (p & Hw & Hin & Hleast).
    rewrite <- Hdated in Hin, Hleast.
    assert (Hdoj : forall q, In q dated -> exists d, DOJ (fst q) = Some d).
    { intros q Hq. apply filter_In in Hq. destruct Hq as [_ Hq].
      unfold doj_not_null in Hq. destruct (DOJ (fst q)) as [d|]; [|discriminate].
      now exists d. }
    destruct (Hdoj p Hin) as (d & Hd).
    exists p, d. split; [exact Hin|]. split; [exact Hd|]. split.
    + unfold of_identity. now rewrite earliest_of_key, Hw.
    + intros p' d' Hin' Hdiff Hd'.
      destruct (Hleast p' Hin') as [-> | Hleb]; [contradiction|].
      unfold joined_first_leb, doj_ltb in Hleb. rewrite Hd, Hd' in Hleb.
      destruct (date_ltb_spec d d') as [Hlt | Hnlt]; [now left|right].
      cbn [orb] in Hleb. rewrite andb_true_iff, negb_true_iff, Z.leb_le in Hleb.
      destruct Hleb as [Hnlt' Hle].
      assert (Hdd : d = d').
      { destruct (date_ltb d d') eqn:E;
          [apply date_ltb_lt in E; contradiction|].
        destruct (date_ltb_total d d' E Hnlt') as (Hy & Hm & Hday).
        now apply date_eq_fields. }
      split; [exact Hdd|].
      destruct (Z.eq_dec (id (fst p)) (id (fst p'))) as [Hid | Hid]; [|lia].
      exfalso. apply Hdiff. symmetry.
      apply filter_In in Hin, Hin'. destruct Hin as [Hin _], Hin' as [Hin' _].
      apply filter_In in Hin, Hin'. destruct Hin as [Hin _], Hin' as [Hin' _].
      eapply joined_same_id; eassumption.
  - intros He. unfold of_identity. rewrite earliest_of_key. unfold winner.
    rewrite <- Hdated, He, (Hperm_nil _ JoinedFirstSort.Permuted_sort).
    reflexivity.
Qed.

(** ** Witnesses on a small organization *)

Lemma sample_db_unique_ids :
  NoDup (map id (employees sample_db))
  /\ NoDup (map upload_id (uploads sample_db)).
Proof.
  split; repeat constructor; simpl; intuition discriminate.
Qed.

Lemma identity_resolution_witness :
  exists p,
    In p (filter (has_key "E1") (joined sample_db (Some "acme") None))
    /\ filter (fun ed => String.eqb (identity_key ed) "E1")
              (latest sample_db (Some "acme") None) = [fst p]
    /\ forall p',
         In p' (filter (has_key "E1") (joined sample_db (Some "acme") None)) ->
         p' <> p ->
         uploadedAt (snd p') < uploadedAt (snd p)
         \/ (uploadedAt (snd p') = uploadedAt (snd p)
             /\ id (fst p') < id (fst p)).
Proof.
  apply (identity_resolution sample_db (Some "acme") None "E1"
           (proj1 sample_db_unique_ids) (proj2 sample_db_unique_ids)).
  discriminate.
Defined.

(** The end-to-end scenario of the specification: one employee who joined
    on 2020-01-01 and never left; the monthly series from 2024-01-01 to
    2024-03-01 has three points, each with headcount 1, opening headcount 1
    and no ramp. *)
Lemma headcount_series_witness :
  manpower_sql monthly
    [sample_record 1 "u1" (Some "E1") None (Some (mkDate 2020 1 1)) None None None]
    [] (mkDate 2024 1 1) (mkDate 2024 3 1)
  = [ mkManpowerRow (mkDate 2024 1 1) 1 1 0 (Some 0%Q);
      mkManpowerRow (mkDate 2024 2 1) 1 1 0 (Some 0%Q);
      mkManpowerRow (mkDate 2024 3 1) 1 1 0 (Some 0%Q) ].
Proof.
  destruct (headcount_series monthly
              [sample_record 1 "u1" (Some "E1") None (Some (mkDate 2020 1 1))
                             None None None]
              [] (mkDate 2024 1 1) (mkDate 2024 3 1) eq_refl eq_refl)
    as (_ & _ & ->).
  - unfold date_le, date_lt; simpl; lia.
  - reflexivity.
Defined.


(** The fiscal year 2023-24 of the sample organization: one exit over an
    average headcount of 21/12. *)
Lemma attrition_pipeline_witness :
  let a := mkAttritionRow "FY24" None 1 2 1 12 21 in
  attritionPct (fun _ => None) (to_row a)
  = Ok (if Qeq_bool (21 / 12) 0 then 0 else 1 / (21 / 12))%Q.
Proof.
  intros a.
  apply (attrition_pipeline (fun _ => None) false
           (latest sample_db (Some "acme") None) [] (mkDate 2024 7 10)
           [ mkAttritionRow "FY22" None 1 1 0 12 12;
             mkAttritionRow "FY23" None 1 1 0 12 12;
             a;
             mkAttritionRow "YTD FY25" None 2 2 0 4 8 ] a).
  - reflexivity.
  - simpl. tauto.
  - reflexivity.
Defined.

(** * Further properties of the engine *)

(** ** The snapshot views as a whole *)

Lemma joined_scope (db : Database) (fo fm : option string) (p : Employee * Upload) :
  In p (joined db fo fm) ->
  org_clause fo (snd p) = true /\ month_clause fm (snd p) = true.
Proof.
  unfold joined. intros H. apply in_flat_map in H. destruct H as (ed & _ & H).
  apply in_map_iff in H. destruct H as (u & <- & Hu).
  apply filter_In in Hu. destruct Hu as [_ Hc].
  rewrite !andb_true_iff in Hc. tauto.
Qed.

Lemma winners_cover (leb : Employee * Upload -> Employee * Upload -> bool)
    (sort : list (Employee * Upload) -> list (Employee * Upload))
    (rows : list (Employee * Upload)) (keys : list string) :
  (forall l, Permutation l (sort l)) ->
  (forall l, StronglySorted (fun x y => is_true (leb x y)) (sort l)) ->
  (forall k, In k keys -> filter (has_key k) rows <> []) ->
  map (fun p => identity_key (fst p)) (flat_map (winner sort rows) keys) = keys.
Proof.
  intros Hperm Hsorted. induction keys as [|k ks IH]; intros Hne; [reflexivity|].
  cbn [flat_map]. rewrite map_app, IH by (intros; apply Hne; now right).
  destruct (winner_least leb sort Hperm Hsorted rows k (Hne k (or_introl eq_refl)))
    as (p & -> & Hin & _).
  apply filter_In in Hin. destruct Hin as [_ Hk].
  apply String.eqb_eq in Hk. cbn [map app]. now rewrite Hk.
Qed.

Lemma partition_keys_nonempty (rows : list (Employee * Upload)) (k : string) :
  In k (partition_keys rows) -> filter (has_key k) rows <> [].
Proof.
  unfold partition_keys. rewrite nodup_In, in_map_iff.
  intros (p & Hk & Hp) He.
  assert (Hin : In p (filter (has_key k) rows)).
  { apply filter_In. split; [exact Hp|]. unfold has_key. now apply String.eqb_eq. }
  rewrite He in Hin. destruct Hin.
Qed.

(** The [latest] view has exactly one row for each identity key that occurs
    in the scope, in the order the keys first occur, so no key repeats and
    the size of the view is the number of identities; [earliest_join] is
    the same for the records that have a DOJ, and every identity it holds
    is also in [latest]. *)
Theorem views_one_row_per_identity (db : Database)
    (filter_org filter_month : option string) :
  let rows := joined db filter_org filter_month in
  let dated := filter (fun p => doj_not_null (fst p)) rows in
  map identity_key (latest db filter_org filter_month) = partition_keys rows
  /\ NoDup (map identity_key (latest db filter_org filter_month))
  /\ map identity_key (earliest_join_records db filter_org filter_month)
     = partition_keys dated
  /\ incl (map identity_key (earliest_join_records db filter_org filter_month))
          (map identity_key (latest db filter_org filter_month)).
Proof.
  intros rows dated.
  assert (Hl : map identity_key (latest db filter_org filter_month)
               = partition_keys rows).
  { unfold latest, latest_rows, ranked.
    rewrite (rank_one_over LatestSort.sort), map_map.
    apply (winners_cover latest_leb LatestSort.sort _ _ LatestSort.Permuted_sort
             (fun l => LatestSort.StronglySorted_sort l latest_leb_trans)).
    apply partition_keys_nonempty. }
  assert (He : map identity_key (earliest_join_records db filter_org filter_month)
               = partition_keys dated).
  { unfold earliest_join_records, joined_first.
    rewrite (filter_ext_in
               (fun r => (snd r =? 1) && doj_not_null (fst (fst r)))
               (fun r => snd r =? 1)).
    - rewrite <- (map_map fst fst), (rank_one_over JoinedFirstSort.sort), map_map.
      apply (winners_cover joined_first_leb JoinedFirstSort.sort _ _
               JoinedFirstSort.Permuted_sort
               (fun l => JoinedFirstSort.StronglySorted_sort l joined_first_leb_trans)).
      apply partition_keys_nonempty.
    - intros r Hr.
      apply (row_number_over_In _ _ _ JoinedFirstSort.Permuted_sort) in Hr.
      apply filter_In in Hr. destruct Hr as [_ ->]. apply andb_true_r. }
  split; [exact Hl|]. split; [rewrite Hl; apply NoDup_nodup|].
  split; [exact He|].
  rewrite Hl, He. intros k Hk. unfold partition_keys in *.
  apply nodup_In in Hk. apply nodup_In.
  apply in_map_iff in Hk. destruct Hk as (p & Hk & Hp).
  apply filter_In in Hp. apply in_map_iff. exists p. tauto.
Qed.

(** A view scoped to an organization (and month) holds only records of
    uploads of that organization (and month): no record of another
    organization is ever selected. *)
Theorem latest_within_scope (db : Database) (organization : string)
    (filter_month : option string) :
  Forall (fun ed =>
            In ed (employees db)
            /\ exists u, In u (uploads db)
                         /\ upload_id u = uploadId ed
                         /\ organizationId u = organization
                         /\ month_clause filter_month u = true)
         (latest db (Some organization) filter_month)
  /\ Forall (fun ed =>
               In ed (employees db) /\ DOJ ed <> None
               /\ exists u, In u (uploads db)
                            /\ upload_id u = uploadId ed
                            /\ organizationId u = organization
                            /\ month_clause filter_month u = true)
            (earliest_join_records db (Some organization) filter_month).
Proof.
  split; apply Forall_forall; intros ed Hed.
  - unfold latest, latest_rows, ranked in Hed.
    apply in_map_iff in Hed. destruct Hed as (p & <- & Hp).
    apply in_map_iff in Hp. destruct Hp as (r & <- & Hr).
    apply filter_In in Hr. destruct Hr as [Hr _].
    apply (row_number_over_In _ _ _ LatestSort.Permuted_sort) in Hr.
    destruct (joined_In _ _ _ _ Hr) as (He & Hu & Hj).
    destruct (joined_scope _ _ _ _ Hr) as (Ho & Hm).
    split; [exact He|]. exists (snd (fst r)).
    simpl in Ho. apply String.eqb_eq in Ho. auto.
  - unfold earliest_join_records, joined_first in Hed.
    apply in_map_iff in Hed. destruct Hed as (r & <- & Hr).
    apply filter_In in Hr. destruct Hr as [Hr _].
    apply (row_number_over_In _ _ _ JoinedFirstSort.Permuted_sort) in Hr.
    apply filter_In in Hr. destruct Hr as [Hr Hd].
    destruct (joined_In _ _ _ _ Hr) as (He & Hu & Hj).
    destruct (joined_scope _ _ _ _ Hr) as (Ho & Hm).
    split; [exact He|]. split.
    { unfold doj_not_null in Hd. destruct (DOJ (fst (fst r))); congruence. }
    exists (snd (fst r)).
    simpl in Ho. apply String.eqb_eq in Ho. auto.
Qed.

(** ** The scope of a request *)

Lemma most_recent_upload_from (l : list Upload) (best : option Upload) :
  match fold_left
          (fun best u =>
             match best with
             | None => Some u
             | Some b => if uploadedAt b <? uploadedAt u then Some u else Some b
             end)
          l best
  with
  | Some r =>
      (In r l \/ best = Some r)
      /\ (forall u, In u l -> uploadedAt u <= uploadedAt r)
      /\ (forall b, best = Some b -> uploadedAt b <= uploadedAt r)
  | None => l = [] /\ best = None
  end.
Proof.
  revert best. induction l as [|x l IH]; intros best.
  - simpl. destruct best as [b|]; [|auto].
    split; [now right|]. split; [intros u []|]. intros b' [= <-]. lia.
  - cbn [fold_left].
    set (best' := match best with
                  | None => Some x
                  | Some b => if uploadedAt b <? uploadedAt x then Some x else Some b
                  end).
    specialize (IH best').
    destruct (fold_left _ l best') as [r|].
    + destruct IH as (Hin & Hmax & Hbest).
      assert (Hx : uploadedAt x <= uploadedAt r).
      { unfold best' in Hbest. destruct best as [b|].
        - destruct (Z.ltb_spec (uploadedAt b) (uploadedAt x)).
          + now apply Hbest.
          + specialize (Hbest b eq_refl). lia.
        - now apply Hbest. }
      split; [|split].
      * destruct Hin as [Hin | Hin]; [left; now right|].
        unfold best' in Hin. destruct best as [b|].
        -- destruct (uploadedAt b <? uploadedAt x); injection Hin as <-;
             [left; now left|now right].
        -- injection Hin as <-. left; now left.
      * intros u [<- | Hu]; [exact Hx|now apply Hmax].
      * intros b ->. unfold best' in Hbest.
        destruct (Z.ltb_spec (uploadedAt b) (uploadedAt x)).
        -- specialize (Hbest x eq_refl). lia.
        -- now apply Hbest.
    + destruct IH as [_ Hb]. unfold best' in Hb.
      destruct best as [b|]; [destruct (uploadedAt b <? uploadedAt x)|];
        discriminate.
Qed.

(** A request that names an organization and no month never fails: it is
    scoped to the month of an upload of that organization than which no
    upload of the organization with a month is more recent, and to no month
    at all when the organization has no upload with a month; the month key
    echoed is the key of that month when a DashboardMonth carries it. *)
Theorem resolve_scope_by_organization (db : Database) (c : ascii) (name : string) :
  let organization := String c name in
  exists sc,
    _resolve_org_month_scope db (Some organization) None = Ok sc
    /\ _resolve_org_month_scope db (Some organization) (Some "") = Ok sc
    /\ org_id sc = Some organization
    /\ match dashboard_month_id sc with
       | Some m =>
           (exists u, In u (uploads db)
                      /\ organizationId u = organization
                      /\ dashboardMonthId u = Some m
                      /\ forall u', In u' (uploads db) ->
                                    organizationId u' = organization ->
                                    dashboardMonthId u' <> None ->
                                    uploadedAt u' <= uploadedAt u)
           /\ match resolved_month_key sc with
              | Some key => exists dm, In dm (dashboard_months db)
                                       /\ dm_id dm = m /\ monthKey dm = key
              | None => forall dm, In dm (dashboard_months db) -> dm_id dm <> m
              end
       | None =>
           resolved_month_key sc = None
           /\ forall u, In u (uploads db) -> organizationId u = organization ->
                        dashboardMonthId u = None
       end.
Proof.
  intros organization. subst organization.
  unfold _resolve_org_month_scope. cbn [str_or_none].
  set (organization := String c name).
  set (mine := filter (fun u => String.eqb (organizationId u) organization
                                && match dashboardMonthId u with
                                   | Some _ => true
                                   | None => false
                                   end) (uploads db)).
  pose proof (most_recent_upload_from mine None) as H.
  unfold most_recent_upload. destruct (fold_left _ mine None) as [u|].
  - destruct H as (Hin & Hmax & _).
    destruct Hin as [Hin | Hin]; [|discriminate].
    apply filter_In in Hin. destruct Hin as [Hu Hc].
    apply andb_true_iff in Hc. destruct Hc as [Ho Hm].
    apply String.eqb_eq in Ho.
    destruct (dashboardMonthId u) as [m|] eqn:Em; [|discriminate].
    eexists. split; [reflexivity|]. split; [reflexivity|].
    cbn [org_id dashboard_month_id resolved_month_key].
    split; [reflexivity|]. split.
    + exists u. repeat split; auto.
      intros u' Hu' Ho' Hm'. apply Hmax. apply filter_In. split; [exact Hu'|].
      apply andb_true_iff. split; [now apply String.eqb_eq|].
      destruct (dashboardMonthId u'); congruence.
    + destruct (find _ (dashboard_months db)) as [dm|] eqn:Ef; cbn [option_map].
      * apply find_some in Ef. destruct Ef as [Hdm Hid].
        apply String.eqb_eq in Hid. exists dm. auto.
      * intros dm Hdm Hid.
        apply (find_none _ _ Ef) in Hdm. apply String.eqb_neq in Hdm. congruence.
  - destruct H as [He _].
    eexists. split; [reflexivity|]. split; [reflexivity|].
    cbn [org_id dashboard_month_id resolved_month_key].
    split; [reflexivity|]. split; [reflexivity|].
    intros u Hu Ho.
    destruct (dashboardMonthId u) as [m|] eqn:Em; [|reflexivity].
    assert (Hin : In u mine).
    { apply filter_In. split; [exact Hu|]. rewrite Em.
      apply andb_true_iff. split; [now apply String.eqb_eq|reflexivity]. }
    rewrite He in Hin. destruct Hin.
Qed.


(** ** Floors, shifts and default windows *)

Lemma first_of_compare (d : date) (j : Z) :
  1 <= month d <= 12 -> 1 <= day d ->
  (date_lt d (first_of j) <-> month_index d < j)
  /\ (date_le (first_of j) d <-> j <= month_index d).
Proof.
  intros Hm Hd. unfold date_le, date_lt, first_of, month_index.
  cbn [year month day].
  pose proof (Z.div_mod j 12 ltac:(lia)).
  pose proof (Z.mod_pos_bound j 12 ltac:(lia)).
  lia.
Qed.

Lemma floor_is_date_trunc (g : granularity) (d : date) :
  valid_date d -> floor_funcs g d = Ok (date_trunc (grain_of g) d).
Proof.
  intros Hv. apply valid_date_fields in Hv. destruct Hv as (Hy & Hm & Hd).
  destruct g; cbn [floor_funcs grain_of date_trunc];
    unfold _month_floor, _quarter_floor, _year_floor, replace; cbn [or_else].
  - pose proof (days_in_month_bounds (year d) (month d)).
    apply py_date_ok; lia.
  - pose proof (Z.div_lt_upper_bound (month d - 1) 3 4 ltac:(lia) ltac:(lia)).
    pose proof (Z.div_pos (month d - 1) 3 ltac:(lia) ltac:(lia)).
    pose proof (days_in_month_bounds (year d) ((month d - 1) / 3 * 3 + 1)).
    apply py_date_ok; lia.
  - pose proof (days_in_month_bounds (year d) 1).
    apply py_date_ok; lia.
Qed.

Lemma date_trunc_valid (g : granularity) (d : date) :
  valid_date d ->
  valid_date (date_trunc (grain_of g) d) /\ day (date_trunc (grain_of g) d) = 1.
Proof.
  intros Hv.
  pose proof (floor_is_date_trunc g d Hv) as Hfloor.
  pose proof (proj1 (valid_date_fields d) Hv) as (_ & Hm & _).
  split; [|rewrite (date_trunc_first_of g d Hm); reflexivity].
  destruct g; cbn [grain_of date_trunc floor_funcs] in *;
    unfold _month_floor, _quarter_floor, _year_floor, replace, py_date in Hfloor;
    cbn [or_else] in Hfloor;
    match type of Hfloor with
    | (if ?c then _ else _) = _ => destruct c eqn:E; [exact E|discriminate]
    end.
Qed.

(** The floor of a date, monthly, quarterly or yearly, is what
    [date_trunc] gives in the queries; it is the first day of a bucket that
    contains the date, and flooring it again changes nothing. *)
Theorem floor_starts_the_bucket (g : granularity) (d : date) :
  valid_date d ->
  let f := date_trunc (grain_of g) d in
  floor_funcs g d = Ok f
  /\ valid_date f /\ day f = 1
  /\ date_le f d
  /\ date_lt d (pg_add_months f (step_months g))
  /\ floor_funcs g f = Ok f.
Proof.
  intros Hv f.
  pose proof (proj1 (valid_date_fields d) Hv) as (Hy & Hm & Hd).
  pose proof (step_months_pos g) as Hstep.
  assert (Hf : f = first_of (step_months g * (month_index d / step_months g)))
    by (apply date_trunc_first_of; exact Hm).
  pose proof (Z.mul_div_le (month_index d) (step_months g) ltac:(lia)) as Hlo.
  pose proof (Z.mul_succ_div_gt (month_index d) (step_months g) ltac:(lia)) as Hhi.
  assert (Hfloor : floor_funcs g d = Ok f) by now apply floor_is_date_trunc.
  assert (Hvf : valid_date f) by (apply date_trunc_valid; exact Hv).
  split; [exact Hfloor|]. split; [exact Hvf|].
  split; [rewrite Hf; reflexivity|].
  split; [rewrite Hf; apply first_of_compare; lia|].
  split.
  - rewrite Hf, add_months_first_of. apply first_of_compare; lia.
  - rewrite (floor_is_date_trunc g f Hvf). f_equal.
    pose proof (proj1 (valid_date_fields f) Hvf) as (_ & Hmf & _).
    rewrite (date_trunc_first_of g f Hmf).
    rewrite Hf at 2. f_equal.
    rewrite Hf, month_index_first_of.
    rewrite (Z.mul_comm (step_months g) (month_index d / step_months g)).
    rewrite Z.div_mul by lia. lia.
Qed.

Lemma floor_starts_the_bucket_witness :
  floor_funcs quarterly (mkDate 2024 8 17) = Ok (mkDate 2024 7 1)
  /\ date_lt (mkDate 2024 8 17) (mkDate 2024 10 1).
Proof.
  destruct (floor_starts_the_bucket quarterly (mkDate 2024 8 17) eq_refl)
    as (H1 & _ & _ & _ & H2 & _).
  split; [exact H1|exact H2].
Defined.

Lemma month_index_add_months (value : date) (months : Z) :
  month_index (pg_add_months value months) = month_index value + months.
Proof.
  set (t := month_index value + months).
  pose proof (Z.div_mod t 12 ltac:(lia)) as Hdm.
  change (pg_add_months value months)
    with (mkDate (t / 12) (t mod 12 + 1)
                 (Z.min (day value) (_days_in_month (t / 12) (t mod 12 + 1)))).
  unfold month_index. cbn [year month]. lia.
Qed.

Lemma shift_months_is_add_months (value : date) (months : Z) :
  valid_date value ->
  1 <= (month_index value + months) / 12 <= 9999 ->
  _shift_months value months = Ok (pg_add_months value months).
Proof.
  intros Hv Hy.
  pose proof (proj1 (valid_date_fields value) Hv) as (_ & Hm & Hd).
  set (t := month_index value + months) in *.
  pose proof (Z.mod_pos_bound t 12 ltac:(lia)) as Hr.
  pose proof (days_in_month_bounds (t / 12) (t mod 12 + 1)) as Hb.
  assert (Hyear : year value + (month value - 1 + months) / 12 = t / 12).
  { unfold t, month_index.
    replace (year value * 12 + (month value - 1) + months)
      with (month value - 1 + months + year value * 12) by lia.
    rewrite Z.div_add by lia. lia. }
  assert (Hmonth : (month value - 1 + months) mod 12 = t mod 12).
  { unfold t, month_index.
    replace (year value * 12 + (month value - 1) + months)
      with (month value - 1 + months + year value * 12) by lia.
    now rewrite Z.mod_add by lia. }
  unfold _shift_months, replace. cbn [or_else].
  rewrite Hyear, Hmonth.
  change (pg_add_months value months)
    with (mkDate (t / 12) (t mod 12 + 1)
                 (Z.min (day value) (_days_in_month (t / 12) (t mod 12 + 1)))).
  apply py_date_ok; lia.
Qed.

Lemma add_months_valid (value : date) (months : Z) :
  valid_date value ->
  1 <= (month_index value + months) / 12 <= 9999 ->
  valid_date (pg_add_months value months).
Proof.
  intros Hv Hy.
  pose proof (proj1 (valid_date_fields value) Hv) as (_ & Hm & Hd).
  set (t := month_index value + months) in *.
  pose proof (Z.mod_pos_bound t 12 ltac:(lia)) as Hr.
  pose proof (days_in_month_bounds (t / 12) (t mod 12 + 1)) as Hb.
  change (pg_add_months value months)
    with (mkDate (t / 12) (t mod 12 + 1)
                 (Z.min (day value) (_days_in_month (t / 12) (t mod 12 + 1)))).
  apply valid_date_fields. cbn [year month day]. lia.
Qed.

(** [_shift_months] lands in the month that many months away and keeps
    the day of the month unless that month is shorter, in which case it
    takes the month's last day; it is the month arithmetic of the queries
    ([date + interval]).  It needs the year reached to be one Python can
    represent. *)
Theorem shift_months_lands (value : date) (months : Z) :
  valid_date value ->
  1 <= (month_index value + months) / 12 <= 9999 ->
  let r := pg_add_months value months in
  _shift_months value months = Ok r
  /\ valid_date r
  /\ month_index r = month_index value + months
  /\ day r = Z.min (day value) (_days_in_month (year r) (month r)).
Proof.
  intros Hv Hy r.
  pose proof (proj1 (valid_date_fields value) Hv) as (_ & Hm & Hd).
  pose proof (shift_months_is_add_months value months Hv Hy) as Hshift.
  fold r in Hshift.
  split; [exact Hshift|]. split.
  - now apply add_months_valid.
  - split; [apply month_index_add_months|reflexivity].
Qed.

Lemma shift_months_lands_witness :
  _shift_months (mkDate 2024 1 31) 1 = Ok (mkDate 2024 2 29)
  /\ _shift_months (mkDate 2024 3 31) (-13) = Ok (mkDate 2023 2 28).
Proof.
  split.
  - apply (shift_months_lands (mkDate 2024 1 31) 1 eq_refl).
    vm_compute. split; discriminate.
  - apply (shift_months_lands (mkDate 2024 3 31) (-13) eq_refl).
    vm_compute. split; discriminate.
Defined.

(** The period with whatever bounds the request leaves out filled in. *)
Lemma resolve_period_defaults (today : date) (g : granularity) :
  valid_date today -> 10 <= year today ->
  let e := date_trunc (grain_of g) today in
  let s := pg_add_months e (- default_lookback g) in
  month_index s = month_index e - default_lookback g
  /\ forall start end_,
       _resolve_period today g start end_
       = if date_ltb (or_else end_ e) (or_else start s)
         then Raise (HTTPException 400 "End date must be after start date.")
         else Ok (mkPeriod (or_else start s) (or_else end_ e)).
Proof.
  intros Hv Hy e s.
  pose proof (floor_is_date_trunc g today Hv) as Hf.
  destruct (date_trunc_valid g today Hv) as (Hve & Hd).
  fold e in Hf, Hve, Hd.
  pose proof (proj1 (valid_date_fields today) Hv) as (Hyr & _ & _).
  pose proof (proj1 (valid_date_fields e) Hve) as (_ & Hme & _).
  assert (Hye : year e = year today) by (unfold e; destruct g; reflexivity).
  assert (Hidx : month_index e = year e * 12 + (month e - 1)) by reflexivity.
  assert (Hrange : 1 <= (month_index e + - default_lookback g) / 12 <= 9999).
  { split.
    - apply Z.div_le_lower_bound; [lia|]. destruct g; simpl; lia.
    - apply Z.div_le_upper_bound; [lia|]. destruct g; simpl; lia. }
  pose proof (shift_months_is_add_months e (- default_lookback g) Hve Hrange)
    as Hshift.
  pose proof (month_index_add_months e (- default_lookback g)) as Hms.
  fold s in Hshift, Hms.
  split; [lia|].
  assert (Hsd : match g with
                | monthly => _shift_months e (step_lookup g)
                | quarterly => _shift_months e (step_lookup g * 3)
                | yearly => replace e (Some (year e + step_lookup g)) None None
                end = Ok s).
  { destruct g; exact Hshift. }
  intros start end_. unfold _resolve_period.
  rewrite Hf. cbn [bind]. rewrite Hsd. cbn [bind]. reflexivity.
Qed.

(** A request without bounds never fails: the window ends at the floor of
    today and starts 11 months, 45 months or 9 years earlier, so a series
    over it has 12 monthly, 16 quarterly or 10 yearly points. *)
Theorem default_window (today : date) (g : granularity) :
  valid_date today -> 10 <= year today ->
  let e := date_trunc (grain_of g) today in
  let s := pg_add_months e (- default_lookback g) in
  _resolve_period today g None None = Ok (mkPeriod s e)
  /\ date_le s e
  /\ date_trunc (grain_of g) s = s
  /\ (month_index e - month_index s) / step_months g + 1
     = match g with monthly => 12 | quarterly => 16 | yearly => 10 end.
Proof.
  intros Hv Hy e s.
  destruct (resolve_period_defaults today g Hv Hy) as (Hms & Hres).
  fold e s in Hms, Hres.
  destruct (date_trunc_valid g today Hv) as (Hve & Hd).
  fold e in Hve, Hd.
  pose proof (proj1 (valid_date_fields e) Hve) as (_ & Hme & _).
  assert (He : e = first_of (month_index e)) by (symmetry; now apply first_of_month_index).
  assert (Hs : s = first_of (month_index e - default_lookback g)).
  { unfold s. rewrite He at 1. now rewrite add_months_first_of. }
  assert (Hle : date_le s e).
  { rewrite Hs. apply first_of_compare; [exact Hme|lia|].
    destruct g; cbn [default_lookback]; lia. }
  split.
  { rewrite (Hres None None). cbn [or_else].
    apply date_leb_le in Hle. unfold date_leb in Hle.
    apply negb_true_iff in Hle. now rewrite Hle. }
  split; [exact Hle|]. split.
  - assert (Hmod : exists q, month_index e = step_months g * q).
    { exists (month_index today / step_months g).
      pose proof (proj1 (valid_date_fields today) Hv) as (_ & Hmt & _).
      unfold e. rewrite (date_trunc_first_of g today Hmt).
      apply month_index_first_of. }
    destruct Hmod as (q & Hq).
    assert (Hms' : 1 <= month s <= 12).
    { rewrite Hs. unfold first_of. cbn [month].
      pose proof (Z.mod_pos_bound (month_index e - default_lookback g) 12 ltac:(lia)).
      lia. }
    rewrite (date_trunc_first_of g s Hms'), Hms, Hs. f_equal.
    rewrite Hq. destruct g; cbn [step_months default_lookback].
    + rewrite Z.div_1_r. lia.
    + replace (3 * q - 45) with ((q - 15) * 3) by lia.
      rewrite Z.div_mul by lia. lia.
    + replace (12 * q - 108) with ((q - 9) * 12) by lia.
      rewrite Z.div_mul by lia. lia.
  - rewrite Hms.
    replace (month_index e - (month_index e - default_lookback g))
      with (default_lookback g) by lia.
    destruct g; reflexivity.
Qed.

Lemma default_window_witness :
  _resolve_period (mkDate 2026 11 4) quarterly None None
  = Ok (mkPeriod (mkDate 2023 1 1) (mkDate 2026 10 1)).
Proof.
  apply (default_window (mkDate 2026 11 4) quarterly eq_refl).
  simpl. lia.
Defined.

(** A request with only one bound is checked against the default for the
    other: a lone start after the floor of today fails with InvalidRange,
    as does a lone end before the default start; otherwise the bound given
    is kept and the default completes the window. *)
Theorem lone_bound (today : date) (g : granularity) (bound : date) :
  valid_date today -> 10 <= year today ->
  let e := date_trunc (grain_of g) today in
  let s := pg_add_months e (- default_lookback g) in
  (date_lt e bound ->
   _resolve_period today g (Some bound) None
   = Raise (HTTPException InvalidRange "End date must be after start date."))
  /\ (date_le bound e ->
      _resolve_period today g (Some bound) None = Ok (mkPeriod bound e))
  /\ (date_lt bound s ->
      _resolve_period today g None (Some bound)
      = Raise (HTTPException InvalidRange "End date must be after start date."))
  /\ (date_le s bound ->
      _resolve_period today g None (Some bound) = Ok (mkPeriod s bound)).
Proof.
  intros Hv Hy e s.
  destruct (resolve_period_defaults today g Hv Hy) as (_ & Hres).
  fold e s in Hres. rewrite !Hres. cbn [or_else].
  repeat split; intros H.
  - apply date_ltb_lt in H. now rewrite H.
  - apply date_leb_le in H. unfold date_leb in H.
    apply negb_true_iff in H. now rewrite H.
  - apply date_ltb_lt in H. now rewrite H.
  - apply date_leb_le in H. unfold date_leb in H.
    apply negb_true_iff in H. now rewrite H.
Qed.

Lemma lone_bound_witness :
  _resolve_period (mkDate 2026 11 4) monthly (Some (mkDate 2026 11 2)) None
  = Raise (HTTPException InvalidRange "End date must be after start date.").
Proof.
  apply (lone_bound (mkDate 2026 11 4) monthly (mkDate 2026 11 2) eq_refl).
  - simpl. lia.
  - unfold date_lt. simpl. lia.
Defined.

(** ** Month labels and temporary passwords *)

Lemma lstrip_keeps_last (m : list ascii) (c : ascii) :
  is_space c = false -> exists m', lstrip (m ++ [c]) = m' ++ [c].
Proof.
  intros Hc. induction m as [|a m IH]; cbn [app lstrip].
  - rewrite Hc. now exists [].
  - destruct (is_space a); [exact IH|]. now exists (a :: m).
Qed.

Lemma py_int_first_char (s : string) (n : Z) :
  py_int s = Some n ->
  exists c rest,
    s = String c rest
    /\ (is_space c = true \/ c = "+"%char \/ c = "-"%char \/ digit_val c <> None).
Proof.
  unfold py_int. destruct s as [|c rest]; [discriminate|].
  intros H. exists c, rest. split; [reflexivity|].
  destruct (is_space c) eqn:Hs; [now left|right].
  unfold strip in H. cbn [list_ascii_of_string lstrip] in H. rewrite Hs in H.
  cbn [rev] in H.
  destruct (lstrip_keeps_last (rev (list_ascii_of_string rest)) c Hs) as (m' & Hm).
  rewrite Hm, rev_app_distr in H. cbn [rev app] in H.
  destruct (Ascii.eqb_spec c "-"%char) as [-> | _]; [auto|].
  destruct (Ascii.eqb_spec c "+"%char) as [-> | _]; [auto|].
  right; right. cbn [digits] in H.
  destruct (digit_val c); [discriminate|].
  rewrite andb_false_r in H. discriminate.
Qed.

Lemma split_once_head (sep : ascii) (key a b : string) (c : ascii) (rest : string) :
  split_once sep key = Some (a, b) -> a = String c rest ->
  exists key', key = String c key'.
Proof.
  destruct key as [|k key']; [discriminate|]. cbn [split_once].
  destruct (Ascii.eqb k sep); [intros [= <- _]; discriminate|].
  destruct (split_once sep key') as [[x y]|]; [|discriminate].
  intros [= <- _] [= -> _]. now exists key'.
Qed.

Lemma month_name_initial (month : Z) :
  1 <= month <= 12 ->
  exists c rest,
    nth (Z.to_nat (month - 1)) month_names "" = String c rest
    /\ is_space c = false /\ c <> "+"%char /\ c <> "-"%char
    /\ digit_val c = None.
Proof.
  intros Hm.
  assert (H : month = 1 \/ month = 2 \/ month = 3 \/ month = 4 \/ month = 5
              \/ month = 6 \/ month = 7 \/ month = 8 \/ month = 9
              \/ month = 10 \/ month = 11 \/ month = 12) by lia.
  repeat (destruct H as [-> | H];
          [eexists; eexists; split; [reflexivity|];
           repeat split; try reflexivity; discriminate|]).
  subst month. eexists; eexists; split; [reflexivity|].
  repeat split; try reflexivity; discriminate.
Qed.

(** [_format_month_label] never fails and agrees with the month-key parser:
    it hands the key back unchanged exactly for the keys
    [_month_range_from_key] rejects with status 400, and for a key that
    resolves to a month it gives the English month name, a space and the
    year. *)
Theorem month_label_agrees_with_parser (key : string) :
  (_format_month_label key = key
   <-> exists detail,
         _month_range_from_key key = Raise (HTTPException 400 detail))
  /\ (forall first last,
        _month_range_from_key key = Ok (first, last) ->
        _format_month_label key
        = (nth (Z.to_nat (month first - 1)) month_names "" ++ " "
           ++ py_str_int (year first))%string).
Proof.
  unfold _format_month_label, _month_range_from_key.
  destruct (split_once "-"%char key) as [[ys ms]|] eqn:Es;
    [|split; [split; eauto|discriminate]].
  destruct (py_int ys) as [y|] eqn:Ey; [|split; [split; eauto|discriminate]].
  destruct (py_int ms) as [m|] eqn:Em; [|split; [split; eauto|discriminate]].
  destruct ((m <? 1) || (12 <? m)) eqn:Er; [split; [split; eauto|discriminate]|].
  apply orb_false_iff in Er. rewrite !Z.ltb_ge in Er.
  split.
  - split.
    + intros Hlabel. exfalso.
      destruct (py_int_first_char ys y Ey) as (c & rest & Hys & Hc).
      destruct (split_once_head _ _ _ _ _ _ Es Hys) as (key' & Hkey).
      destruct (month_name_initial m ltac:(lia)) as (c' & rest' & Hn & H1 & H2 & H3 & H4).
      rewrite Hn, Hkey in Hlabel. cbn [append] in Hlabel.
      injection Hlabel as Hcc _. subst c'.
      destruct Hc as [Hc | [Hc | [Hc | Hc]]]; congruence.
    + intros (detail & H).
      destruct (py_date y m 1) as [d1|e1] eqn:E1; cbn [bind] in H.
      * destruct (py_date y m (monthrange_days y m)) as [d2|e2] eqn:E2;
          cbn [bind] in H; [discriminate|].
        unfold py_date in E2. destruct (valid_dateb _); [discriminate|].
        injection E2 as <-. discriminate.
      * unfold py_date in E1. destruct (valid_dateb _); [discriminate|].
        injection E1 as <-. discriminate.
  - intros first last H.
    unfold py_date in H.
    destruct (valid_dateb (mkDate y m 1)); cbn [bind] in H; [|discriminate].
    destruct (valid_dateb (mkDate y m (monthrange_days y m))); cbn [bind] in H;
      [|discriminate].
    injection H as <- _. reflexivity.
Qed.

Lemma length_string_of_list_ascii (l : list ascii) :
  String.length (string_of_list_ascii l) = List.length l.
Proof. induction l as [|c l IH]; simpl; congruence. Qed.

(** A temporary password has exactly the length asked for (none for a
    length that is not positive) and consists of ASCII letters and digits
    only, whatever the random source yields. *)
Theorem temp_password_shape (draws : nat -> nat) (length : Z) :
  let password := _generate_temp_password draws length in
  String.length password = Z.to_nat length
  /\ Forall (fun c => In c alphabet) (list_ascii_of_string password)
  /\ Forall (fun c => let n := nat_of_ascii c in
                      (48 <= n <= 57 \/ 65 <= n <= 90 \/ 97 <= n <= 122)%nat)
            (list_ascii_of_string password)
  /\ (length <= 0 -> password = "").
Proof.
  intros password. unfold password, _generate_temp_password.
  assert (Hin : Forall (fun c => In c alphabet)
                  (map (fun i => choice alphabet (draws i))
                       (seq 0 (Z.to_nat length)))).
  { apply Forall_forall. intros c Hc. apply in_map_iff in Hc.
    destruct Hc as (i & <- & _). unfold choice. apply nth_In.
    apply Nat.mod_upper_bound. discriminate. }
  split; [now rewrite length_string_of_list_ascii, length_map, length_seq|].
  rewrite list_ascii_of_string_of_list_ascii.
  split; [exact Hin|]. split.
  - eapply Forall_impl; [|exact Hin]. intros c Hc.
    unfold alphabet in Hc. cbn [list_ascii_of_string] in Hc.
    repeat (destruct Hc as [<- | Hc]; [cbn; lia|]). destruct Hc.
  - intros Hn. replace (Z.to_nat length) with 0%nat by lia. reflexivity.
Qed.

(** ** Hires and exits *)

Lemma date_eqb_eq (a b : date) : date_eqb a b = true <-> a = b.
Proof.
  unfold date_eqb. rewrite !andb_true_iff, !Z.eqb_eq. split.
  - intros [[Hy Hm] Hd]. now apply date_eq_fields.
  - now intros ->.
Qed.

Lemma count_cons {A} (c : A -> bool) (x : A) (l : list A) :
  count c (x :: l) = (if c x then 1 else 0) + count c l.
Proof.
  unfold count. cbn [filter]. destruct (c x); cbn [List.length]; lia.
Qed.

Lemma count_ext {A} (c c' : A -> bool) (l : list A) :
  (forall x, In x l -> c x = c' x) -> count c l = count c' l.
Proof.
  intros H. unfold count. now rewrite (filter_ext_in c c' l H).
Qed.

Lemma Zsum_map_add {A} (f g : A -> Z) (l : list A) :
  Zsum (map (fun k => f k + g k) l) = Zsum (map f l) + Zsum (map g l).
Proof.
  induction l as [|x l IH]; [reflexivity|].
  cbn [map Zsum fold_right] in *. unfold Zsum in IH. lia.
Qed.

Lemma Zsum_map_zero {A} (l : list A) : Zsum (map (fun _ => 0) l) = 0.
Proof. induction l as [|x l IH]; [reflexivity|]. cbn [map Zsum fold_right] in *. unfold Zsum in IH. lia. Qed.

Lemma one_bucket_matches (t : date) (ks : list date) :
  NoDup ks ->
  Zsum (map (fun k => if date_eqb t k then 1 else 0) ks)
  = if existsb (date_eqb t) ks then 1 else 0.
Proof.
  induction ks as [|k ks IH]; intros Hnd; [reflexivity|].
  apply NoDup_cons_iff in Hnd. destruct Hnd as [Hnot Hnd].
  cbn [map existsb]. change (Zsum (?a :: ?l)) with (a + Zsum l).
  rewrite (IH Hnd).
  destruct (date_eqb t k) eqn:E; cbn [orb]; [|lia].
  apply date_eqb_eq in E. subst k.
  destruct (existsb (date_eqb t) ks) eqn:Ex; [|lia].
  apply existsb_exists in Ex. destruct Ex as (k & Hk & Hkt).
  apply date_eqb_eq in Hkt. subst k. contradiction.
Qed.

(** Counting per bucket and adding up is counting the records whose date
    falls in one of the buckets: no record is counted twice. *)
Lemma bucket_sum {A} (g : granularity) (when_ : A -> option date)
    (c : A -> bool) (ks : list date) (l : list A) :
  NoDup ks ->
  Zsum (map (fun k => count (fun x => falls_in g k (when_ x) && c x) l) ks)
  = count (fun x =>
             match when_ x with
             | Some d => existsb (date_eqb (date_trunc (grain_of g) d)) ks
             | None => false
             end && c x) l.
Proof.
  intros Hnd. induction l as [|x l IH].
  - unfold count. cbn [filter List.length]. apply Zsum_map_zero.
  - rewrite count_cons, <- IH.
    rewrite (map_ext _ (fun k => (if falls_in g k (when_ x) && c x then 1 else 0)
                                 + count (fun y => falls_in g k (when_ y) && c y) l))
      by (intros k; apply (count_cons (fun y => falls_in g k (when_ y) && c y))).
    rewrite Zsum_map_add. f_equal.
    destruct (c x).
    + unfold falls_in. destruct (when_ x) as [d|].
      * rewrite andb_true_r.
        rewrite (map_ext _ (fun k => if date_eqb (date_trunc (grain_of g) d) k
                                     then 1 else 0))
          by (intros k; now rewrite andb_true_r).
        now apply one_bucket_matches.
      * cbn [andb]. apply Zsum_map_zero.
    + rewrite andb_false_r.
      rewrite (map_ext _ (fun _ => 0)) by (intros k; now rewrite andb_false_r).
      apply Zsum_map_zero.
Qed.

Lemma first_of_injective (i j : Z) : first_of i = first_of j -> i = j.
Proof.
  intros H. rewrite <- (month_index_first_of i), <- (month_index_first_of j).
  now rewrite H.
Qed.

(** The bucket starts of a window, and which dates fall in one of them. *)
Lemma window_buckets (g : granularity) (start end_ : date) :
  valid_date start -> valid_date end_ -> date_le start end_ ->
  let series := generate_series (date_trunc (grain_of g) start)
                                (date_trunc (grain_of g) end_) (step_months g) in
  NoDup series
  /\ forall d, valid_date d ->
       existsb (date_eqb (date_trunc (grain_of g) d)) series
       = date_leb (date_trunc (grain_of g) start) d
         && date_ltb d (pg_add_months (date_trunc (grain_of g) end_)
                                      (step_months g)).
Proof.
  intros Hvs Hve Hle series.
  pose proof (proj1 (valid_date_fields start) Hvs) as (_ & Hms & _).
  pose proof (proj1 (valid_date_fields end_) Hve) as (_ & Hme & _).
  pose proof (step_months_pos g) as Hstep.
  set (step := step_months g) in *.
  set (a := month_index start / step).
  set (b := month_index end_ / step).
  assert (Hab : a <= b).
  { apply Z.div_le_mono; [lia|]. now apply month_index_mono. }
  assert (Hseries : series
                    = map (fun k => first_of (step * a + Z.of_nat k * step))
                          (seq 0 (Z.to_nat (b - a + 1)))).
  { unfold series. rewrite (date_trunc_first_of g start Hms),
      (date_trunc_first_of g end_ Hme).
    fold step a b. unfold generate_series. rewrite !month_index_first_of.
    apply generate_series_from_spec; nia. }
  split.
  - rewrite Hseries. apply Injective_map_NoDup; [|apply seq_NoDup].
    intros i j Hij. apply first_of_injective in Hij. nia.
  - intros d Hvd.
    pose proof (proj1 (valid_date_fields d) Hvd) as (_ & Hmd & Hdd).
    rewrite Hseries, (date_trunc_first_of g d Hmd),
      (date_trunc_first_of g start Hms), (date_trunc_first_of g end_ Hme),
      add_months_first_of.
    fold step a b. set (q := month_index d / step).
    pose proof (Z.mul_div_le (month_index d) step ltac:(lia)) as Hlo.
    pose proof (Z.mul_succ_div_gt (month_index d) step ltac:(lia)) as Hhi.
    fold q in Hlo, Hhi.
    destruct (first_of_compare d (step * a) Hmd ltac:(lia)) as [_ Hge].
    destruct (first_of_compare d (step * b + step) Hmd ltac:(lia)) as [Hlt _].
    apply eq_iff_eq_true.
    rewrite andb_true_iff, date_leb_le, date_ltb_lt, Hge, Hlt, existsb_exists.
    split.
    + intros (p & Hp & Heq). apply in_map_iff in Hp.
      destruct Hp as (k & <- & Hk). apply in_seq in Hk.
      apply date_eqb_eq, first_of_injective in Heq.
      assert (Hq : q = a + Z.of_nat k) by nia.
      assert (step * a <= step * q) by (apply Z.mul_le_mono_nonneg_l; lia).
      assert (step * Z.succ q <= step * (b + 1))
        by (apply Z.mul_le_mono_nonneg_l; lia).
      lia.
    + intros [H1 H2].
      assert (Haq : a <= q).
      { destruct (Z.le_gt_cases a q) as [|Hgt]; [assumption|].
        assert (step * Z.succ q <= step * a)
          by (apply Z.mul_le_mono_nonneg_l; lia). lia. }
      assert (Hqb : q <= b).
      { destruct (Z.le_gt_cases q b) as [|Hgt]; [assumption|].
        assert (step * (b + 1) <= step * q)
          by (apply Z.mul_le_mono_nonneg_l; lia). lia. }
      exists (first_of (step * q)). split.
      * apply in_map_iff. exists (Z.to_nat (q - a)). split.
        -- f_equal. rewrite Z2Nat.id by lia. lia.
        -- apply in_seq. lia.
      * now apply date_eqb_eq.
Qed.

(** Over a window start <= end, with the dates in the views valid: the
    hires of the buckets add up to the number of identities whose first
    joining date lies in the window's buckets, and the exits to the number
    whose last working day does; nobody is counted in two buckets, and a
    date outside the buckets is counted in none. *)
Theorem hires_and_exits_add_up (g : granularity)
    (earliest_join : list JoinedFirstRow) (latest : list Employee)
    (entities : list string) (start end_ : date) :
  valid_date start -> valid_date end_ -> date_le start end_ ->
  Forall (fun ej => forall d, jf_DOJ ej = Some d -> valid_date d) earliest_join ->
  Forall (fun ed => forall d, final_lwd ed = Some d -> valid_date d) latest ->
  let rows := hires_sql g earliest_join latest entities start end_ in
  let opening := date_trunc (grain_of g) start in
  let closing := pg_add_months (date_trunc (grain_of g) end_) (step_months g) in
  let within (x : option date) :=
    match x with
    | Some d => date_leb opening d && date_ltb d closing
    | None => false
    end in
  Zsum (map hires rows)
  = count (fun ej => within (jf_DOJ ej) && entity_clause_join entities ej)
          earliest_join
  /\ Zsum (map exits rows)
     = count (fun ed => within (final_lwd ed) && entity_clause entities ed) latest.
Proof.
  intros Hvs Hve Hle Hej Hlatest rows opening closing within.
  destruct (window_buckets g start end_ Hvs Hve Hle) as (Hnd & Hmem).
  unfold rows, hires_sql. rewrite !map_map. cbn [hires exits].
  rewrite Forall_forall in Hej, Hlatest.
  split.
  - unfold is_hire. rewrite (bucket_sum g jf_DOJ _ _ _ Hnd).
    apply count_ext. intros ej Hin. unfold within.
    destruct (jf_DOJ ej) as [d|] eqn:Ed; [|reflexivity].
    now rewrite Hmem by (apply (Hej ej Hin); exact Ed).
  - rewrite (map_ext _ (fun k => count (fun ed => falls_in g k (final_lwd ed)
                                                  && entity_clause entities ed)
                                       latest)).
    + rewrite (bucket_sum g final_lwd _ _ _ Hnd).
      apply count_ext. intros ed Hin. unfold within.
      destruct (final_lwd ed) as [d|] eqn:Ed; [|reflexivity].
      now rewrite Hmem by (apply (Hlatest ed Hin); exact Ed).
    + intros k. apply count_ext. intros ed _. unfold is_exit, falls_in.
      destruct (final_lwd ed); reflexivity.
Qed.

Lemma hires_and_exits_add_up_witness :
  let rows :=
    hires_sql monthly (earliest_join sample_db (Some "acme") None)
              (latest sample_db (Some "acme") None) []
              (mkDate 2024 1 10) (mkDate 2024 3 20) in
  List.length rows = 3%nat
  /\ Zsum (map hires rows) = 1 /\ Zsum (map exits rows) = 1.
Proof.
  intros rows. split; [reflexivity|].
  destruct (hires_and_exits_add_up monthly
              (earliest_join sample_db (Some "acme") None)
              (latest sample_db (Some "acme") None) []
              (mkDate 2024 1 10) (mkDate 2024 3 20) eq_refl eq_refl)
    as [Hh He].
  - unfold date_le, date_lt. simpl. lia.
  - vm_compute earliest_join. repeat constructor; intros d [= <-]; reflexivity.
  - vm_compute latest.
    repeat constructor; intros d H; try discriminate H;
      injection H as <-; reflexivity.
  - fold rows in Hh, He. split; [rewrite Hh|rewrite He]; reflexivity.
Defined.

(** ** Ramp of the headcount series *)

Lemma count_mono {A} (c c' : A -> bool) (l : list A) :
  (forall x, In x l -> c x = true -> c' x = true) -> count c l <= count c' l.
Proof.
  induction l as [|x l IH]; intros H; [reflexivity|].
  rewrite !count_cons.
  assert (IH' : count c l <= count c' l)
    by (apply IH; intros y Hy; apply H; now right).
  specialize (H x (or_introl eq_refl)).
  destruct (c x), (c' x); try lia; discriminate (H eq_refl).
Qed.

Lemma date_le_trans (a b c : date) : date_le a b -> date_le b c -> date_le a c.
Proof. unfold date_le, date_lt. lia. Qed.

(** The series seen through month indices: the rows of a window whose
    first bucket has index [s0]. *)
Lemma headcount_series_indexed (g : granularity) (latest : list Employee)
    (entities : list string) (start end_ : date) :
  valid_date start -> valid_date end_ -> date_le start end_ ->
  let step := step_months g in
  let hc := headcount_at latest entities step in
  exists (s0 : Z) (n : nat),
    date_trunc (grain_of g) start = first_of s0
    /\ date_trunc (grain_of g) end_ = first_of (s0 + Z.of_nat n * step)
    /\ map (fun r => (period_start r, headcount r, opening_headcount r, ramp_change r))
           (manpower_sql g latest entities start end_)
       = map (fun k =>
                let h := hc (first_of (s0 + Z.of_nat k * step)) in
                let o := hc (first_of (s0 + (Z.of_nat k - 1) * step)) in
                (first_of (s0 + Z.of_nat k * step), h, o, h - o))
             (seq 0 (S n)).
Proof.
  intros Hvs Hve Hle step hc.
  pose proof (proj1 (valid_date_fields start) Hvs) as (_ & Hms & _).
  pose proof (proj1 (valid_date_fields end_) Hve) as (_ & Hme & _).
  pose proof (step_months_pos g) as Hstep. fold step in Hstep.
  set (a := month_index start / step).
  set (b := month_index end_ / step).
  assert (Hab : a <= b).
  { apply Z.div_le_mono; [lia|]. now apply month_index_mono. }
  pose proof (date_trunc_first_of g start Hms) as Hsp.
  pose proof (date_trunc_first_of g end_ Hme) as Hep.
  fold step a in Hsp. fold step b in Hep.
  exists (step * a), (Z.to_nat (b - a)).
  split; [exact Hsp|]. split.
  { rewrite Hep. f_equal. rewrite Z2Nat.id by lia. lia. }
  replace (S (Z.to_nat (b - a))) with (Z.to_nat (b - a) + 1)%nat by lia.
  set (m := (Z.to_nat (b - a) + 1)%nat).
  unfold manpower_sql. fold step hc.
  rewrite Hsp, Hep, add_months_first_of. unfold generate_series.
  rewrite !month_index_first_of.
  set (n := Z.to_nat (b - a + 2)).
  rewrite (generate_series_from_spec step ltac:(lia) (step * b) n);
    [|unfold n; nia|right; unfold n; nia|unfold n; nia].
  rewrite lag_series, filter_of_map.
  replace n with (S m) by (unfold n, m; lia).
  cbn [seq filter fst].
  rewrite first_of_leb.
  destruct (Z.leb_spec (step * a) (step * a + - step + Z.of_nat 0 * step));
    [lia|].
  rewrite filter_all.
  - rewrite <- seq_shift, !map_map. apply map_ext. intros k.
    cbn [Nat.eqb pred output_row or_else period_start headcount
         opening_headcount ramp_change].
    replace (step * a + - step + Z.of_nat (S k) * step)
      with (step * a + Z.of_nat k * step) by lia.
    replace (step * a + - step + Z.of_nat k * step)
      with (step * a + (Z.of_nat k - 1) * step) by lia.
    reflexivity.
  - intros k Hk. apply in_seq in Hk. rewrite first_of_leb.
    apply Z.leb_le. nia.
Qed.

(** While no exit is recorded, the headcount never goes down from one
    bucket to the next: every ramp_change of the series is non-negative. *)
Theorem ramp_never_negative_without_exits (g : granularity)
    (latest : list Employee) (entities : list string) (start end_ : date) :
  valid_date start -> valid_date end_ -> date_le start end_ ->
  Forall (fun ed => final_lwd ed = None) latest ->
  Forall (fun r => 0 <= ramp_change r /\ opening_headcount r <= headcount r)
         (manpower_sql g latest entities start end_).
Proof.
  intros Hvs Hve Hle Hno.
  destruct (headcount_series_indexed g latest entities start end_ Hvs Hve Hle)
    as (s0 & n & _ & _ & Hrows).
  pose proof (step_months_pos g) as Hstep.
  assert (Hall : Forall (fun q : date * Z * Z * Z =>
                           0 <= snd q /\ snd (fst q) <= snd (fst (fst q)))
                   (map (fun r => (period_start r, headcount r,
                                   opening_headcount r, ramp_change r))
                        (manpower_sql g latest entities start end_))).
  { rewrite Hrows. apply Forall_forall. intros q Hq.
    apply in_map_iff in Hq. destruct Hq as (k & <- & _). cbn [fst snd].
    assert (Hmono : headcount_at latest entities (step_months g)
                      (first_of (s0 + (Z.of_nat k - 1) * step_months g))
                    <= headcount_at latest entities (step_months g)
                         (first_of (s0 + Z.of_nat k * step_months g))).
    { unfold headcount_at. apply count_mono. intros ed Hin.
      rewrite Forall_forall in Hno. unfold manpower_active.
      rewrite (Hno ed Hin). destruct (DOJ ed) as [doj|]; [|discriminate].
      rewrite !andb_true_iff, !date_leb_le. intros [[Hd _] He].
      repeat split; auto.
      eapply date_le_trans; [exact Hd|].
      apply date_leb_le. rewrite first_of_leb. apply Z.leb_le. nia. }
    lia. }
  rewrite Forall_map in Hall. exact Hall.
Qed.

Lemma ramp_never_negative_without_exits_witness :
  Forall (fun r => 0 <= ramp_change r /\ opening_headcount r <= headcount r)
         (manpower_sql quarterly
            [ sample_record 1 "u1" (Some "E1") None (Some (mkDate 2020 1 1)) None
                            None None;
              sample_record 5 "u1" (Some "E5") None (Some (mkDate 2024 1 20)) None
                            None None ]
            [] (mkDate 2023 11 5) (mkDate 2024 8 1)).
Proof.
  apply ramp_never_negative_without_exits; try reflexivity.
  - unfold date_le, date_lt. simpl. lia.
  - repeat constructor.
Defined.

Lemma Zsum_telescope (F : Z -> Z) (n : nat) :
  Zsum (map (fun k => F (Z.of_nat k) - F (Z.of_nat k - 1)) (seq 0 n))
  = F (Z.of_nat n - 1) - F (-1).
Proof.
  induction n as [|n IH]; [simpl; lia|].
  rewrite seq_S, map_app. cbn [map plus].
  assert (Happ : forall l x, Zsum (l ++ [x]) = Zsum l + x).
  { induction l as [|a l IHl]; intros x; cbn [app Zsum fold_right].
    - lia.
    - unfold Zsum in IHl. rewrite IHl. lia. }
  rewrite Happ, IH.
  replace (Z.of_nat (S n) - 1) with (Z.of_nat n) by lia. lia.
Qed.

(** Over a window start <= end the ramp changes of the series add up to
    the headcount of the last bucket minus the headcount of the bucket
    before the window, and every row has headcount = opening headcount +
    ramp_change. *)
Theorem ramp_changes_telescope (g : granularity) (latest : list Employee)
    (entities : list string) (start end_ : date) :
  valid_date start -> valid_date end_ -> date_le start end_ ->
  let step := step_months g in
  let hc := headcount_at latest entities step in
  let rows := manpower_sql g latest entities start end_ in
  Zsum (map ramp_change rows)
  = hc (date_trunc (grain_of g) end_)
    - hc (pg_add_months (date_trunc (grain_of g) start) (- step))
  /\ Forall (fun r => headcount r = opening_headcount r + ramp_change r) rows.
Proof.
  intros Hvs Hve Hle step hc rows.
  destruct (headcount_series_indexed g latest entities start end_ Hvs Hve Hle)
    as (s0 & n & Hsp & Hep & Hrows).
  fold step hc rows in Hrows, Hep.
  split.
  - rewrite Hsp, Hep, add_months_first_of.
    rewrite <- (map_map (fun r => (period_start r, headcount r,
                                   opening_headcount r, ramp_change r)) snd).
    rewrite Hrows, map_map. cbn [snd].
    rewrite (Zsum_telescope (fun i => hc (first_of (s0 + i * step))) (S n)).
    replace (Z.of_nat (S n) - 1) with (Z.of_nat n) by lia.
    replace (s0 + -1 * step) with (s0 + - step) by lia. reflexivity.
  - assert (Hall : Forall (fun q : date * Z * Z * Z =>
                             snd (fst (fst q)) = snd (fst q) + snd q)
                     (map (fun r => (period_start r, headcount r,
                                     opening_headcount r, ramp_change r)) rows)).
    { rewrite Hrows. apply Forall_forall. intros q Hq.
      apply in_map_iff in Hq. destruct Hq as (k & <- & _). cbn [fst snd]. lia. }
    rewrite Forall_map in Hall. exact Hall.
Qed.

Lemma ramp_changes_telescope_witness :
  Zsum (map ramp_change
            (manpower_sql monthly (latest sample_db (Some "acme") None) []
                          (mkDate 2024 1 1) (mkDate 2024 3 1)))
  = 0.
Proof.
  destruct (ramp_changes_telescope monthly (latest sample_db (Some "acme") None)
              [] (mkDate 2024 1 1) (mkDate 2024 3 1) eq_refl eq_refl)
    as [-> _].
  - unfold date_le, date_lt. simpl. lia.
  - reflexivity.
Defined.

(** ** Counts that split a population *)

Lemma Zsum_indicator {A} (c : A -> bool) (l : list A) :
  Zsum (map (fun x => if c x then 1 else 0) l) = count c l.
Proof.
  induction l as [|x l IH]; [reflexivity|].
  rewrite count_cons, <- IH. reflexivity.
Qed.

(** Counting per group and adding up is adding up, per record, the number
    of groups the record is in. *)
Lemma Zsum_count_exchange {A B} (p : B -> A -> bool) (ks : list B) (l : list A) :
  Zsum (map (fun k => count (p k) l) ks)
  = Zsum (map (fun x => count (fun k => p k x) ks) l).
Proof.
  induction l as [|x l IH].
  - cbn [map]. unfold count at 1. cbn [filter List.length].
    apply Zsum_map_zero.
  - cbn [map]. change (Zsum (?a :: ?r)) with (a + Zsum r). rewrite <- IH.
    rewrite (map_ext _ (fun k => (if p k x then 1 else 0) + count (p k) l))
      by (intros k; apply count_cons).
    rewrite Zsum_map_add, Zsum_indicator. reflexivity.
Qed.

(** Groups that hold every record of a kind once, and no other record,
    have counts that add up to the count of the kind. *)
Lemma partition_count {A B} (p : B -> A -> bool) (c : A -> bool)
    (ks : list B) (l : list A) :
  (forall x, In x l -> count (fun k => p k x) ks = if c x then 1 else 0) ->
  Zsum (map (fun k => count (p k) l) ks) = count c l.
Proof.
  intros H. rewrite Zsum_count_exchange, <- Zsum_indicator.
  f_equal. apply map_ext_in. exact H.
Qed.

Lemma Forall2_map_both {A B C} (R : B -> C -> Prop) (f : A -> B) (g : A -> C)
    (l : list A) :
  (forall x, In x l -> R (f x) (g x)) -> Forall2 R (map f l) (map g l).
Proof.
  induction l as [|x l IH]; intros H; [constructor|].
  cbn [map]. constructor.
  - apply H. now left.
  - apply IH. intros y Hy. apply H. now right.
Qed.

Lemma flat_map_singleton {A B} (f : A -> B) (l : list A) :
  flat_map (fun x => [f x]) l = map f l.
Proof.
  induction l as [|x l IH]; [reflexivity|]. cbn [flat_map map app]. now rewrite IH.
Qed.

(** ** Tenure buckets against the overall counts *)

Lemma buckets_split (base : Employee -> bool) (ref : Employee -> option date)
    (l : list Employee) :
  Zsum (map (fun b => count (bucket_clause base ref (snd (fst b)) (snd b)) l)
            buckets)
  = count base l.
Proof.
  apply partition_count. intros ed _.
  unfold bucket_clause.
  destruct (base ed); cbn [andb].
  - unfold count.
    pose proof (proj2 (one_bucket_per_months
                         (tenure_months_expr (ref ed) (DOJ ed))
                         (tenure_months_nonneg _ _))) as H.
    unfold in_bucket in H. rewrite H. reflexivity.
  - reflexivity.
Qed.

(** For every fiscal window the six tenure buckets split the overall
    counts of the attrition query: the opening headcounts of the buckets
    add up to the overall opening headcount, and so do the closing
    headcounts and the exits; the two queries return the same windows in
    the same order, and fail together. *)
Theorem tenure_buckets_add_up (latest : list Employee)
    (entities : list string) (cutoff : date) :
  match tenure_sql latest entities cutoff,
        attrition_sql false latest entities cutoff with
  | Ok tenure_rows, Ok overall_rows =>
      Forall2 (fun t a =>
                 get t "label" = PyStr (r_label a)
                 /\ get t "months_covered" = PyInt (r_months_covered a)
                 /\ columns_sum t "start_" bucket_keys = Some (r_headcount_start a)
                 /\ columns_sum t "end_" bucket_keys = Some (r_headcount_end a)
                 /\ columns_sum t "exits_" bucket_keys = Some (r_exits a))
              tenure_rows overall_rows
  | Raise e, Raise e' => e = e'
  | _, _ => False
  end.
Proof.
  unfold tenure_sql, attrition_sql.
  destruct (year_bounds cutoff) as [ybs|e]; cbn [bind]; [|reflexivity].
  set (population := filter (entity_clause entities) latest).
  unfold groups.
  destruct population as [|ed0 rest] eqn:Epop.
  - clear. induction ybs as [|y ybs IH]; [constructor|exact IH].
  - rewrite <- Epop.
    rewrite (flat_map_singleton (fun y => attrition_row y (None, population))).
    apply Forall2_map_both. intros y _.
    pose proof (buckets_split (start_condition y) (fun _ => Some (year_start y))
                              population) as Hs.
    pose proof (buckets_split (end_condition y) (fun _ => Some (year_end y))
                              population) as He.
    pose proof (buckets_split (exit_condition y) final_lwd population) as Hx.
    unfold buckets in Hs, He, Hx. cbn [map fst snd] in Hs, He, Hx.
    change (Zsum (?a :: ?r)) with (a + Zsum r) in Hs, He, Hx.
    change (Zsum []) with 0 in Hs, He, Hx.
    cbn [attrition_row r_label r_months_covered r_headcount_start
         r_headcount_end r_exits fst snd].
    rewrite <- Hs, <- He, <- Hx.
    repeat split.
Qed.

(** ** Fiscal windows of the attrition query, end to end *)

Lemma count_nonneg {A} (c : A -> bool) (l : list A) : 0 <= count c l.
Proof. unfold count. lia. Qed.

Lemma count_le_add {A} (c c1 c2 : A -> bool) (l : list A) :
  (forall x, In x l -> c x = true -> c1 x = true \/ c2 x = true) ->
  count c l <= count c1 l + count c2 l.
Proof.
  induction l as [|x l IH]; intros H; [reflexivity|].
  rewrite !count_cons.
  assert (IH' : count c l <= count c1 l + count c2 l)
    by (apply IH; intros y Hy; apply H; now right).
  specialize (H x (or_introl eq_refl)).
  destruct (c x), (c1 x), (c2 x); try lia;
    destruct (H eq_refl); discriminate.
Qed.

(** Whoever is on the rolls when a window opens and does not leave in it
    is on the rolls when it closes. *)
Lemma window_flow (y : YearBound) (l : list Employee) :
  date_le (year_start y) (year_end y) ->
  count (start_condition y) l
  <= count (end_condition y) l + count (exit_condition y) l.
Proof.
  intros Hle. apply count_le_add. intros ed _.
  unfold start_condition, end_condition, exit_condition.
  destruct (DOJ ed) as [doj|]; [|discriminate].
  rewrite andb_true_iff, date_ltb_lt. intros [Hdoj Hlwd].
  destruct (final_lwd ed) as [lwd|].
  - rewrite Hlwd. cbn [andb]. apply date_leb_le in Hlwd.
    destruct (date_ltb_spec lwd (year_end y)) as [Hlt|Hge]; [now right|left].
    rewrite andb_true_iff, date_ltb_lt, date_leb_le. split.
    + revert Hdoj Hle. unfold date_le, date_lt. lia.
    + revert Hge. unfold date_le, date_lt. lia.
  - left. rewrite andb_true_r. apply date_ltb_lt.
    revert Hdoj Hle. unfold date_le, date_lt. lia.
Qed.

(** The four windows of a cutoff: three whole fiscal years and the one the
    cutoff falls in, each starting where the one before it ends. *)
Lemma year_bounds_chain (cutoff : date) :
  valid_date cutoff -> 2 <= year cutoff ->
  let fy := fiscal_year_of cutoff in
  exists last,
    year_bounds cutoff
    = Ok [ mkYearBound (mkDate (fy - 3) 4 1) (mkDate (fy - 2) 4 1) (mkDate (fy - 2) 4 1) 12;
           mkYearBound (mkDate (fy - 2) 4 1) (mkDate (fy - 1) 4 1) (mkDate (fy - 1) 4 1) 12;
           mkYearBound (mkDate (fy - 1) 4 1) (mkDate fy 4 1) (mkDate fy 4 1) 12;
           last ]
    /\ year_start last = mkDate fy 4 1
    /\ date_le (year_start last) (year_end last).
Proof.
  intros Hv Hy fy.
  pose proof (proj1 (valid_date_fields cutoff) Hv) as (_ & Hm & Hd).
  destruct (next_day_fields cutoff Hv) as (Hnext & Hnm & Hnd).
  assert (Hstart : date_le (mkDate fy 4 1) cutoff)
    by (apply fiscal_year_start_le; lia).
  assert (Hle : date_lt (mkDate fy 4 1) (pg_next_day cutoff))
    by (eapply date_le_lt_trans; eassumption).
  assert (Hfull : forall offset, offset < 0 ->
            bounds_row (mkDate fy 4 1) cutoff offset
            = mkYearBound (mkDate (fy + offset) 4 1) (mkDate (fy + offset + 1) 4 1)
                          (mkDate (fy + offset + 1) 4 1) 12).
  { intros offset Ho. apply full_window; [reflexivity|].
    revert Hle. unfold date_le, date_lt. simpl. lia. }
  exists (bounds_row (mkDate fy 4 1) cutoff 0).
  split.
  { unfold year_bounds. rewrite current_fy_start_ok by exact Hy. fold fy.
    change (int_series (-3) 0) with [-3; -2; -1; 0].
    cbn [bind map].
    rewrite (Hfull (-3)), (Hfull (-2)), (Hfull (-1)) by lia.
    replace (fy + -3 + 1) with (fy - 2) by lia.
    replace (fy + -2 + 1) with (fy - 1) by lia.
    replace (fy + -1 + 1) with fy by lia.
    replace (fy + -3) with (fy - 3) by lia.
    replace (fy + -2) with (fy - 2) by lia.
    replace (fy + -1) with (fy - 1) by lia.
    reflexivity. }
  unfold bounds_row. cbn [year_start year_end].
  rewrite !add_years_april, least_spec.
  replace (fy + 0) with fy by lia.
  split; [reflexivity|].
  destruct (date_ltb (pg_next_day cutoff) (mkDate (fy + (0 + 1)) 4 1)).
  - now apply date_lt_le.
  - unfold date_le, date_lt. simpl. lia.
Qed.

(** Across the fiscal windows of a cutoff the overall attrition rows
    chain: the closing headcount of a window is the opening headcount of
    the next one.  In every row, overall or per entity, the opening
    headcount less the exits is at most the closing headcount.  A
    population without records gives no row at all. *)
Theorem attrition_windows_chain (latest : list Employee)
    (entities : list string) (cutoff : date) :
  valid_date cutoff -> 2 <= year cutoff ->
  (exists rows,
     attrition_sql false latest entities cutoff = Ok rows
     /\ match filter (entity_clause entities) latest with
        | [] => rows = []
        | _ =>
            exists a b c d,
              rows = [a; b; c; d]
              /\ r_headcount_end a = r_headcount_start b
              /\ r_headcount_end b = r_headcount_start c
              /\ r_headcount_end c = r_headcount_start d
        end)
  /\ forall by_entity,
       exists rows,
         attrition_sql by_entity latest entities cutoff = Ok rows
         /\ Forall (fun r =>
                      0 <= r_exits r
                      /\ r_headcount_start r - r_exits r <= r_headcount_end r)
                   rows.
Proof.
  intros Hv Hy.
  destruct (year_bounds_chain cutoff Hv Hy) as (last & Hyb & Hls & Hlle).
  set (fy := fiscal_year_of cutoff) in *.
  unfold attrition_sql. rewrite Hyb. cbn [bind].
  set (population := filter (entity_clause entities) latest).
  split.
  - eexists. split; [reflexivity|].
    unfold groups. destruct population as [|ed0 rest] eqn:Epop; [reflexivity|].
    rewrite <- Epop.
    rewrite (flat_map_singleton (fun y => attrition_row y (None, population))).
    cbn [map]. do 4 eexists. split; [reflexivity|].
    unfold attrition_row. cbn [r_headcount_end r_headcount_start snd].
    repeat split.
    unfold count. f_equal. f_equal. apply filter_ext. intros ed.
    unfold start_condition, end_condition. cbn [year_start year_end].
    now rewrite Hls.
  - intros by_entity. eexists. split; [reflexivity|].
    apply Forall_forall. intros r Hr.
    apply in_flat_map in Hr. destruct Hr as (y & Hyin & Hr).
    apply in_map_iff in Hr. destruct Hr as (grp & <- & _).
    unfold attrition_row. cbn [r_exits r_headcount_start r_headcount_end].
    split; [apply count_nonneg|].
    assert (Hle : date_le (year_start y) (year_end y)).
    { cbn [In] in Hyin.
      destruct Hyin as [<-|[<-|[<-|[<-|[]]]]]; try exact Hlle;
        unfold date_le, date_lt; cbn [year_start year_end year month day]; lia. }
    pose proof (window_flow y (snd grp) Hle). lia.
Qed.

Lemma attrition_windows_chain_witness :
  exists a b c d,
    attrition_sql false (latest sample_db (Some "acme") None) []
                  (mkDate 2024 7 10) = Ok [a; b; c; d]
    /\ r_headcount_end c = r_headcount_start d.
Proof.
  destruct (attrition_windows_chain (latest sample_db (Some "acme") None) []
              (mkDate 2024 7 10) eq_refl ltac:(simpl; lia))
    as [(rows & Hrows & Hchain) _].
  change (filter (entity_clause []) (latest sample_db (Some "acme") None))
    with (latest sample_db (Some "acme") None) in Hchain.
  vm_compute latest in Hchain.
  destruct Hchain as (a & b & c & d & -> & _ & _ & H).
  exists a, b, c, d. split; [exact Hrows|exact H].
Defined.

(** ** Bounds of the attrition rates *)

Lemma Zsum_nonneg (l : list Z) : Forall (fun z => 0 <= z) l -> 0 <= Zsum l.
Proof.
  induction 1 as [|z l Hz _ IH]; [reflexivity|].
  change (Zsum (z :: l)) with (z + Zsum l). lia.
Qed.

Lemma attrition_row_nonneg (y : YearBound) (grp : option string * list Employee) :
  let a := attrition_row y grp in
  0 <= r_headcount_start a /\ 0 <= r_headcount_end a /\ 0 <= r_exits a
  /\ (0 <= r_monthly_headcount_sum a)%Q.
Proof.
  cbn [attrition_row r_headcount_start r_headcount_end r_exits
       r_monthly_headcount_sum].
  repeat split; try apply count_nonneg.
  unfold monthly_summary.
  destruct (monthly_counts y (snd grp)) as [|m ms] eqn:E; [cbn [or_else]; apply Qle_refl|].
  cbn [or_else]. rewrite <- E.
  change 0%Q with (inject_Z 0). rewrite <- Zle_Qle.
  apply Zsum_nonneg. apply Forall_forall. intros z Hz.
  apply in_map_iff in Hz. destruct Hz as (r & <- & Hr).
  unfold monthly_counts in Hr. apply filter_In in Hr.
  destruct Hr as [_ Hr]. apply Z.ltb_lt in Hr. lia.
Qed.

Section RateBounds.

Variable float_of_str : string -> option Q.

(** Every row of the attrition query, overall or per entity, gets a rate
    without an error: the raw rate is not negative, annualizing never
    lowers it, and a window without exits has the rate 0. *)
Theorem attrition_rates_bounded (by_entity : bool) (latest : list Employee)
    (entities : list string) (cutoff : date) (rows : list AttritionRow)
    (a : AttritionRow) :
  attrition_sql by_entity latest entities cutoff = Ok rows ->
  In a rows ->
  exists raw pct,
    _attrition float_of_str (to_row a) "headcount_start" "headcount_end" "exits"
               (Some "monthly_headcount_sum") = Ok raw
    /\ attritionPct float_of_str (to_row a) = Ok pct
    /\ (0 <= raw)%Q /\ (raw <= pct)%Q
    /\ (r_exits a = 0 -> (pct == 0)%Q).
Proof.
  intros Hrows Hin.
  pose proof (attrition_sql_months_range _ _ _ _ _ Hrows a Hin) as Hm.
  assert (Hnn : 0 <= r_headcount_start a /\ 0 <= r_headcount_end a
                /\ 0 <= r_exits a /\ (0 <= r_monthly_headcount_sum a)%Q).
  { revert Hrows Hin. unfold attrition_sql.
    destruct (year_bounds cutoff) as [ybs|e]; [|discriminate].
    cbn [bind]. intros [= <-] Hin.
    apply in_flat_map in Hin. destruct Hin as (y & _ & Hin).
    apply in_map_iff in Hin. destruct Hin as (grp & <- & _).
    apply attrition_row_nonneg. }
  destruct Hnn as (Hs & He & Hx & Hsum).
  destruct (attrition_pipeline_row float_of_str a Hm)
    as (Hpos & _ & Hraw & Hpct & _).
  apply Qlt_bool_iff in Hpos.
  set (months := inject_Z (r_months_covered a)) in *.
  set (denominator :=
         if Qlt_bool 0 (r_monthly_headcount_sum a) && Qlt_bool 0 months
         then (r_monthly_headcount_sum a / months)%Q
         else ((inject_Z (r_headcount_start a) + inject_Z (r_headcount_end a)) / 2)%Q)
    in *.
  set (raw := if Qeq_bool denominator 0 then 0%Q
              else (inject_Z (r_exits a) / denominator)%Q) in *.
  assert (Hden : (0 <= denominator)%Q).
  { unfold denominator.
    destruct (Qlt_bool 0 (r_monthly_headcount_sum a) && Qlt_bool 0 months).
    - apply Qle_shift_div_l; [exact Hpos|]. now rewrite Qmult_0_l.
    - apply Qle_shift_div_l; [reflexivity|]. rewrite Qmult_0_l.
      rewrite <- inject_Z_plus. change 0%Q with (inject_Z 0).
      rewrite <- Zle_Qle. lia. }
  assert (Hexits : (0 <= inject_Z (r_exits a))%Q).
  { change 0%Q with (inject_Z 0). rewrite <- Zle_Qle. exact Hx. }
  assert (Hraw0 : (0 <= raw)%Q).
  { unfold raw. destruct (Qeq_bool denominator 0) eqn:E; [apply Qle_refl|].
    apply Qle_shift_div_l; [|now rewrite Qmult_0_l].
    apply Qle_lteq in Hden. destruct Hden as [Hlt|Heq]; [exact Hlt|].
    symmetry in Heq. apply Qeq_bool_iff in Heq. congruence. }
  exists raw. eexists. split; [exact Hraw|]. split; [exact Hpct|].
  split; [exact Hraw0|]. split.
  - destruct (Z.leb_spec 12 (r_months_covered a)); [apply Qle_refl|].
    rewrite <- (Qmult_1_r raw) at 1.
    rewrite !(Qmult_comm raw).
    apply Qmult_le_compat_r; [|exact Hraw0].
    apply Qle_shift_div_l; [exact Hpos|]. rewrite Qmult_1_l.
    unfold months. change 12%Q with (inject_Z 12). rewrite <- Zle_Qle. lia.
  - intros H0.
    assert (Hz : (raw == 0)%Q).
    { unfold raw. destruct (Qeq_bool denominator 0); [reflexivity|].
      rewrite H0. unfold Qdiv. apply Qmult_0_l. }
    destruct (12 <=? r_months_covered a); [exact Hz|].
    rewrite Hz. apply Qmult_0_l.
Qed.

End RateBounds.

Lemma attrition_rates_bounded_witness :
  let a := mkAttritionRow "FY24" None 1 2 1 12 21 in
  exists raw pct,
    _attrition (fun _ => None) (to_row a) "headcount_start" "headcount_end"
               "exits" (Some "monthly_headcount_sum") = Ok raw
    /\ attritionPct (fun _ => None) (to_row a) = Ok pct
    /\ (0 <= raw)%Q /\ (raw <= pct)%Q.
Proof.
  intros a.
  destruct (attrition_rates_bounded (fun _ => None) false
              (latest sample_db (Some "acme") None) [] (mkDate 2024 7 10)
              _ a eq_refl)
    as (raw & pct & H1 & H2 & H3 & H4 & _).
  - vm_compute. do 2 right. left. reflexivity.
  - exists raw, pct. tauto.
Defined.

(** ** Age bands and genders against the overall counts *)

Lemma groups_split (base c : Employee -> bool) (cs : list (Employee -> bool))
    (l : list Employee) :
  (forall x, count (fun f => f x) cs = if c x then 1 else 0) ->
  Zsum (map (fun f => count (fun ed => base ed && f ed) l) cs)
  = count (fun ed => base ed && c ed) l.
Proof.
  intros H.
  apply (partition_count (fun f ed => base ed && f ed)). intros ed _.
  destruct (base ed); cbn [andb].
  - apply H.
  - clear. induction cs as [|f cs IH]; [reflexivity|].
    rewrite count_cons, IH. reflexivity.
Qed.

Lemma one_age_band (ed : Employee) :
  count (fun f => f ed) (map snd (firstn 4 filters))
  = if of_age ed then 1 else 0.
Proof.
  unfold of_age, filters, Qlt_bool. cbn [firstn map snd].
  rewrite !count_cons. cbv beta.
  set (q := age_or_zero ed).
  assert (H30 : Qle_bool 30 q = true -> Qle_bool 20 q = true).
  { rewrite !Qle_bool_iff. apply Qle_trans. discriminate. }
  assert (H40 : Qle_bool 40 q = true -> Qle_bool 30 q = true).
  { rewrite !Qle_bool_iff. apply Qle_trans. discriminate. }
  assert (H50 : Qle_bool 50 q = true -> Qle_bool 40 q = true).
  { rewrite !Qle_bool_iff. apply Qle_trans. discriminate. }
  destruct (Qle_bool 50 q).
  { rewrite (H50 eq_refl) in *. rewrite (H40 eq_refl) in *.
    rewrite (H30 eq_refl). reflexivity. }
  destruct (Qle_bool 40 q).
  { rewrite (H40 eq_refl) in *. rewrite (H30 eq_refl). reflexivity. }
  destruct (Qle_bool 30 q).
  { rewrite (H30 eq_refl). reflexivity. }
  destruct (Qle_bool 20 q); reflexivity.
Qed.

Lemma one_gender (ed : Employee) :
  count (fun f => f ed) (map snd (skipn 4 filters))
  = if of_gender ed then 1 else 0.
Proof.
  unfold of_gender, filters. cbn [skipn map snd]. rewrite !count_cons.
  unfold is_male, is_female, ilike_prefix.
  destruct (gender ed) as [[|c s]|]; try reflexivity.
  destruct (Ascii.eqb_spec c "M"%char) as [->|]; [reflexivity|].
  destruct (Ascii.eqb_spec c "m"%char) as [->|]; [reflexivity|].
  cbn [orb]. destruct (Ascii.eqb c "F" || Ascii.eqb c "f")%char; reflexivity.
Qed.

Lemma part_within (base c : Employee -> bool) (l : list Employee) :
  0 <= count (fun ed => base ed && c ed) l <= count base l
  /\ (Forall (fun ed => c ed = true) l ->
      count (fun ed => base ed && c ed) l = count base l).
Proof.
  split; [split; [apply count_nonneg|]|].
  - apply count_mono. intros ed _. rewrite andb_true_iff. tauto.
  - intros Hall. apply count_ext. intros ed Hin.
    rewrite Forall_forall in Hall. rewrite (Hall ed Hin). apply andb_true_r.
Qed.

(** For every fiscal window, the four age bands and the two genders of the
    age and gender query are parts of the overall counts of the attrition
    query: no record is counted in two bands or under two genders, so the
    bands, and the genders, add up to at most the overall opening
    headcount, closing headcount and exits.  The bands add up to the
    overall counts when every record is 20 or older (a missing age counts
    as 0), the genders when every record has a gender that starts with M
    or F.  The two queries return the same windows and fail together. *)
Theorem age_and_gender_groups_within_overall (latest : list Employee)
    (entities : list string) (cutoff : date) :
  let population := filter (entity_clause entities) latest in
  match age_gender_sql latest entities cutoff,
        attrition_sql false latest entities cutoff with
  | Ok group_rows, Ok overall_rows =>
      Forall2 (fun t a =>
                 get t "label" = PyStr (r_label a)
                 /\ get t "months_covered" = PyInt (r_months_covered a)
                 /\ (forall keys, keys = age_keys \/ keys = gender_keys ->
                     within (r_headcount_start a) (columns_sum t "start_" keys)
                     /\ within (r_headcount_end a) (columns_sum t "end_" keys)
                     /\ within (r_exits a) (columns_sum t "exits_" keys))
                 /\ (forall keys covered,
                       (keys, covered) = (age_keys, of_age)
                       \/ (keys, covered) = (gender_keys, of_gender) ->
                       Forall (fun ed => covered ed = true) population ->
                       columns_sum t "start_" keys = Some (r_headcount_start a)
                       /\ columns_sum t "end_" keys = Some (r_headcount_end a)
                       /\ columns_sum t "exits_" keys = Some (r_exits a)))
              group_rows overall_rows
  | Raise e, Raise e' => e = e'
  | _, _ => False
  end.
Proof.
  intros population.
  unfold age_gender_sql, attrition_sql. fold population.
  destruct (year_bounds cutoff) as [ybs|e]; cbn [bind]; [|reflexivity].
  unfold groups.
  destruct population as [|ed0 rest] eqn:Epop.
  - clear. induction ybs as [|y ybs IH]; [constructor|exact IH].
  - rewrite <- Epop.
    rewrite (flat_map_singleton (fun y => attrition_row y (None, population))).
    apply Forall2_map_both. intros y _.
    cbn [attrition_row r_label r_months_covered r_headcount_start
         r_headcount_end r_exits fst snd].
    assert (Hsum : forall base,
              Zsum (map (fun f => count (fun ed => base ed && f ed) population)
                        (map snd (firstn 4 filters)))
              = count (fun ed => base ed && of_age ed) population
              /\ Zsum (map (fun f => count (fun ed => base ed && f ed) population)
                           (map snd (skipn 4 filters)))
                 = count (fun ed => base ed && of_gender ed) population).
    { intros base. split; apply groups_split; intros x;
        [apply one_age_band|apply one_gender]. }
    destruct (Hsum (start_condition y)) as [Hsa Hsg].
    destruct (Hsum (end_condition y)) as [Hea Heg].
    destruct (Hsum (exit_condition y)) as [Hxa Hxg].
    clear Hsum.
    unfold filters in Hsa, Hsg, Hea, Heg, Hxa, Hxg.
    cbn [firstn skipn map snd] in Hsa, Hsg, Hea, Heg, Hxa, Hxg.
    change (Zsum (?a :: ?r)) with (a + Zsum r) in Hsa, Hsg, Hea, Heg, Hxa, Hxg.
    change (Zsum []) with 0 in Hsa, Hsg, Hea, Heg, Hxa, Hxg.
    set (t := ("label", PyStr (label y)) :: _).
    assert (Ht : columns_sum t "start_" age_keys
                 = Some (count (fun ed => start_condition y ed && of_age ed) population)
                 /\ columns_sum t "end_" age_keys
                    = Some (count (fun ed => end_condition y ed && of_age ed) population)
                 /\ columns_sum t "exits_" age_keys
                    = Some (count (fun ed => exit_condition y ed && of_age ed) population)
                 /\ columns_sum t "start_" gender_keys
                    = Some (count (fun ed => start_condition y ed && of_gender ed) population)
                 /\ columns_sum t "end_" gender_keys
                    = Some (count (fun ed => end_condition y ed && of_gender ed) population)
                 /\ columns_sum t "exits_" gender_keys
                    = Some (count (fun ed => exit_condition y ed && of_gender ed) population)).
    { rewrite <- Hsa, <- Hea, <- Hxa, <- Hsg, <- Heg, <- Hxg. repeat split. }
    destruct Ht as (Ta & Tb & Tc & Td & Te & Tf).
    split; [reflexivity|]. split; [reflexivity|]. split.
    + intros keys [->| ->].
      * rewrite Ta, Tb, Tc. cbn [within].
        repeat split; apply part_within.
      * rewrite Td, Te, Tf. cbn [within].
        repeat split; apply part_within.
    + intros keys covered [[= -> ->]|[= -> ->]] Hall.
      * rewrite Ta, Tb, Tc.
        repeat split; f_equal; now apply part_within.
      * rewrite Td, Te, Tf.
        repeat split; f_equal; now apply part_within.
Qed.

(** ** Groups of a GROUP BY *)

Lemma count_filter {A} (p c : A -> bool) (l : list A) :
  count c (filter p l) = count (fun x => p x && c x) l.
Proof.
  induction l as [|x l IH]; [reflexivity|].
  cbn [filter]. rewrite (count_cons (fun y => p y && c y)).
  destruct (p x); cbn [andb]; [rewrite count_cons|]; lia.
Qed.

Lemma count_none {A} (c : A -> bool) (l : list A) :
  (forall x, In x l -> c x = false) -> count c l = 0.
Proof.
  induction l as [|x l IH]; intros H; [reflexivity|].
  rewrite count_cons, (H x (or_introl eq_refl)), IH; [reflexivity|].
  intros y Hy. apply H. now right.
Qed.

Lemma count_one {K} (eqb : K -> K -> bool) (a : K) (ks : list K) :
  (forall x y, eqb x y = true <-> x = y) ->
  NoDup ks -> In a ks -> count (eqb a) ks = 1.
Proof.
  intros Hspec Hnd. induction Hnd as [|k ks Hnot Hnd IH]; intros Hin; [destruct Hin|].
  rewrite count_cons.
  destruct (eqb a k) eqn:E.
  - apply Hspec in E. subst k.
    assert (Hz : count (eqb a) ks = 0).
    { apply count_none. intros x Hx. destruct (eqb a x) eqn:Ex; [|reflexivity].
      apply Hspec in Ex. subst x. contradiction. }
    lia.
  - destruct Hin as [->|Hin]; [|rewrite (IH Hin); lia].
    assert (eqb a a = true) by now apply Hspec. congruence.
Qed.

(** The groups of a key hold every record once: counting in each group
    and adding up is counting in the whole list. *)
Lemma group_by_partition {A K} (eqb : K -> K -> bool) (key : A -> K)
    (c : A -> bool) (ks : list K) (l : list A) :
  (forall x y, eqb x y = true <-> x = y) ->
  NoDup ks -> (forall x, In x l -> c x = true -> In (key x) ks) ->
  Zsum (map (fun k => count (fun x => eqb (key x) k && c x) l) ks) = count c l.
Proof.
  intros Hspec Hnd Hin.
  apply (partition_count (fun k x => eqb (key x) k && c x)). intros x Hx.
  destruct (c x) eqn:Ec.
  - rewrite (count_ext _ (eqb (key x))) by (intros k _; apply andb_true_r).
    apply count_one; auto.
  - rewrite (count_ext _ (fun _ => false)) by (intros k _; apply andb_false_r).
    now apply count_none.
Qed.

Lemma string_eqb_iff (x y : string) : String.eqb x y = true <-> x = y.
Proof. apply String.eqb_eq. Qed.

(** ** Attrition per entity against the overall rows *)

Lemma entity_groups_split (c : Employee -> bool) (population : list Employee) :
  Zsum (map (fun g => count c (snd g)) (groups true population))
  = count c population.
Proof.
  unfold groups. rewrite map_map. cbn [snd].
  rewrite (map_ext _ (fun e => count (fun ed => String.eqb (entity_expr ed) e && c ed)
                                     population))
    by (intros e; apply count_filter).
  apply group_by_partition.
  - exact string_eqb_iff.
  - apply NoDup_nodup.
  - intros ed Hin _. apply nodup_In. now apply in_map.
Qed.

(** For every fiscal window the per-entity rows of the attrition query
    split the overall row: there is one row per entity (a record without
    an entity goes under "Unspecified"), and their opening headcounts,
    closing headcounts and exits add up to those of the overall row of
    the window. *)
Theorem entity_rows_add_up (latest : list Employee) (entities : list string)
    (cutoff : date) :
  match attrition_sql true latest entities cutoff,
        attrition_sql false latest entities cutoff with
  | Ok entity_rows, Ok overall_rows =>
      exists chunks,
        entity_rows = List.concat chunks
        /\ Forall2 (fun chunk a =>
                      Forall (fun r =>
                                r_label r = r_label a
                                /\ r_months_covered r = r_months_covered a
                                /\ r_entity r <> None) chunk
                      /\ NoDup (map r_entity chunk)
                      /\ Zsum (map r_headcount_start chunk) = r_headcount_start a
                      /\ Zsum (map r_headcount_end chunk) = r_headcount_end a
                      /\ Zsum (map r_exits chunk) = r_exits a)
                   chunks overall_rows
  | Raise e, Raise e' => e = e'
  | _, _ => False
  end.
Proof.
  unfold attrition_sql.
  destruct (year_bounds cutoff) as [ybs|e]; cbn [bind]; [|reflexivity].
  set (population := filter (entity_clause entities) latest).
  destruct population as [|ed0 rest] eqn:Epop.
  - exists []. split; [|].
    + cbn [groups map nodup]. clear.
      induction ybs as [|y ybs IH]; [reflexivity|exact IH].
    + cbn [groups]. clear.
      induction ybs as [|y ybs IH]; [constructor|exact IH].
  - rewrite <- Epop.
    exists (map (fun y => map (attrition_row y) (groups true population)) ybs).
    split; [apply flat_map_concat_map|].
    replace (groups false population) with [(@None string, population)]
      by (rewrite Epop; reflexivity).
    rewrite (flat_map_singleton (fun y => attrition_row y (None, population))).
    apply Forall2_map_both. intros y _.
    cbn [attrition_row r_label r_months_covered r_headcount_start
         r_headcount_end r_exits snd].
    split.
    { apply Forall_forall. intros r Hr.
      apply in_map_iff in Hr. destruct Hr as (g & <- & Hg).
      cbn [attrition_row r_label r_months_covered r_entity].
      repeat split.
      unfold groups in Hg. apply in_map_iff in Hg.
      destruct Hg as (e & <- & _). discriminate. }
    split.
    { rewrite map_map. cbn [attrition_row r_entity].
      unfold groups. rewrite map_map. cbn [fst].
      apply Injective_map_NoDup; [|apply NoDup_nodup].
      intros a b [= ->]. reflexivity. }
    rewrite !map_map. cbn [attrition_row r_headcount_start r_headcount_end r_exits].
    repeat split; apply entity_groups_split.
Qed.

(** ** The work-level listing *)









(** ** Headcount by location *)





(** ** Password hashes *)

Lemma split_once_none (sep : ascii) (s : string) :
  occurrences sep s = 0%nat -> split_once sep s = None.
Proof.
  unfold occurrences. induction s as [|c s IH]; [reflexivity|].
  cbn [list_ascii_of_string filter split_once].
  rewrite (Ascii.eqb_sym c sep).
  destruct (Ascii.eqb sep c); [discriminate|].
  intros H. now rewrite (IH H).
Qed.

Lemma split_once_some (sep : ascii) (s a rest : string) :
  split_once sep s = Some (a, rest) ->
  occurrences sep s = S (occurrences sep rest).
Proof.
  unfold occurrences. revert a. induction s as [|c s IH]; intros a; [discriminate|].
  cbn [list_ascii_of_string filter split_once].
  rewrite (Ascii.eqb_sym c sep).
  destruct (Ascii.eqb sep c).
  - intros [= <- <-]. reflexivity.
  - destruct (split_once sep s) as [[a' b']|]; [|discriminate].
    intros [= <- <-]. now apply (IH a').
Qed.

Lemma split_once_append (sep : ascii) (a rest : string) :
  occurrences sep a = 0%nat ->
  split_once sep (a ++ String sep rest) = Some (a, rest).
Proof.
  unfold occurrences. induction a as [|c a IH].
  - intros _. cbn [String.append split_once]. now rewrite Ascii.eqb_refl.
  - cbn [list_ascii_of_string filter String.append split_once].
    rewrite (Ascii.eqb_sym c sep).
    destruct (Ascii.eqb sep c); [discriminate|].
    intros H. now rewrite (IH H).
Qed.

(** A text with fewer separators than [maxsplit] splits into one field
    more than it has separators. *)
Lemma split_max_length (sep : ascii) (n : nat) (s : string) :
  (occurrences sep s < n)%nat ->
  List.length (split_max sep n s) = S (occurrences sep s).
Proof.
  revert s. induction n as [|n IH]; intros s Hlt; [lia|].
  cbn [split_max].
  destruct (split_once sep s) as [[a rest]|] eqn:E.
  - pose proof (split_once_some _ _ _ _ E) as Ho.
    cbn [List.length]. rewrite IH by lia. lia.
  - destruct (occurrences sep s) eqn:Eo; [reflexivity|].
    exfalso. clear - E Eo. unfold occurrences in Eo.
    induction s as [|c s IHs]; [discriminate|].
    cbn [list_ascii_of_string filter split_once] in *.
    rewrite (Ascii.eqb_sym c sep) in E.
    destruct (Ascii.eqb sep c); [discriminate|].
    destruct (split_once sep s) as [[a b]|]; [discriminate|].
    now apply IHs.
Qed.

Section HashProperties.

Variable pbkdf2_hmac : string -> string -> Z -> result string.
Variable b64encode : string -> string.
Variable b64decode : string -> result string.

Lemma hashed_password_verifies (salt password derived : string) :
  password <> "" ->
  pbkdf2_hmac password salt PBKDF2_ITERATIONS = Ok derived ->
  b64decode (b64encode salt) = Ok salt ->
  b64decode (b64encode derived) = Ok derived ->
  occurrences "$" (b64encode salt) = 0%nat ->
  exists stored,
    hash_password pbkdf2_hmac b64encode salt password = Ok stored
    /\ forall other key,
         pbkdf2_hmac other salt PBKDF2_ITERATIONS = Ok key ->
         verify_password pbkdf2_hmac b64decode other stored
         = Ok (String.eqb key derived).
Proof.
  intros Hne Hkey Hsalt Hder Hdollar.
  unfold hash_password.
  destruct (String.eqb_spec password ""); [contradiction|].
  rewrite Hkey. cbn [bind]. eexists. split; [reflexivity|].
  assert (Hparse : parse_stored_hash b64decode
                     ("pbkdf2_sha256$" ++ py_str_int PBKDF2_ITERATIONS ++ "$"
                      ++ b64encode salt ++ "$" ++ b64encode derived)
                   = Ok (Some (PBKDF2_ITERATIONS, salt, derived))).
  { unfold parse_stored_hash.
    change (py_str_int PBKDF2_ITERATIONS) with "260000".
    change ("$" ++ b64encode derived)%string
      with (String "$" (b64encode derived)).
    cbn [String.append split_max split_once Ascii.eqb Bool.eqb].
    rewrite (split_once_append "$" (b64encode salt) (b64encode derived) Hdollar).
    cbn [split_max].
    change (py_int "260000") with (Some PBKDF2_ITERATIONS).
    cbn [String.eqb Ascii.eqb Bool.eqb negb].
    rewrite Hsalt, Hder. reflexivity. }
  unfold verify_password. rewrite Hparse.
  intros other key Hother. rewrite Hother. reflexivity.
Qed.

(** A password that was hashed verifies against its hash, and another
    password verifies exactly when it derives the same key: provided the
    key derivation succeeds, decoding undoes encoding on the salt and on
    the key, and the encoded salt has no [$] in it.  The empty password is
    refused, and a stored hash with fewer than three [$], a plain-text
    password for one, verifies for no password and raises nothing. *)
Theorem hash_then_verify (salt password derived : string) :
  password <> "" ->
  pbkdf2_hmac password salt PBKDF2_ITERATIONS = Ok derived ->
  b64decode (b64encode salt) = Ok salt ->
  b64decode (b64encode derived) = Ok derived ->
  occurrences "$" (b64encode salt) = 0%nat ->
  let hash := hash_password pbkdf2_hmac b64encode in
  let verify := verify_password pbkdf2_hmac b64decode in
  (exists stored,
     hash salt password = Ok stored
     /\ verify password stored = Ok true
     /\ (forall other key,
           pbkdf2_hmac other salt PBKDF2_ITERATIONS = Ok key ->
           verify other stored = Ok (String.eqb key derived)))
  /\ hash salt "" = Raise ValueError
  /\ (forall other stored,
        (occurrences "$" stored < 3)%nat -> verify other stored = Ok false).
Proof.
  intros Hne Hkey Hsalt Hder Hdollar hash verify.
  split; [|split].
  - destruct (hashed_password_verifies salt password derived
                Hne Hkey Hsalt Hder Hdollar) as (stored & Hhash & Hverify).
    exists stored. split; [exact Hhash|]. split; [|exact Hverify].
    unfold verify. rewrite (Hverify password derived Hkey).
    now rewrite String.eqb_refl.
  - reflexivity.
  - intros other stored Hfew. unfold verify, verify_password, parse_stored_hash.
    pose proof (split_max_length "$" 3 stored Hfew) as Hlen.
    destruct (split_max "$" 3 stored) as [|a [|b [|c [|d [|e l]]]]];
      cbn [List.length] in Hlen; try reflexivity; lia.
Qed.

End HashProperties.

Lemma hash_then_verify_witness :
  let pbkdf2_hmac := fun (password salt : string) (n : Z) =>
                       if n <? 1 then Raise ValueError
                       else Ok (salt ++ password)%string in
  let codec := fun s : string => s in
  hash_password pbkdf2_hmac codec "NaCl" "secret"
  = Ok "pbkdf2_sha256$260000$NaCl$NaClsecret"
  /\ verify_password pbkdf2_hmac (fun s => Ok (codec s)) "secret"
                     "pbkdf2_sha256$260000$NaCl$NaClsecret" = Ok true
  /\ verify_password pbkdf2_hmac (fun s => Ok (codec s)) "guess"
                     "pbkdf2_sha256$260000$NaCl$NaClsecret" = Ok false.
Proof.
  intros pbkdf2_hmac codec.
  destruct (hash_then_verify pbkdf2_hmac codec (fun s => Ok (codec s))
              "NaCl" "secret" "NaClsecret")
    as [(stored & Hhash & Hok & Hother) _];
    try reflexivity; try discriminate.
  assert (Hs : stored = "pbkdf2_sha256$260000$NaCl$NaClsecret").
  { vm_compute in Hhash. now injection Hhash as <-. }
  subst stored.
  split; [reflexivity|]. split; [exact Hok|].
  exact (Hother "guess" "NaClguess" eq_refl).
Defined.

(** ** Reset links and logins *)

Lemma find_map_same {A} (p : A -> bool) (f : A -> A) (l : list A) :
  (forall x, p (f x) = p x) -> find p (map f l) = option_map f (find p l).
Proof.
  intros H. induction l as [|x l IH]; [reflexivity|].
  cbn [map find]. rewrite H. destruct (p x); [reflexivity|exact IH].
Qed.

Lemma filter_none {A} (f : A -> bool) (l : list A) :
  Forall (fun x => f x = false) l -> filter f l = [].
Proof.
  induction 1 as [|x l Hx _ IH]; [reflexivity|].
  cbn [filter]. now rewrite Hx.
Qed.

Section AccountProperties.

Variable pbkdf2_hmac : string -> string -> Z -> result string.
Variable b64encode : string -> string.
Variable b64decode : string -> result string.
Variable lower : string -> string.

Lemma spent_after_reset (now changed later : Z)
    (salt token password : string) (db : Tables) :
  now <= later ->
  Forall (fun r => redeemable later token r = false)
         (password_reset_table
            (snd (reset_password pbkdf2_hmac b64encode now changed salt token
                                 password db))).
Proof.
  intros Hle.
  assert (Hkeep : forall r, redeemable now token r = false ->
                            redeemable later token r = false).
  { intros r. unfold redeemable.
    destruct (String.eqb (pr_token r) token); [|reflexivity].
    destruct (usedAt r); [reflexivity|]. cbn [andb].
    rewrite !Z.leb_gt. lia. }
  assert (Hmarked : Forall (fun r => redeemable later token r = false)
                      (map (fun r => if redeemable now token r
                                     then mark_used now r else r)
                           (password_reset_table db))).
  { apply Forall_forall. intros r Hr. apply in_map_iff in Hr.
    destruct Hr as (r0 & <- & _).
    destruct (redeemable now token r0) eqn:E; [|now apply Hkeep].
    unfold redeemable, mark_used. cbn [usedAt pr_token].
    now rewrite andb_false_r. }
  unfold reset_password.
  destruct (filter (redeemable now token) (password_reset_table db))
    as [|reset_row rest] eqn:E.
  - cbn [snd]. apply Forall_forall. intros r Hr. apply Hkeep.
    destruct (redeemable now token r) eqn:Er; [|reflexivity].
    assert (Hin : In r (filter (redeemable now token) (password_reset_table db)))
      by (apply filter_In; auto).
    rewrite E in Hin. destruct Hin.
  - destruct (hash_password pbkdf2_hmac b64encode salt password);
      cbn [snd password_reset_table]; exact Hmarked.
Qed.

(** A reset link works at most once: after an attempt with a token,
    whatever its outcome, a later attempt with the same token is refused
    with status 400 and changes nothing.  An attempt with an empty
    password on a good link fails with a [ValueError] and still uses the
    link up, leaving every password as it was. *)
Theorem reset_link_single_use (now changed later changed' : Z)
    (salt salt' token password password' : string) (db : Tables) :
  now <= later ->
  let reset := reset_password pbkdf2_hmac b64encode in
  let after := snd (reset now changed salt token password db) in
  reset later changed' salt' token password' after
  = (Raise (HTTPException 400 "Reset link is invalid or expired."), after)
  /\ (filter (redeemable now token) (password_reset_table db) <> [] ->
      fst (reset now changed salt token "" db) = Raise ValueError
      /\ user_table (snd (reset now changed salt token "" db)) = user_table db
      /\ reset later changed' salt' token password' (snd (reset now changed salt token "" db))
         = (Raise (HTTPException 400 "Reset link is invalid or expired."),
            snd (reset now changed salt token "" db))).
Proof.
  intros Hle reset after.
  assert (Hspent : forall pw,
            reset later changed' salt' token password' (snd (reset now changed salt token pw db))
            = (Raise (HTTPException 400 "Reset link is invalid or expired."),
               snd (reset now changed salt token pw db))).
  { intros pw.
    pose proof (spent_after_reset now changed later salt token pw db Hle) as H.
    fold reset in H. unfold reset at 1. unfold reset_password at 1.
    now rewrite (filter_none _ _ H). }
  split; [apply Hspent|].
  intros Hgood. split; [|split; [|apply Hspent]].
  - unfold reset, reset_password.
    destruct (filter (redeemable now token) (password_reset_table db));
      [contradiction|reflexivity].
  - unfold reset, reset_password.
    destruct (filter (redeemable now token) (password_reset_table db));
      [contradiction|reflexivity].
Qed.

(** A password set through a good reset link logs its user in: when the
    link's first redeemable row belongs to the first user found under the
    address, the new password is not empty and the key derivation and the
    codec behave (as for the hash), the reset answers "Password updated."
    and a login with the address and the new password then succeeds with
    that user's details, while every other user keeps their row. *)
Theorem reset_then_login (now changed : Z)
    (salt token email password derived : string)
    (db : Tables) (reset_row : PasswordReset) (others : list PasswordReset)
    (u : User) :
  password <> "" ->
  pbkdf2_hmac password salt PBKDF2_ITERATIONS = Ok derived ->
  b64decode (b64encode salt) = Ok salt ->
  b64decode (b64encode derived) = Ok derived ->
  occurrences "$" (b64encode salt) = 0%nat ->
  filter (redeemable now token) (password_reset_table db) = reset_row :: others ->
  find (fun v => String.eqb (lower (u_email v)) (lower (py_strip email)))
       (user_table db) = Some u ->
  u_id u = userId reset_row ->
  let outcome :=
    reset_password pbkdf2_hmac b64encode now changed salt token password db in
  fst outcome = Ok "Password updated."
  /\ login pbkdf2_hmac b64decode lower email password (snd outcome)
     = Ok (mkLoginResponse (u_id u) (u_name u) (u_email u) (u_role u)
                           (u_organizationId u))
  /\ (forall v, In v (user_table db) -> u_id v <> userId reset_row ->
                In v (user_table (snd outcome))).
Proof.
  intros Hne Hkey Hsalt Hder Hdollar Hrow Hfind Hid outcome.
  destruct (hashed_password_verifies pbkdf2_hmac b64encode b64decode
              salt password derived Hne Hkey Hsalt Hder Hdollar)
    as (stored & Hhash & Hverify).
  unfold outcome, reset_password. rewrite Hrow, Hhash. cbn [fst snd].
  split; [reflexivity|]. split.
  - unfold login. cbn [user_table].
    rewrite find_map_same.
    + rewrite Hfind. cbn [option_map].
      rewrite Hid, String.eqb_refl.
      cbn [set_password passwordHash u_id u_name u_email u_role u_organizationId].
      rewrite (Hverify password derived Hkey). cbn [bind].
      rewrite String.eqb_refl. now rewrite Hid.
    + intros v. destruct (String.eqb (u_id v) (userId reset_row)); reflexivity.
  - intros v Hin Hother. cbn [user_table]. apply in_map_iff. exists v.
    split; [|exact Hin].
    destruct (String.eqb_spec (u_id v) (userId reset_row)); [contradiction|reflexivity].
Qed.

End AccountProperties.

Lemma reset_link_single_use_witness :
  let kdf := fun (password salt : string) (n : Z) => Ok (salt ++ password)%string in
  let db := mkTables
              [ mkUser "u1" (Some "Ann") "Ann@Example.com" "old" "ADMIN" None None ]
              [ mkPasswordReset "r1" "tok" "u1" 100 None ] in
  let after := snd (reset_password kdf (fun s => s) 50 51 "NaCl" "tok" "secret" db) in
  reset_password kdf (fun s => s) 60 61 "KCl" "tok" "other" after
  = (Raise (HTTPException 400 "Reset link is invalid or expired."), after).
Proof.
  intros kdf db after.
  apply (reset_link_single_use kdf (fun s => s) 50 51 60 61 "NaCl" "KCl" "tok"
                               "secret" "other" db).
  lia.
Defined.

Lemma reset_then_login_witness :
  let kdf := fun (password salt : string) (n : Z) => Ok (salt ++ password)%string in
  let db := mkTables
              [ mkUser "u1" (Some "Ann") "Ann@Example.com" "old" "ADMIN" None None ]
              [ mkPasswordReset "r1" "tok" "u1" 100 None ] in
  let after := snd (reset_password kdf (fun s => s) 50 51 "NaCl" "tok" "secret" db) in
  login kdf (fun s => Ok s) (fun s => s) "  Ann@Example.com " "secret" after
  = Ok (mkLoginResponse "u1" (Some "Ann") "Ann@Example.com" "ADMIN" None).
Proof.
  intros kdf db after.
  pose proof (reset_then_login kdf (fun s => s) (fun s => Ok s) (fun s => s)
                50 51 "NaCl" "tok" "  Ann@Example.com " "secret" "NaClsecret" db
                (mkPasswordReset "r1" "tok" "u1" 100 None) []
                (mkUser "u1" (Some "Ann") "Ann@Example.com" "old" "ADMIN" None None))
    as H.
  specialize (H ltac:(discriminate) eq_refl eq_refl eq_refl eq_refl eq_refl
                eq_refl eq_refl).
  exact (proj1 (proj2 H)).
Defined.

(** ** The two period charts, end to end *)

Lemma series_indexed (g : granularity) (start end_ : date) :
  valid_date start -> valid_date end_ -> date_le start end_ ->
  let step := step_months g in
  exists (s0 : Z) (n : nat),
    date_trunc (grain_of g) start = first_of s0
    /\ date_trunc (grain_of g) end_ = first_of (s0 + Z.of_nat n * step)
    /\ generate_series (date_trunc (grain_of g) start)
                       (date_trunc (grain_of g) end_) step
       = map (fun k => first_of (s0 + Z.of_nat k * step)) (seq 0 (S n)).
Proof.
  intros Hvs Hve Hle step.
  pose proof (proj1 (valid_date_fields start) Hvs) as (_ & Hms & _).
  pose proof (proj1 (valid_date_fields end_) Hve) as (_ & Hme & _).
  pose proof (step_months_pos g) as Hstep. fold step in Hstep.
  set (a := month_index start / step).
  set (b := month_index end_ / step).
  assert (Hab : a <= b).
  { apply Z.div_le_mono; [lia|]. now apply month_index_mono. }
  pose proof (date_trunc_first_of g start Hms) as Hsp.
  pose proof (date_trunc_first_of g end_ Hme) as Hep.
  fold step a in Hsp. fold step b in Hep.
  exists (step * a), (Z.to_nat (b - a)).
  split; [exact Hsp|]. split.
  { rewrite Hep. f_equal. rewrite Z2Nat.id by lia. lia. }
  rewrite Hsp, Hep. unfold generate_series. rewrite !month_index_first_of.
  apply generate_series_from_spec; nia.
Qed.

(** A resolved period is a window of valid dates in order. *)
Lemma resolved_period_valid (today : date) (g : granularity)
    (start end_ : option date) (p : period) :
  valid_date today -> 10 <= year today ->
  (forall d, start = Some d -> valid_date d) ->
  (forall d, end_ = Some d -> valid_date d) ->
  _resolve_period today g start end_ = Ok p ->
  valid_date (p_start p) /\ valid_date (p_end p)
  /\ date_le (p_start p) (p_end p).
Proof.
  intros Hv Hy Hvs Hve Hres.
  destruct (resolve_period_defaults today g Hv Hy) as (Hms & Hform).
  rewrite Hform in Hres.
  destruct (date_trunc_valid g today Hv) as (Hvf & Hd).
  pose proof (proj1 (valid_date_fields today) Hv) as (Hyr & _ & _).
  set (e := date_trunc (grain_of g) today) in *.
  set (s := pg_add_months e (- default_lookback g)) in *.
  assert (Hye : year e = year today) by (unfold e; destruct g; reflexivity).
  pose proof (proj1 (valid_date_fields e) Hvf) as (_ & Hme & _).
  assert (Hvsd : valid_date s).
  { apply add_months_valid; [exact Hvf|].
    assert (Hidx : month_index e = year e * 12 + (month e - 1)) by reflexivity.
    split.
    - apply Z.div_le_lower_bound; [lia|]. destruct g; simpl; lia.
    - apply Z.div_le_upper_bound; [lia|]. destruct g; simpl; lia. }
  destruct (date_ltb_spec (or_else end_ e) (or_else start s)) as [|Hge];
    [discriminate|].
  injection Hres as <-. cbn [p_start p_end].
  split; [|split].
  - destruct start as [d|]; [now apply Hvs|exact Hvsd].
  - destruct end_ as [d|]; [now apply Hve|exact Hvf].
  - revert Hge. unfold date_le, date_lt. lia.
Qed.

(** The headcount chart and the hires-and-exits chart of one request have
    the same buckets: both endpoints fail with the same error, or return
    one point per bucket from the bucket of the resolved start to the
    bucket of the resolved end, with the same period starts in the same
    order. *)
Theorem charts_share_buckets (db : Database) (today : date) (g : granularity)
    (start end_ : option date) (entities : list string)
    (organization_id month_key : option string) :
  valid_date today -> 10 <= year today ->
  (forall d, start = Some d -> valid_date d) ->
  (forall d, end_ = Some d -> valid_date d) ->
  match manpower_rampup db today g start end_ entities organization_id month_key,
        hires_exits db today g start end_ entities organization_id month_key with
  | Ok points, Ok flows =>
      exists p,
        _resolve_period today g start end_ = Ok p
        /\ map period_start points = map h_period_start flows
        /\ hd_error (map period_start points)
           = Some (date_trunc (grain_of g) (p_start p))
        /\ last (map period_start points) (p_start p)
           = date_trunc (grain_of g) (p_end p)
        /\ Z.of_nat (List.length points)
           = (month_index (date_trunc (grain_of g) (p_end p))
              - month_index (date_trunc (grain_of g) (p_start p)))
             / step_months g + 1
  | Raise e, Raise e' => e = e'
  | _, _ => False
  end.
Proof.
  intros Hv Hy Hvs Hve.
  unfold manpower_rampup, hires_exits, _resolve_analytics_scope.
  destruct (_resolve_org_month_scope db organization_id month_key) as [sc|e];
    cbn [bind]; [|reflexivity].
  destruct (_resolve_period today g start end_) as [p|e] eqn:Hres;
    cbn [bind]; [|reflexivity].
  destruct (resolved_period_valid today g start end_ p Hv Hy Hvs Hve Hres)
    as (Hps & Hpe & Hle).
  pose proof (step_months_pos g) as Hstep.
  destruct (series_indexed g (p_start p) (p_end p) Hps Hpe Hle)
    as (s0 & n & Hsp & Hep & Hseries).
  destruct (headcount_series_indexed g
              (latest db (org_id sc) (dashboard_month_id sc)) entities
              (p_start p) (p_end p) Hps Hpe Hle)
    as (s0' & n' & Hsp' & Hep' & Hrows).
  assert (Hs0 : s0' = s0).
  { apply first_of_injective. now rewrite <- Hsp, <- Hsp'. }
  subst s0'.
  assert (Hn : n' = n).
  { rewrite Hep in Hep'. apply first_of_injective in Hep'. nia. }
  subst n'.
  assert (Hstarts : map period_start
                      (manpower_sql g (latest db (org_id sc) (dashboard_month_id sc))
                                    entities (p_start p) (p_end p))
                    = map (fun k => first_of (s0 + Z.of_nat k * step_months g))
                          (seq 0 (S n))).
  { rewrite <- (map_map (fun r => (period_start r, headcount r,
                                   opening_headcount r, ramp_change r))
                        (fun q => fst (fst (fst q)))).
    rewrite Hrows, map_map. reflexivity. }
  exists p. split; [reflexivity|].
  rewrite Hstarts. split.
  { unfold hires_sql. rewrite map_map. cbn [h_period_start].
    rewrite map_id. symmetry. exact Hseries. }
  split.
  { cbn [seq map hd_error]. rewrite Hsp. f_equal. f_equal. lia. }
  split.
  { rewrite seq_S, map_app. cbn [map plus]. rewrite last_last. now rewrite Hep. }
  rewrite <- (length_map period_start), Hstarts, length_map, length_seq.
  rewrite Hsp, Hep, !month_index_first_of.
  replace (s0 + Z.of_nat n * step_months g - s0)
    with (Z.of_nat n * step_months g) by lia.
  rewrite Z.div_mul by lia. lia.
Qed.

Lemma charts_share_buckets_witness :
  exists points flows,
    manpower_rampup sample_db (mkDate 2024 3 15) quarterly
                    (Some (mkDate 2023 2 10)) None [] (Some "acme") None
    = Ok points
    /\ hires_exits sample_db (mkDate 2024 3 15) quarterly
                   (Some (mkDate 2023 2 10)) None [] (Some "acme") None
       = Ok flows
    /\ map period_start points = map h_period_start flows
    /\ List.length points = 5%nat.
Proof.
  pose proof (charts_share_buckets sample_db (mkDate 2024 3 15) quarterly
                (Some (mkDate 2023 2 10)) None [] (Some "acme") None
                eq_refl ltac:(simpl; lia)) as H.
  specialize (H ltac:(intros d [= <-]; reflexivity) ltac:(discriminate)).
  destruct (manpower_rampup sample_db (mkDate 2024 3 15) quarterly
              (Some (mkDate 2023 2 10)) None [] (Some "acme") None)
    as [points|e] eqn:Em;
    destruct (hires_exits sample_db (mkDate 2024 3 15) quarterly
                (Some (mkDate 2023 2 10)) None [] (Some "acme") None)
      as [flows|e'] eqn:Eh; try contradiction.
  - destruct H as (p & _ & Hsame & _).
    exists points, flows. repeat split; try assumption.
    vm_compute in Em. injection Em as <-. reflexivity.
  - vm_compute in Em. discriminate Em.
Defined.

(** ** The attrition denominator against the headcount chart *)

Lemma Zsum_positive_part (l : list (date * Z)) :
  Forall (fun r => 0 <= snd r) l ->
  Zsum (map snd (filter (fun r => 0 <? snd r) l)) = Zsum (map snd l).
Proof.
  induction 1 as [|r l Hr _ IH]; [reflexivity|].
  cbn [filter map]. change (Zsum (?a :: ?t)) with (a + Zsum t).
  destruct (Z.ltb_spec 0 (snd r)).
  - cbn [map]. change (Zsum (?a :: ?t)) with (a + Zsum t). lia.
  - lia.
Qed.

Lemma monthly_sum_all_months (y : YearBound) (g : option string * list Employee) :
  r_monthly_headcount_sum (attrition_row y g)
  = inject_Z (Zsum (map (fun ms => count (month_condition ms) (snd g))
                        (month_series y))).
Proof.
  cbn [attrition_row r_monthly_headcount_sum]. unfold monthly_summary.
  rewrite <- (map_map (fun ms => (ms, count (month_condition ms) (snd g))) snd).
  rewrite <- Zsum_positive_part.
  - fold (monthly_counts y (snd g)).
    destruct (monthly_counts y (snd g)); reflexivity.
  - apply Forall_forall. intros r Hr. apply in_map_iff in Hr.
    destruct Hr as (ms & <- & _). apply count_nonneg.
Qed.

(** The monthly headcount chart over the months of a window that starts
    on an April 1. *)
Lemma chart_of_window (latest : list Employee) (entities : list string)
    (k m : Z) :
  1 <= k -> k + 1 <= 9999 -> 1 <= m <= 12 ->
  let ys := mkDate k 4 1 in
  map headcount (manpower_sql monthly latest entities ys (pg_add_months ys (m - 1)))
  = map (fun i => headcount_at latest entities 1 (pg_add_months ys i))
        (int_series 0 (m - 1)).
Proof.
  intros Hk Hk' Hm ys.
  assert (Hvs : valid_date ys).
  { apply valid_date_fields. unfold ys. cbn [year month day].
    pose proof (days_in_month_bounds k 4). lia. }
  assert (Hidx : month_index ys = k * 12 + 3) by reflexivity.
  assert (Hys : ys = first_of (month_index ys))
    by (symmetry; apply first_of_month_index; unfold ys; cbn [month day]; lia).
  assert (Hve : valid_date (pg_add_months ys (m - 1))).
  { apply add_months_valid; [exact Hvs|]. rewrite Hidx. split.
    - apply Z.div_le_lower_bound; lia.
    - assert ((k * 12 + 3 + (m - 1)) / 12 < 10000)
        by (apply Z.div_lt_upper_bound; lia).
      lia. }
  assert (Hend : pg_add_months ys (m - 1) = first_of (month_index ys + (m - 1))).
  { rewrite Hys at 1. apply add_months_first_of. }
  assert (Hle : date_le ys (pg_add_months ys (m - 1))).
  { rewrite Hend. rewrite Hys at 1. apply date_leb_le. rewrite first_of_leb.
    apply Z.leb_le. lia. }
  destruct (headcount_series_indexed monthly latest entities ys
              (pg_add_months ys (m - 1)) Hvs Hve Hle)
    as (s0 & n & Hsp & Hep & Hrows).
  cbn [step_months grain_of] in Hsp, Hep, Hrows.
  assert (Hs0 : s0 = month_index ys).
  { apply first_of_injective. rewrite <- Hsp, <- Hys. reflexivity. }
  assert (Hn : Z.of_nat n = m - 1).
  { rewrite Hend in Hep. change (date_trunc GMonth (first_of ?i)) with (first_of i) in Hep.
    apply first_of_injective in Hep. lia. }
  rewrite <- (map_map (fun r => (period_start r, headcount r,
                                 opening_headcount r, ramp_change r))
                      (fun q => snd (fst (fst q)))).
  rewrite Hrows, map_map. cbn [fst snd].
  unfold int_series. rewrite map_map.
  replace (Z.to_nat (m - 1 - 0 + 1)) with (S n) by lia.
  apply map_ext. intros i. f_equal.
  rewrite Hys at 1. rewrite add_months_first_of, Hs0. f_equal. lia.
Qed.

Lemma headcount_at_month (latest : list Employee) (entities : list string)
    (ms : date) :
  headcount_at latest entities 1 ms
  = count (month_condition ms) (filter (entity_clause entities) latest).
Proof.
  rewrite count_filter. unfold headcount_at.
  change (Z.of_nat (List.length (filter ?p latest))) with (count p latest).
  apply count_ext. intros ed _. unfold manpower_active, month_condition.
  apply andb_comm.
Qed.

(** The average headcount behind an attrition rate is the average of the
    monthly headcount chart: for each fiscal window of a cutoff, the
    monthly headcount sum of the overall attrition row is the sum of the
    headcounts that the monthly headcount series shows from the first to
    the last month of the window, one point per month covered. *)
Theorem average_headcount_matches_chart (latest : list Employee)
    (entities : list string) (cutoff : date) :
  valid_date cutoff -> 5 <= year cutoff <= 9998 ->
  exists windows rows,
    year_bounds cutoff = Ok windows
    /\ attrition_sql false latest entities cutoff = Ok rows
    /\ (filter (entity_clause entities) latest <> [] ->
        Forall2 (fun y a =>
                   let chart :=
                     manpower_sql monthly latest entities (year_start y)
                       (pg_add_months (year_start y) (months_covered y - 1)) in
                   Z.of_nat (List.length chart) = r_months_covered a
                   /\ r_monthly_headcount_sum a
                      = inject_Z (Zsum (map headcount chart)))
                windows rows).
Proof.
  intros Hv Hy.
  destruct (year_bounds_chain cutoff Hv ltac:(lia)) as (last & Hyb & Hls & _).
  pose proof (year_bounds_months_range cutoff _ Hyb) as Hmonths.
  set (fy := fiscal_year_of cutoff) in *.
  assert (Hfy : year cutoff - 1 <= fy <= year cutoff).
  { unfold fy, fiscal_year_of. destruct (4 <=? month cutoff); lia. }
  unfold attrition_sql. rewrite Hyb. cbn [bind].
  set (windows := [_; _; _; last]) in *.
  set (population := filter (entity_clause entities) latest).
  exists windows. eexists. split; [reflexivity|]. split; [reflexivity|].
  intros Hne. unfold groups.
  destruct population as [|ed0 rest] eqn:Epop; [contradiction|].
  rewrite <- Epop.
  rewrite (flat_map_singleton (fun y => attrition_row y (None, population))).
  rewrite <- (map_id windows) at 1.
  apply Forall2_map_both. intros y Hin.
  assert (Hstart : exists k, year_start y = mkDate k 4 1 /\ fy - 3 <= k <= fy).
  { unfold windows in Hin. cbn [In] in Hin.
    destruct Hin as [<-|[<-|[<-|[<-|[]]]]]; cbn [year_start];
      eexists; (split; [try reflexivity; exact Hls|lia]). }
  destruct Hstart as (k & Hk & Hrange).
  pose proof (Hmonths y Hin) as Hm.
  cbv zeta. rewrite monthly_sum_all_months. cbn [snd attrition_row r_months_covered].
  rewrite Hk.
  pose proof (chart_of_window latest entities k (months_covered y)
                ltac:(lia) ltac:(lia) Hm) as Hchart.
  cbv zeta in Hchart. split.
  - rewrite <- (length_map headcount), Hchart, length_map.
    unfold int_series. rewrite length_map, length_seq. lia.
  - rewrite Hchart. f_equal. f_equal.
    unfold month_series. rewrite Hk.
    replace (Z.max (months_covered y) 0 - 1) with (months_covered y - 1) by lia.
    rewrite map_map. apply map_ext. intros i.
    symmetry. apply headcount_at_month.
Qed.

Lemma average_headcount_matches_chart_witness :
  let latest := latest sample_db (Some "acme") None in
  r_monthly_headcount_sum
    (attrition_row (mkYearBound (mkDate 2023 4 1) (mkDate 2024 4 1)
                                (mkDate 2024 4 1) 12) (None, latest))
  = inject_Z (Zsum (map headcount
                        (manpower_sql monthly latest [] (mkDate 2023 4 1)
                                      (mkDate 2024 3 1)))).
Proof.
  intros latest.
  destruct (average_headcount_matches_chart latest [] (mkDate 2024 7 10)
              eq_refl ltac:(simpl; lia))
    as (windows & rows & Hw & Hr & Hall).
  vm_compute in Hw. injection Hw as <-.
  vm_compute in Hr. injection Hr as <-.
  specialize (Hall ltac:(discriminate)).
  inversion Hall as [|? ? ? ? _ Hrest]; subst.
  inversion Hrest as [|? ? ? ? _ Hrest']; subst.
  inversion Hrest' as [|? ? ? ? [_ H3] _]; subst.
  exact H3.
Defined.

(** ** The entity list as a filter *)

Lemma existsb_filter_nil {A} (f : A -> bool) (l : list A) :
  existsb f l = false -> filter f l = [].
Proof.
  induction l as [|x l IH]; [reflexivity|].
  cbn [existsb filter]. destruct (f x); [discriminate|exact IH].
Qed.

(** In whatever order the entity list comes back: it names each entity of
    the snapshot once.  Passing the whole list as the entity filter of a
    query does not select every record: it keeps the records whose entity
    is a non-empty name and drops those without one, because empty names
    are taken out of a filter; and when no listed name is non-empty the
    filter is void and every record is kept. *)
Theorem all_entities_as_filter (latest : list Employee) (listed : list string) :
  Permutation listed (list_entities_sql latest) ->
  NoDup listed
  /\ (forall e, In e listed <-> exists ed, In ed latest /\ entity ed = Some e)
  /\ (forall ed, In ed latest ->
        entity_clause listed ed
        = if existsb (fun e => negb (String.eqb e "")) listed
          then match entity ed with
               | Some e => negb (String.eqb e "")
               | None => false
               end
          else true).
Proof.
  intros Hperm.
  assert (Hin : forall e, In e listed
                          <-> exists ed, In ed latest /\ entity ed = Some e).
  { intros e. split.
    - intros H. apply (Permutation_in _ Hperm) in H.
      apply nodup_In, in_flat_map in H. destruct H as (ed & Hed & He).
      exists ed. split; [exact Hed|].
      destruct (entity ed) as [e'|]; [|destruct He].
      destruct He as [<-|[]]. reflexivity.
    - intros (ed & Hed & He).
      apply (Permutation_in _ (Permutation_sym Hperm)).
      apply nodup_In, in_flat_map. exists ed. split; [exact Hed|].
      rewrite He. now left. }
  split.
  { apply (Permutation_NoDup (Permutation_sym Hperm)), NoDup_nodup. }
  split; [exact Hin|].
  intros ed Hed. unfold entity_clause, entity_filter.
  destruct (existsb (fun e => negb (String.eqb e "")) listed) eqn:Ex.
  - destruct (filter (fun e => negb (String.eqb e "")) listed) as [|w ws] eqn:Ef.
    { apply existsb_exists in Ex. destruct Ex as (e & He & Hne).
      assert (Hf : In e (filter (fun e => negb (String.eqb e "")) listed))
        by (apply filter_In; auto).
      rewrite Ef in Hf. destruct Hf. }
    rewrite <- Ef. destruct (entity ed) as [e|] eqn:Ee; [|reflexivity].
    destruct (String.eqb_spec e "") as [->|Hne]; cbn [negb].
    + destruct (existsb (String.eqb "")
                        (filter (fun e => negb (String.eqb e "")) listed)) eqn:E;
        [|reflexivity].
      apply existsb_exists in E. destruct E as (x & Hx & Hxe).
      apply filter_In in Hx. destruct Hx as [_ Hx].
      apply String.eqb_eq in Hxe. subst x. discriminate Hx.
    + apply existsb_exists. exists e. split; [|apply String.eqb_refl].
      apply filter_In. split.
      * apply Hin. exists ed. auto.
      * destruct (String.eqb_spec e ""); [contradiction|reflexivity].
  - now rewrite (existsb_filter_nil _ _ Ex).
Qed.

Lemma all_entities_as_filter_witness :
  let latest := latest sample_db (Some "acme") None in
  list_entities_sql latest = ["Acme India"]
  /\ Forall (fun ed => entity_clause (list_entities_sql latest) ed = true) latest.
Proof.
  intros latest. split; [reflexivity|].
  destruct (all_entities_as_filter latest (list_entities_sql latest)
              (Permutation_refl _)) as (_ & _ & H).
  apply Forall_forall. intros ed Hed. rewrite (H ed Hed).
  vm_compute in Hed.
  repeat (destruct Hed as [<-|Hed]; [reflexivity|]). destruct Hed.
Defined.

(** ** One bucket start at two granularities *)

Lemma single_bucket (g : granularity) (latest : list Employee)
    (entities : list string) (p : date) :
  valid_date p -> date_trunc (grain_of g) p = p ->
  map (fun r => (period_start r, headcount r)) (manpower_sql g latest entities p p)
  = [(p, headcount_at latest entities (step_months g) p)].
Proof.
  intros Hv Htrunc.
  assert (Hle : date_le p p) by (unfold date_le, date_lt; lia).
  destruct (headcount_series_indexed g latest entities p p Hv Hv Hle)
    as (s0 & n & Hsp & Hep & Hrows).
  pose proof (step_months_pos g) as Hstep.
  assert (Hn : n = 0%nat).
  { rewrite Hsp in Hep. apply first_of_injective in Hep. nia. }
  subst n. rewrite Htrunc in Hsp.
  rewrite <- (map_map (fun r => (period_start r, headcount r,
                                 opening_headcount r, ramp_change r))
                      (fun q => (fst (fst (fst q)), snd (fst (fst q))))).
  rewrite Hrows. cbn [seq map fst snd].
  replace (s0 + Z.of_nat 0 * step_months g) with s0 by lia.
  now rewrite <- Hsp.
Qed.

(** At the same bucket start a coarser granularity never shows more
    people: the headcount counts those on the rolls through the whole
    bucket, so the quarterly point of a quarter start is at most the
    monthly point of that month, and the yearly point of a January 1 is at
    most the quarterly one. *)
Theorem coarser_grain_counts_fewer (fine coarse : granularity)
    (latest : list Employee) (entities : list string) (p : date) :
  valid_date p ->
  step_months fine <= step_months coarse ->
  date_trunc (grain_of coarse) p = p ->
  exists h_fine h_coarse,
    map (fun r => (period_start r, headcount r))
        (manpower_sql fine latest entities p p) = [(p, h_fine)]
    /\ map (fun r => (period_start r, headcount r))
           (manpower_sql coarse latest entities p p) = [(p, h_coarse)]
    /\ h_coarse <= h_fine.
Proof.
  intros Hv Hsteps Hcoarse.
  pose proof (proj1 (valid_date_fields p) Hv) as (_ & Hm & Hd).
  assert (Hfine : date_trunc (grain_of fine) p = p).
  { pose proof (f_equal month Hcoarse) as Hmo.
    pose proof (f_equal day Hcoarse) as Hda.
    destruct fine, coarse; cbn [step_months] in Hsteps; try lia;
      cbn [grain_of date_trunc month day] in Hmo, Hda |- *;
      apply date_eq_fields; cbn [year month day]; try lia.
    rewrite <- Hmo. reflexivity. }
  do 2 eexists.
  split; [now apply single_bucket|]. split; [now apply single_bucket|].
  unfold headcount_at. change (Z.of_nat (List.length (filter ?c latest)))
    with (count c latest).
  apply count_mono. intros ed _. unfold manpower_active.
  destruct (DOJ ed) as [doj|]; [|discriminate].
  destruct (final_lwd ed) as [lwd|]; [|auto].
  rewrite !andb_true_iff, !date_leb_le. intros [[Hdoj Hlwd] He].
  repeat split; auto.
  eapply date_le_trans; [|exact Hlwd].
  assert (Hp : p = first_of (month_index p)).
  { symmetry. apply first_of_month_index; [exact Hm|].
    rewrite <- Hcoarse. destruct coarse; reflexivity. }
  rewrite Hp, !add_months_first_of. apply date_leb_le.
  rewrite first_of_leb. apply Z.leb_le. lia.
Qed.

Lemma coarser_grain_counts_fewer_witness :
  let latest := latest sample_db (Some "acme") None in
  exists h_fine h_coarse,
    map (fun r => (period_start r, headcount r))
        (manpower_sql monthly latest [] (mkDate 2024 1 1) (mkDate 2024 1 1))
    = [(mkDate 2024 1 1, h_fine)]
    /\ map (fun r => (period_start r, headcount r))
           (manpower_sql quarterly latest [] (mkDate 2024 1 1) (mkDate 2024 1 1))
       = [(mkDate 2024 1 1, h_coarse)]
    /\ h_coarse <= h_fine /\ h_fine = 2 /\ h_coarse = 1.
Proof.
  intros latest.
  destruct (coarser_grain_counts_fewer monthly quarterly latest []
              (mkDate 2024 1 1) eq_refl ltac:(simpl; lia) eq_refl)
    as (hf & hc & Hf & Hc & Hle).
  exists hf, hc. repeat split; try assumption.
  - vm_compute in Hf. now injection Hf as <-.
  - vm_compute in Hc. now injection Hc as <-.
Defined.

(** ** Shifts in a row *)

(** Two shifts in a row are one shift by the sum when the day of the month
    is at most 28, as it is for every floored date; a later day can be
    clamped on the way, so that January 31 shifted by one month twice ends
    on March 29 and shifted by two months on March 31. *)
Theorem shift_months_compose (value : date) (a b : Z) :
  valid_date value -> day value <= 28 ->
  1 <= (month_index value + a) / 12 <= 9999 ->
  1 <= (month_index value + a + b) / 12 <= 9999 ->
  (first <- _shift_months value a ;; _shift_months first b)
  = _shift_months value (a + b)
  /\ (first <- _shift_months (mkDate 2024 1 31) 1 ;; _shift_months first 1)
     = Ok (mkDate 2024 3 29)
  /\ _shift_months (mkDate 2024 1 31) 2 = Ok (mkDate 2024 3 31).
Proof.
  intros Hv Hday Ha Hab.
  split; [|split; reflexivity].
  pose proof (proj1 (valid_date_fields value) Hv) as (_ & Hm & Hd).
  rewrite (shift_months_is_add_months value a Hv Ha). cbn [bind].
  pose proof (add_months_valid value a Hv Ha) as Hv1.
  pose proof (month_index_add_months value a) as Hidx.
  rewrite (shift_months_is_add_months (pg_add_months value a) b Hv1)
    by (rewrite Hidx; exact Hab).
  rewrite (shift_months_is_add_months value (a + b) Hv)
    by (rewrite Z.add_assoc; exact Hab).
  f_equal.
  assert (Hkeep : forall d n, day d <= 28 ->
            pg_add_months d n
            = mkDate ((month_index d + n) / 12) ((month_index d + n) mod 12 + 1)
                     (day d)).
  { intros d n Hd28.
    change (pg_add_months d n)
      with (mkDate ((month_index d + n) / 12) ((month_index d + n) mod 12 + 1)
                   (Z.min (day d)
                          (_days_in_month ((month_index d + n) / 12)
                                          ((month_index d + n) mod 12 + 1)))).
    pose proof (days_in_month_bounds ((month_index d + n) / 12)
                                     ((month_index d + n) mod 12 + 1)).
    f_equal. lia. }
  rewrite (Hkeep (pg_add_months value a) b), Hidx.
  - rewrite (Hkeep value a Hday). cbn [day].
    rewrite (Hkeep value (a + b) Hday). now rewrite Z.add_assoc.
  - rewrite (Hkeep value a Hday). exact Hday.
Qed.

Lemma shift_months_compose_witness :
  (first <- _shift_months (mkDate 2024 11 28) 3 ;; _shift_months first (-14))
  = _shift_months (mkDate 2024 11 28) (-11).
Proof.
  apply (shift_months_compose (mkDate 2024 11 28) 3 (-14) eq_refl).
  - simpl. lia.
  - vm_compute. split; discriminate.
  - vm_compute. split; discriminate.
Defined.

(** ** Demographics per entity *)





